(** * webpage: a markdown-to-HTML page assembler and its site build script

    A shallow embedding of [webpage.c] (the per-page assembler) and of
    [webpages.sh] (the build script that drives it over a directory tree),
    followed by the properties of the two that the specification states and
    by further properties read off the code.

    C strings and file contents are sequences of 8-bit characters
    ([list ascii]); the process environment the assembler talks to (working
    directory, directory listings, files, password database, clock, the cmark
    renderer, the allocator) is a record [World]; every way the C program can
    stop is a constructor of [outcome].

    The program is taken as built for Linux with the GNU C library, which its
    headers ask for: [long] has 64 bits and [int] 32, getopt permutes argv
    (POSIXLY_CORRECT is not set), and the assertions are compiled in (NDEBUG
    is not defined). Writing past the end of an array is not given a
    behaviour: the model stops there with [Undefined]. *)

From Stdlib Require Import Ascii String List ZArith Lia Bool Arith.
Import ListNotations.
Local Open Scope list_scope.

(** ** C strings *)

Definition cstr := list ascii.

Definition lit (s : string) : cstr := list_ascii_of_string s.

(** Line feed and the double quote, which string literals cannot hold. *)
Definition LF : ascii := "010"%char.
Definition DQ : ascii := "034"%char.
Definition SLASH : ascii := "/"%char.
Definition DOT : ascii := "."%char.
Definition DASH : ascii := "-"%char.

(** [strcmp(a, b) == 0] *)
Fixpoint str_eqb (a b : cstr) : bool :=
  match a, b with
  | [], [] => true
  | x :: a', y :: b' => Ascii.eqb x y && str_eqb a' b'
  | _, _ => false
  end.

(** [needle] is an initial segment of [hay]. *)
Fixpoint has_prefix (needle hay : cstr) : bool :=
  match needle, hay with
  | [], _ => true
  | x :: needle', y :: hay' => Ascii.eqb x y && has_prefix needle' hay'
  | _ :: _, [] => false
  end.

(** [NULL != strstr(hay, needle)] *)
Fixpoint strstr (hay needle : cstr) : bool :=
  has_prefix needle hay ||
  match hay with
  | [] => false
  | _ :: hay' => strstr hay' needle
  end.

(** [needle] is a final segment of [hay]. *)
Definition has_suffix (needle hay : cstr) : bool :=
  has_prefix (rev needle) (rev hay).

(** The part of [s] before its last ['.'], or all of [s] when it has none:
    [p = strrchr(s, '.'); if (p) *p = 0]. *)
Fixpoint strip_extension (s : cstr) : cstr :=
  match s with
  | [] => []
  | c :: s' =>
      if Ascii.eqb c DOT && negb (existsb (Ascii.eqb DOT) s') then []
      else c :: strip_extension s'
  end.

(** ** Ways the program stops *)

(** The [assert]s of webpage.c, by what they guard. *)
Inductive assertion : Type :=
| assert_readBuffer        (* copyFile: malloc of the read buffer *)
| assert_bytesWritten      (* copyFile: bytesRead == written *)
| assert_passwd            (* getUserName: getpwuid *)
| assert_opendir           (* findCssFile: opendir *)
| assert_canonicalize      (* findCssFile: canonicalize_file_name *)
| assert_mdFile            (* addWebpageBody: fopen of the markdown file *)
| assert_render            (* addWebpageBody: cmark parse and render *)
| assert_strftime          (* addWebpageHead: strftime *)
| assert_webpageFile       (* makeWebpageFile: fopen of the html file *)
| assert_badOption         (* getOptions: the default case of the switch *)
| assert_oneNakedArgument. (* getOptions: (optind + 1) == argc *)

(** What [printf] has put on stdout when the program calls [exit]. *)
Inductive diagnostic : Type :=
| msg_help                       (* printHelp() *)
| msg_abs_path_required          (* Absolute path required for 'c' option *)
| msg_missing_value (c : ascii)  (* Option %d requires a value *)
| msg_unknown_option (c : ascii) (* Unknown option %d specified *)
| msg_no_markdown                (* Expecting a markdown file to be specified *)
| msg_no_css (root : cstr)       (* No css file found under %s *)
| msg_outside_root.              (* Invoked outside of html root hierarchy. *)

Inductive outcome (A : Type) : Type :=
| Done (a : A)                          (* ran to completion *)
| Exited (code : Z) (msg : diagnostic)  (* exit(code) after a printf *)
| Aborted (a : assertion)               (* a failed assert *)
| Undefined                             (* wrote past the end of an array *)
| Diverges                              (* a loop that never ends *)
| OutOfFuel.                            (* the model's loop bound was hit *)

Arguments Done {A} a.
Arguments Exited {A} code msg.
Arguments Aborted {A} a.
Arguments Undefined {A}.
Arguments Diverges {A}.
Arguments OutOfFuel {A}.

Definition EXIT_NORMAL : Z := 0.
Definition EXIT_NO_MARKDOWN : Z := -1.
Definition EXIT_MISSING_VALUE : Z := -2.
Definition EXIT_UNKNOWN_OPTION : Z := -3.
Definition EXIT_NO_CSS_FILE : Z := -4.
Definition EXIT_ABS_PATH_REQUIRED : Z := -5.
Definition EXIT_INVOKED_OUTSIDE_HTML_ROOT : Z := -6.

Definition SEARCH_DIR_SIZE : nat := 256.

(** ** The environment of one assembler run *)

(** A regular file as [fopen], [fstat], [fread] see it. *)
Record file : Type := {
  f_data : cstr;     (* st_size is its length *)
  f_blksize : Z      (* st_blksize *)
}.

(** A directory is named by its canonical absolute path, root first; the
    filesystem root is [[]]. *)
Definition dirpath := list cstr.

Record World : Type := {
  w_cwd : dirpath;                           (* the working directory *)
  w_readdir : dirpath -> option (list cstr); (* d_name of each entry, in readdir order *)
  w_fopen_r : cstr -> option file;           (* fopen(name, "r"), name relative to cwd *)
  w_fopen_w : cstr -> bool;                  (* fopen(name, "w") succeeds *)
  w_user : option cstr;                      (* pw_name of getpwuid(geteuid()) *)
  w_strftime : cstr;                         (* strftime(s, 64, "%c", localtime) *)
  w_cmark : cstr -> option cstr;             (* cmark parse + render, CMARK_OPT_UNSAFE *)
  w_malloc : Z -> option cstr                (* malloc(n): the block's first contents *)
}.

(** *** Pathname resolution, as canonicalize_file_name and opendir do it *)

Definition parent (d : dirpath) : dirpath := removelast d.

Definition step_segment (W : World) (d : dirpath) (seg : cstr) : option dirpath :=
  if str_eqb seg [] then Some d
  else if str_eqb seg (lit ".") then Some d
  else if str_eqb seg (lit "..") then Some (parent d)
  else match w_readdir W d with
       | Some entries =>
           if existsb (str_eqb seg) entries then Some (d ++ [seg]) else None
       | None => None
       end.

Fixpoint walk (W : World) (d : dirpath) (seg : cstr) (path : cstr) : option dirpath :=
  match path with
  | [] => step_segment W d seg
  | c :: rest =>
      if Ascii.eqb c SLASH then
        match step_segment W d seg with
        | Some d' => walk W d' [] rest
        | None => None
        end
      else walk W d (seg ++ [c]) rest
  end.

Definition resolve (W : World) (path : cstr) : option dirpath :=
  match path with
  | c :: _ => if Ascii.eqb c SLASH then walk W [] [] path else walk W (w_cwd W) [] path
  | [] => None
  end.

(** The text of a canonical path: ["/"] for the root, else each component
    behind a slash. *)
Definition render (d : dirpath) : cstr :=
  match d with
  | [] => [SLASH]
  | _ => concat (map (fun c => SLASH :: c) d)
  end.

Definition canonicalize_file_name (W : World) (path : cstr) : option cstr :=
  option_map render (resolve W path).

Definition opendir (W : World) (path : cstr) : option (list cstr) :=
  match resolve W path with
  | Some d => w_readdir W d
  | None => None
  end.

(** ** webpage.c *)

(** [struct Options], without its member [txtFilename], which the program
    never reads or writes. *)
Record Options : Type := {
  includeTitle : bool;
  includeDTD : bool;
  includeAuthor : bool;
  includeDatetime : bool;
  cssRoot : option cstr;
  navEmbedCode : option cstr;
  verbose : bool
}.

Definition g_Options : Options :=
  {| includeTitle := true; includeDTD := true; includeAuthor := true;
     includeDatetime := true; cssRoot := None; navEmbedCode := None;
     verbose := false |}.

Definition g_Doctype : cstr := lit "<!DOCTYPE html>" ++ [LF].
Definition g_PageOpenTag : cstr := lit "<html>" ++ [LF].
Definition g_PageCloseTag : cstr := lit "</html>" ++ [LF].
Definition g_HeadOpenTag : cstr := lit "<head>" ++ [LF].
Definition g_HeadCloseTag : cstr := lit "</head>" ++ [LF].
Definition g_TitleOpenTag : cstr := lit "<title>".
Definition g_TitleCloseTag : cstr := lit "</title>" ++ [LF].
Definition g_CommentOpenTag : cstr := lit "<!--".
Definition g_CommentCloseTag : cstr := lit "-->" ++ [LF].
Definition g_LinkOpenTag : cstr := lit "<link ".
Definition g_LinkCloseTag : cstr := lit " >" ++ [LF].
Definition g_BodyOpenTag : cstr := lit "<body>" ++ [LF].
Definition g_BodyCloseTag : cstr := lit "</body>" ++ [LF].

(** *** findCssFile *)

(** [strcat(searchDir, s)] into [char searchDir[SEARCH_DIR_SIZE + 1]]. *)
Definition strcat_searchDir (searchDir s : cstr) : outcome cstr :=
  if length (searchDir ++ s) <=? SEARCH_DIR_SIZE
  then Done (searchDir ++ s)
  else Undefined.

Definition is_css_name (d_name : cstr) : bool := strstr d_name (lit ".css").

(** The do-while loop. Besides the result it gives the directories it has
    passed to [opendir], in order (the "Searching %s for css..." lines of the
    verbose log). *)
Fixpoint findCssFile_loop (fuel : nat) (W : World) (root : cstr) (searchDir : cstr)
  : list cstr * outcome (option cstr) :=
  match fuel with
  | O => ([], OutOfFuel)
  | S fuel' =>
      match opendir W searchDir with
      | None => ([searchDir], Aborted assert_opendir)
      | Some entries =>
          match find is_css_name entries with
          | Some d_name =>
              ([searchDir],
               match strcat_searchDir searchDir d_name with
               | Done p => Done (Some p)
               | _ => Undefined
               end)
          | None =>
              match canonicalize_file_name W searchDir with
              | None => ([searchDir], Aborted assert_canonicalize)
              | Some absPath =>
                  if str_eqb (lit "/") absPath
                  then ([searchDir], Exited EXIT_INVOKED_OUTSIDE_HTML_ROOT msg_outside_root)
                  else
                    let result := negb (str_eqb absPath root) in
                    match strcat_searchDir searchDir (lit "../") with
                    | Done searchDir' =>
                        if result then
                          let (seen, r) := findCssFile_loop fuel' W root searchDir' in
                          (searchDir :: seen, r)
                        else ([searchDir], Done None)
                    | _ => ([searchDir], Undefined)
                    end
              end
          end
      end
  end.

(** Each turn of the loop shortens the canonical path by one component and the
    loop leaves at ["/"], so one more turn than the working directory is deep
    is enough ([findCssFile_fuel] below). *)
Definition findCssFile_trace (W : World) (root : cstr) : list cstr * outcome (option cstr) :=
  findCssFile_loop (S (length (w_cwd W))) W root (lit "./").

Definition findCssFile (W : World) (root : cstr) : outcome (option cstr) :=
  snd (findCssFile_trace W root).

(** *** Writing the page

    The functions below write to [g_WebpageFilePtr]; a computation takes the
    bytes written so far and gives its result with the bytes written after
    it. [fwrite] to the page is taken to succeed, so the [assert] of
    [checked_fwrite] holds. *)

Definition io (A : Type) : Type := cstr -> outcome (A * cstr).

Definition ret {A : Type} (a : A) : io A := fun out => Done (a, out).

Definition bind {A B : Type} (m : io A) (k : A -> io B) : io B :=
  fun out =>
    match m out with
    | Done (a, out') => k a out'
    | Exited c d => Exited c d
    | Aborted a => Aborted a
    | Undefined => Undefined
    | Diverges => Diverges
    | OutOfFuel => OutOfFuel
    end.

(** A step that writes nothing: it succeeds with a value or stops the program. *)
Definition lift {A : Type} (r : outcome A) : io A :=
  fun out =>
    match r with
    | Done a => Done (a, out)
    | Exited c d => Exited c d
    | Aborted a => Aborted a
    | Undefined => Undefined
    | Diverges => Diverges
    | OutOfFuel => OutOfFuel
    end.

Notation "x <- m ;; k" := (bind m (fun x => k))
  (at level 61, m at next level, right associativity).
Notation "m ;; k" := (bind m (fun _ => k))
  (at level 61, right associativity).

Definition when (b : bool) (m : io unit) : io unit := if b then m else ret tt.

(** [fwrite] of a whole byte sequence to the page. *)
Definition fwrite (bytes : cstr) : io unit :=
  fun out => Done (tt, out ++ bytes).

Definition checked_fwrite (stringToWrite : cstr) : io unit := fwrite stringToWrite.

(** *** copyFile *)

(** Conversion to [int] (32 bits, two's complement). *)
Definition to_int (z : Z) : Z := ((z + 2 ^ 31) mod 2 ^ 32 - 2 ^ 31)%Z.

(** One [fread(readBufferPtr, 1, st_blksize, inputPtr)]: the bytes read, and
    the rest of the file. *)
Definition fread (st_blksize : Z) (input : cstr) : cstr * cstr :=
  (firstn (Z.to_nat st_blksize) input, skipn (Z.to_nat st_blksize) input).

(** The while loop of copyFile over the unread part of the input, the read
    buffer, and the two counters. When [fread] is at the end of the file and
    the loop goes round again, nothing it tests changes any more. *)
Fixpoint copyFile_loop (fuel : nat) (st_size st_blksize : Z)
    (input readBuffer : cstr) (bytesRead written : Z) : io unit :=
  match fuel with
  | O => fun _ => OutOfFuel
  | S fuel' =>
      let (chunk, input') := fread st_blksize input in
      let readBuffer' := chunk ++ skipn (length chunk) readBuffer in
      let bytesRead' := to_int (bytesRead + Z.of_nat (length chunk)) in
      if (st_size >=? bytesRead')%Z then
        if (bytesRead' <? st_size)%Z then
          fwrite readBuffer' ;;
          match input with
          | [] => fun _ => Diverges
          | _ :: _ =>
              copyFile_loop fuel' st_size st_blksize input' readBuffer'
                bytesRead' (to_int (written + 1))
          end
        else
          let written' := to_int (written * st_blksize) in
          let remainder := Z.rem bytesRead' st_blksize in
          if (remainder <? 0)%Z then lift Undefined
          else
            fwrite (firstn (Z.to_nat remainder) readBuffer') ;;
            if (bytesRead' =? to_int (written' + remainder))%Z then ret tt
            else lift (Aborted assert_bytesWritten)
      else
        if (bytesRead' =? written)%Z then ret tt
        else lift (Aborted assert_bytesWritten)
  end.

(** [st_blksize] is positive on a real file; the model stops at any other
    value. Every turn of the loop that goes round again has read at least one
    byte, hence the bound. *)
Definition copyFile (W : World) (input : file) : io unit :=
  let st_size := Z.of_nat (length (f_data input)) in
  let st_blksize := f_blksize input in
  if (st_blksize <=? 0)%Z then lift Undefined
  else
    match w_malloc W st_blksize with
    | None => lift (Aborted assert_readBuffer)
    | Some block =>
        let n := Z.to_nat st_blksize in
        let readBuffer := firstn n (block ++ repeat zero n) in
        copyFile_loop (S (length (f_data input))) st_size st_blksize
          (f_data input) readBuffer 0 0
    end.

(** *** The head *)

Definition getUserName (W : World) : io cstr :=
  match w_user W with
  | Some name => ret name
  | None => lift (Aborted assert_passwd)
  end.

Definition includeCSSFile (W : World) (root : cstr) : io unit :=
  cssFilename <- lift (findCssFile W root) ;;
  match cssFilename with
  | None => lift (Exited EXIT_NO_CSS_FILE (msg_no_css root))
  | Some cssFilename =>
      checked_fwrite g_LinkOpenTag ;;
      checked_fwrite (lit " rel=" ++ [DQ] ++ lit "stylesheet" ++ [DQ]
                        ++ lit " href=" ++ [DQ]) ;;
      checked_fwrite cssFilename ;;
      checked_fwrite ([DQ] ++ lit " ") ;;
      checked_fwrite g_LinkCloseTag
  end.

Definition includeTxtFile (W : World) (g_RootFilename : cstr) : io unit :=
  match w_fopen_r W (g_RootFilename ++ lit ".txt") with
  | None => ret tt
  | Some txtFile => copyFile W txtFile
  end.

Definition addWebpageHead (W : World) (o : Options) (g_RootFilename : cstr) : io unit :=
  checked_fwrite g_HeadOpenTag ;;
  when (includeTitle o)
    (checked_fwrite g_TitleOpenTag ;;
     checked_fwrite g_RootFilename ;;
     checked_fwrite g_TitleCloseTag) ;;
  when (includeAuthor o)
    (username <- getUserName W ;;
     checked_fwrite g_CommentOpenTag ;;
     checked_fwrite (lit "Author is ") ;;
     checked_fwrite username ;;
     checked_fwrite g_CommentCloseTag) ;;
  when (includeDatetime o)
    (match w_strftime W with
     | [] => lift (Aborted assert_strftime)
     | s =>
         checked_fwrite g_CommentOpenTag ;;
         checked_fwrite (lit "Datetime is ") ;;
         checked_fwrite s ;;
         checked_fwrite g_CommentCloseTag
     end) ;;
  match cssRoot o with
  | Some root => includeCSSFile W root
  | None => ret tt
  end ;;
  includeTxtFile W g_RootFilename ;;
  checked_fwrite g_HeadCloseTag.

(** *** The body *)

Definition addWebpageBody (W : World) (o : Options) (g_MarkdownFilename : cstr) : io unit :=
  match w_fopen_r W g_MarkdownFilename with
  | None => lift (Aborted assert_mdFile)
  | Some mdFile =>
      checked_fwrite g_BodyOpenTag ;;
      match w_cmark W (f_data mdFile) with
      | None => lift (Aborted assert_render)
      | Some renderBuffer =>
          checked_fwrite renderBuffer ;;
          match navEmbedCode o with
          | Some code =>
              checked_fwrite g_CommentOpenTag ;;
              checked_fwrite (lit " NAVIGATION EMBEDDING GOES HERE " ++ [LF]) ;;
              checked_fwrite code ;;
              checked_fwrite g_CommentCloseTag
          | None => ret tt
          end ;;
          checked_fwrite g_BodyCloseTag
      end
  end.

(** *** makeWebpage *)

(** What getOptions leaves in the globals. *)
Record Globals : Type := {
  options : Options;
  g_MarkdownFilename : cstr;
  g_RootFilename : cstr
}.

Definition g_WebpageFilename (G : Globals) : cstr := g_RootFilename G ++ lit ".html".

(** [fopen(g_WebpageFilename, "w")]: the page starts empty. *)
Definition makeWebpageFile (W : World) (G : Globals) : outcome cstr :=
  if w_fopen_w W (g_WebpageFilename G) then Done [] else Aborted assert_webpageFile.

(** The contents of the html file when makeWebpage returns. *)
Definition makeWebpage (W : World) (G : Globals) : outcome cstr :=
  match makeWebpageFile W G with
  | Done page =>
      match
        (when (includeDTD (options G)) (checked_fwrite g_Doctype) ;;
         checked_fwrite g_PageOpenTag ;;
         addWebpageHead W (options G) (g_RootFilename G) ;;
         addWebpageBody W (options G) (g_MarkdownFilename G) ;;
         checked_fwrite g_PageCloseTag) page
      with
      | Done (_, page') => Done page'
      | Exited c d => Exited c d
      | Aborted a => Aborted a
      | Undefined => Undefined
      | Diverges => Diverges
      | OutOfFuel => OutOfFuel
      end
  | Exited c d => Exited c d
  | Aborted a => Aborted a
  | Undefined => Undefined
  | Diverges => Diverges
  | OutOfFuel => OutOfFuel
  end.

(** *** strtol(optarg, NULL, 16)

    The C library's conversion, for [long] of 64 bits: white space, an
    optional sign, an optional [0x] or [0X], then the longest run of
    hexadecimal digits; the value is clamped to the range of [long], and it is
    0 when there is no digit to convert. *)

Definition isspace (c : ascii) : bool :=
  let n := nat_of_ascii c in
  (n =? 32) || ((9 <=? n) && (n <=? 13)).

Definition hex_digit (c : ascii) : option Z :=
  let n := Z.of_nat (nat_of_ascii c) in
  if ((48 <=? n) && (n <=? 57))%Z then Some (n - 48)%Z
  else if ((97 <=? n) && (n <=? 102))%Z then Some (n - 87)%Z
  else if ((65 <=? n) && (n <=? 70))%Z then Some (n - 55)%Z
  else None.

Fixpoint skip_space (s : cstr) : cstr :=
  match s with
  | c :: s' => if isspace c then skip_space s' else s
  | [] => []
  end.

Definition take_sign (s : cstr) : bool * cstr :=
  match s with
  | c :: s' =>
      if Ascii.eqb c "-" then (true, s')
      else if Ascii.eqb c "+" then (false, s')
      else (false, s)
  | [] => (false, [])
  end.

Definition skip_0x (s : cstr) : cstr :=
  match s with
  | z :: x :: s' =>
      if Ascii.eqb z "0" && (Ascii.eqb x "x" || Ascii.eqb x "X") then s' else s
  | _ => s
  end.

Fixpoint digits_value (acc : Z) (s : cstr) : Z :=
  match s with
  | c :: s' =>
      match hex_digit c with
      | Some d => digits_value (acc * 16 + d) s'
      | None => acc
      end
  | [] => acc
  end.

Definition LONG_MAX : Z := 2 ^ 63 - 1.
Definition LONG_MIN : Z := - 2 ^ 63.

Definition strtol16 (nptr : cstr) : Z :=
  let (negative, s) := take_sign (skip_space nptr) in
  let v := digits_value 0 (skip_0x s) in
  if negative then Z.max (- v) LONG_MIN else Z.min v LONG_MAX.

(** Whether strtol converts anything: after white space and sign there is a
    hexadecimal digit (the [0] of a [0x] prefix counts). *)
Definition strtol16_converts (nptr : cstr) : bool :=
  match snd (take_sign (skip_space nptr)) with
  | c :: _ => match hex_digit c with Some _ => true | None => false end
  | [] => false
  end.

(** *** getopt

    GNU getopt(3) in its default mode: options may be clustered behind one
    dash, an option's argument is the rest of its cluster or else the next
    element of argv, ["--"] ends the options, and argv is permuted so that
    the elements that are not options come last. *)

Inductive getopt_result : Type :=
| opt (c : ascii) (optarg : option cstr) (* getopt returned the option c *)
| opt_unknown (optopt : ascii)           (* getopt returned '?' *)
| opt_missing (optopt : ascii).          (* getopt returned ':' *)

(** [Some true]: an option that takes an argument; [Some false]: one that
    takes none; [None]: not an option character. *)
Fixpoint optstring_lookup (optstring : cstr) (c : ascii) : option bool :=
  match optstring with
  | o :: rest =>
      if Ascii.eqb o c then
        Some (match rest with
              | colon :: _ => Ascii.eqb colon ":"
              | [] => false
              end)
      else optstring_lookup rest c
  | [] => None
  end.

Definition option_kind (optstring : cstr) (c : ascii) : option bool :=
  if Ascii.eqb c ":" || Ascii.eqb c ";" then None else optstring_lookup optstring c.

(** The options of one cluster, and the option left waiting for the next
    element of argv as its argument, if any. *)
Fixpoint getopt_cluster (optstring : cstr) (chars : cstr)
  : list getopt_result * option ascii :=
  match chars with
  | [] => ([], None)
  | c :: rest =>
      match option_kind optstring c with
      | None =>
          let (rs, waiting) := getopt_cluster optstring rest in
          (opt_unknown c :: rs, waiting)
      | Some false =>
          let (rs, waiting) := getopt_cluster optstring rest in
          (opt c None :: rs, waiting)
      | Some true =>
          match rest with
          | [] => ([], Some c)
          | _ :: _ => ([opt c (Some rest)], None)
          end
      end
  end.

(** An option without its argument is reported as ':' when optstring starts
    with a colon, else as '?'. *)
Definition missing_argument (optstring : cstr) (c : ascii) : getopt_result :=
  match optstring with
  | colon :: _ => if Ascii.eqb colon ":" then opt_missing c else opt_unknown c
  | [] => opt_unknown c
  end.

Record scanned : Type := {
  returned : list getopt_result; (* what the calls of getopt return, in order *)
  option_elements : list cstr;   (* the elements of argv taken as options *)
  non_options : list cstr        (* the others: argv from optind on, at the end *)
}.

Definition more (rs : list getopt_result) (elements : list cstr) (s : scanned) : scanned :=
  {| returned := rs ++ returned s;
     option_elements := elements ++ option_elements s;
     non_options := non_options s |}.

Fixpoint getopt_scan (optstring : cstr) (args : list cstr) : scanned :=
  match args with
  | [] => {| returned := []; option_elements := []; non_options := [] |}
  | a :: rest =>
      if str_eqb a (lit "--")
      then {| returned := []; option_elements := [a]; non_options := rest |}
      else
        match a with
        | dash :: ((_ :: _) as chars) =>
            if Ascii.eqb dash DASH then
              let (rs, waiting) := getopt_cluster optstring chars in
              match waiting with
              | None => more rs [a] (getopt_scan optstring rest)
              | Some c =>
                  match rest with
                  | [] => more (rs ++ [missing_argument optstring c]) [a]
                            {| returned := []; option_elements := []; non_options := [] |}
                  | b :: rest' =>
                      more (rs ++ [opt c (Some b)]) [a; b] (getopt_scan optstring rest')
                  end
              end
            else
              let s := getopt_scan optstring rest in
              {| returned := returned s; option_elements := option_elements s;
                 non_options := a :: non_options s |}
        | _ =>
            let s := getopt_scan optstring rest in
            {| returned := returned s; option_elements := option_elements s;
               non_options := a :: non_options s |}
        end
  end.

(** argv[1..] as getopt leaves it when it has returned -1. *)
Definition permuted (s : scanned) : list cstr := option_elements s ++ non_options s.

(** *** getOptions *)

Definition flag_dtd : Z := 1.
Definition flag_title : Z := 2.
Definition flag_datetime : Z := 4.
Definition flag_author : Z := 8.

Definition set_includeDTD (b : bool) (o : Options) : Options :=
  {| includeTitle := includeTitle o; includeDTD := b; includeAuthor := includeAuthor o;
     includeDatetime := includeDatetime o; cssRoot := cssRoot o;
     navEmbedCode := navEmbedCode o; verbose := verbose o |}.
Definition set_includeTitle (b : bool) (o : Options) : Options :=
  {| includeTitle := b; includeDTD := includeDTD o; includeAuthor := includeAuthor o;
     includeDatetime := includeDatetime o; cssRoot := cssRoot o;
     navEmbedCode := navEmbedCode o; verbose := verbose o |}.
Definition set_includeAuthor (b : bool) (o : Options) : Options :=
  {| includeTitle := includeTitle o; includeDTD := includeDTD o; includeAuthor := b;
     includeDatetime := includeDatetime o; cssRoot := cssRoot o;
     navEmbedCode := navEmbedCode o; verbose := verbose o |}.
Definition set_includeDatetime (b : bool) (o : Options) : Options :=
  {| includeTitle := includeTitle o; includeDTD := includeDTD o;
     includeAuthor := includeAuthor o; includeDatetime := b; cssRoot := cssRoot o;
     navEmbedCode := navEmbedCode o; verbose := verbose o |}.
Definition set_cssRoot (r : option cstr) (o : Options) : Options :=
  {| includeTitle := includeTitle o; includeDTD := includeDTD o;
     includeAuthor := includeAuthor o; includeDatetime := includeDatetime o;
     cssRoot := r; navEmbedCode := navEmbedCode o; verbose := verbose o |}.
Definition set_navEmbedCode (n : option cstr) (o : Options) : Options :=
  {| includeTitle := includeTitle o; includeDTD := includeDTD o;
     includeAuthor := includeAuthor o; includeDatetime := includeDatetime o;
     cssRoot := cssRoot o; navEmbedCode := n; verbose := verbose o |}.
Definition set_verbose (b : bool) (o : Options) : Options :=
  {| includeTitle := includeTitle o; includeDTD := includeDTD o;
     includeAuthor := includeAuthor o; includeDatetime := includeDatetime o;
     cssRoot := cssRoot o; navEmbedCode := navEmbedCode o; verbose := b |}.

(** [if (flag & flags) include = false], for the four flags in the order of
    the source. *)
Definition apply_flags (flags : Z) (o : Options) : Options :=
  let o := if (Z.land flag_dtd flags =? 0)%Z then o else set_includeDTD false o in
  let o := if (Z.land flag_title flags =? 0)%Z then o else set_includeTitle false o in
  let o := if (Z.land flag_author flags =? 0)%Z then o else set_includeAuthor false o in
  if (Z.land flag_datetime flags =? 0)%Z then o else set_includeDatetime false o.

(** One turn of the second getopt loop: the switch on the option. *)
Definition handle_option (o : Options) (r : getopt_result) : outcome Options :=
  match r with
  | opt_missing c => Exited EXIT_MISSING_VALUE (msg_missing_value c)
  | opt_unknown c => Exited EXIT_UNKNOWN_OPTION (msg_unknown_option c)
  | opt c optarg =>
      if Ascii.eqb c "h" then Exited EXIT_NORMAL msg_help
      else if Ascii.eqb c "v" then Done o
      else
        match optarg with
        | None => if Ascii.eqb c "f" || Ascii.eqb c "c" || Ascii.eqb c "n"
                  then Undefined else Aborted assert_badOption
        | Some optarg =>
            if Ascii.eqb c "f" then Done (apply_flags (strtol16 optarg) o)
            else if Ascii.eqb c "c" then
              match optarg with
              | first :: _ =>
                  if Ascii.eqb first SLASH then Done (set_cssRoot (Some optarg) o)
                  else Exited EXIT_ABS_PATH_REQUIRED msg_abs_path_required
              | [] => Exited EXIT_ABS_PATH_REQUIRED msg_abs_path_required
              end
            else if Ascii.eqb c "n" then Done (set_navEmbedCode (Some optarg) o)
            else Aborted assert_badOption
        end
  end.

Fixpoint handle_options (o : Options) (rs : list getopt_result) : outcome Options :=
  match rs with
  | [] => Done o
  | r :: rs' =>
      match handle_option o r with
      | Done o' => handle_options o' rs'
      | stopped => stopped
      end
  end.

Definition is_opt_v (r : getopt_result) : bool :=
  match r with
  | opt c _ => Ascii.eqb c "v"
  | _ => false
  end.

(** The first loop, over optstring "v": it sets [verbose] and leaves argv
    permuted for the second. *)
Definition first_pass (argv : list cstr) : bool * list cstr :=
  let s := getopt_scan (lit "v") (tl argv) in
  (existsb is_opt_v (returned s), permuted s).

(** The second loop, over optstring "hvf:c:n:": the options it leaves set,
    and the elements of argv from optind on. *)
Definition second_pass (o : Options) (args : list cstr) : outcome (Options * list cstr) :=
  let s := getopt_scan (lit "hvf:c:n:") args in
  match handle_options o (returned s) with
  | Done o' => Done (o', non_options s)
  | Exited c d => Exited c d
  | Aborted a => Aborted a
  | Undefined => Undefined
  | Diverges => Diverges
  | OutOfFuel => OutOfFuel
  end.

(** The two loops of getOptions, from the defaults of [g_Options]. *)
Definition parse_options (argv : list cstr) : outcome (Options * list cstr) :=
  let (v, args) := first_pass argv in
  second_pass (if v then set_verbose true g_Options else g_Options) args.

Definition getOptions (argv : list cstr) : outcome Globals :=
  match parse_options argv with
  | Done (o, naked) =>
      match naked with
      | [] => Exited EXIT_NO_MARKDOWN msg_no_markdown
      | [markdown] =>
          Done {| options := o; g_MarkdownFilename := markdown;
                  g_RootFilename := strip_extension markdown |}
      | _ :: _ :: _ => Aborted assert_oneNakedArgument
      end
  | Exited c d => Exited c d
  | Aborted a => Aborted a
  | Undefined => Undefined
  | Diverges => Diverges
  | OutOfFuel => OutOfFuel
  end.

(** The html file that a run of the program leaves. *)
Definition main (W : World) (argv : list cstr) : outcome cstr :=
  match getOptions argv with
  | Done G => makeWebpage W G
  | Exited c d => Exited c d
  | Aborted a => Aborted a
  | Undefined => Undefined
  | Diverges => Diverges
  | OutOfFuel => OutOfFuel
  end.

(** ** webpages.sh *)

Module Script.

(** The shell variables that the script's own options set. *)
Record Vars : Type := {
  navembedcode : cstr;
  markdownroot : cstr;
  htmlroot : cstr;
  css : cstr;
  verbose : cstr;
  flags : cstr
}.

(** Their values before the options are read; the default of [htmlroot] is
    made from the name of the directory the script is started in. *)
Definition defaults (pwd_name : cstr) : Vars :=
  {| navembedcode := [];
     markdownroot := lit ".";
     htmlroot := lit "../" ++ pwd_name ++ lit "_html";
     css := lit "false";
     verbose := lit "false";
     flags := [] |}.

(** The bash builtin [getopts]: like getopt without the permutation, it stops
    at the first argument that is not an option. *)
Fixpoint getopts_scan (optstring : cstr) (args : list cstr) : list getopt_result :=
  match args with
  | [] => []
  | a :: rest =>
      if str_eqb a (lit "--") then []
      else
        match a with
        | dash :: ((_ :: _) as chars) =>
            if Ascii.eqb dash DASH then
              let (rs, waiting) := getopt_cluster optstring chars in
              match waiting with
              | None => rs ++ getopts_scan optstring rest
              | Some c =>
                  match rest with
                  | [] => rs ++ [missing_argument optstring c]
                  | b :: rest' => rs ++ opt c (Some b) :: getopts_scan optstring rest'
                  end
              end
            else []
        | _ => []
        end
  end.

(** The [case] of the getopts loop; [None] when the script leaves with
    "Invalid option". *)
Definition set_var (v : Vars) (r : getopt_result) : option Vars :=
  match r with
  | opt c optarg =>
      let arg := match optarg with Some a => a | None => [] end in
      if Ascii.eqb c "n" then
        Some {| navembedcode := arg; markdownroot := markdownroot v;
                htmlroot := htmlroot v; css := css v; verbose := verbose v;
                flags := flags v |}
      else if Ascii.eqb c "m" then
        Some {| navembedcode := navembedcode v; markdownroot := arg;
                htmlroot := htmlroot v; css := css v; verbose := verbose v;
                flags := flags v |}
      else if Ascii.eqb c "h" then
        Some {| navembedcode := navembedcode v; markdownroot := markdownroot v;
                htmlroot := arg; css := css v; verbose := verbose v;
                flags := flags v |}
      else if Ascii.eqb c "c" then
        Some {| navembedcode := navembedcode v; markdownroot := markdownroot v;
                htmlroot := htmlroot v; css := lit "true"; verbose := verbose v;
                flags := flags v |}
      else if Ascii.eqb c "v" then
        Some {| navembedcode := navembedcode v; markdownroot := markdownroot v;
                htmlroot := htmlroot v; css := css v; verbose := lit "true";
                flags := flags v |}
      else if Ascii.eqb c "F" then
        Some {| navembedcode := navembedcode v; markdownroot := markdownroot v;
                htmlroot := htmlroot v; css := css v; verbose := verbose v;
                flags := arg |}
      else Some v
  | opt_unknown _ => None
  | opt_missing _ => None
  end.

Fixpoint set_vars (v : Vars) (rs : list getopt_result) : option Vars :=
  match rs with
  | [] => Some v
  | r :: rs' =>
      match set_var v r with
      | Some v' => set_vars v' rs'
      | None => None
      end
  end.

Definition read_options (pwd_name : cstr) (args : list cstr) : option Vars :=
  set_vars (defaults pwd_name) (getopts_scan (lit ":cvn:m:h:F:") args).

(** [[[ word ]]]: true when the word is not empty. *)
Definition test_nonempty (word : cstr) : bool := negb (str_eqb word []).

(** [[[ word == text ]]] for a literal text. *)
Definition test_equal (word text : cstr) : bool := str_eqb word text.

Definition verboseOption (v : Vars) : cstr :=
  if test_equal (verbose v) (lit "true") then lit " -v " else [].

Definition navembedcodeOption (v : Vars) : cstr :=
  if negb (test_equal (navembedcode v) []) then lit " -n " ++ navembedcode v ++ lit " "
  else [].

Definition flagsOption (v : Vars) : cstr :=
  if negb (test_equal (flags v) []) then lit " -F " ++ flags v ++ lit " " else [].

(** [if [[ ${css} ]]] *)
Definition cssOption (v : Vars) (abshtmlroot : cstr) : cstr :=
  if test_nonempty (css v) then lit " -c " ++ abshtmlroot ++ lit " " else [].

(** Word splitting of an unquoted expansion at blanks, tabs and newlines (the
    words are taken to hold no pattern character, so that pathname expansion
    leaves them alone). *)
Definition is_ifs (c : ascii) : bool :=
  Ascii.eqb c " " || Ascii.eqb c "009" || Ascii.eqb c LF.

Fixpoint fields_from (word : cstr) (s : cstr) : list cstr :=
  match s with
  | [] => match word with [] => [] | _ => [word] end
  | c :: s' =>
      if is_ifs c then
        match word with
        | [] => fields_from [] s'
        | _ => word :: fields_from [] s'
        end
      else fields_from (word ++ [c]) s'
  end.

Definition fields (s : cstr) : list cstr := fields_from [] s.

(** The argv of the webpage run that [find -execdir] starts for the markdown
    file [name] of some directory; find passes the file as [./name]. *)
Definition webpage_argv (v : Vars) (abshtmlroot name : cstr) : list cstr :=
  lit "webpage"
    :: fields (verboseOption v) ++ fields (flagsOption v)
    ++ fields (cssOption v abshtmlroot) ++ fields (navembedcodeOption v)
    ++ [lit "./" ++ name].

(** *** The link rewrite: sed -i with the script s/\.md\DQ>/\.html\DQ>/g,
    where DQ stands for the double quote character *)

(** The substitution with the [g] flag on one line: every occurrence of the
    five characters [md_link] (.md, a double quote, >), leftmost first and
    without overlap, becomes [html_link]. *)
Fixpoint substitute (line : cstr) : cstr :=
  match line with
  | [] => []
  | c :: rest =>
      match rest with
      | m :: d :: q :: a :: rest' =>
          if Ascii.eqb c DOT && Ascii.eqb m "m" && Ascii.eqb d "d"
             && Ascii.eqb q DQ && Ascii.eqb a ">"
          then lit ".html" ++ DQ :: ">"%char :: substitute rest'
          else c :: substitute rest
      | _ => c :: substitute rest
      end
  end.

(** sed reads its input line by line. *)
Fixpoint split_lines (text : cstr) : list cstr :=
  match text with
  | [] => [[]]
  | c :: text' =>
      if Ascii.eqb c LF then [] :: split_lines text'
      else
        match split_lines text' with
        | line :: lines => (c :: line) :: lines
        | [] => [[c]]
        end
  end.

Fixpoint join_lines (lines : list cstr) : cstr :=
  match lines with
  | [] => []
  | [line] => line
  | line :: lines' => line ++ LF :: join_lines lines'
  end.

Definition sed (text : cstr) : cstr := join_lines (map substitute (split_lines text)).

(** *** The tidy up: [find . -name PATTERN -delete], three times *)

#[local] Unset Elimination Schemes.
Inductive node : Type :=
| File (data : cstr)
| Dir (entries : list (cstr * node)).
#[local] Set Elimination Schemes.

(** [-name "*ext"] looks at the last component of the path only. *)
Definition name_matches (ext name : cstr) : bool := has_suffix ext name.

(** [-delete] unlinks a file, and removes a directory only when it is empty. *)
Definition removable (n : node) : bool :=
  match n with
  | File _ => true
  | Dir [] => true
  | Dir (_ :: _) => false
  end.

(** [-delete] implies [-depth]: a directory is looked at after its entries. *)
Fixpoint find_delete (ext : cstr) (n : node) : node :=
  match n with
  | File data => File data
  | Dir entries =>
      Dir ((fix each (es : list (cstr * node)) : list (cstr * node) :=
              match es with
              | [] => []
              | (name, child) :: es' =>
                  let child' := find_delete ext child in
                  if name_matches ext name && removable child'
                  then each es'
                  else (name, child') :: each es'
              end) entries)
  end.

(** What [find_delete] does to the entries of a directory. *)
Definition prune (ext : cstr) (entries : list (cstr * node)) : list (cstr * node) :=
  (fix each (es : list (cstr * node)) : list (cstr * node) :=
     match es with
     | [] => []
     | (name, child) :: es' =>
         let child' := find_delete ext child in
         if name_matches ext name && removable child'
         then each es'
         else (name, child') :: each es'
     end) entries.

Definition cleanup (htmlroot : node) : node :=
  find_delete (lit ".txt") (find_delete (lit ".backup") (find_delete (lit ".md") htmlroot)).

Fixpoint entry (name : cstr) (es : list (cstr * node)) : option node :=
  match es with
  | [] => None
  | (n, child) :: es' => if str_eqb n name then Some child else entry name es'
  end.

(** The node at a path below a directory. *)
Fixpoint lookup (path : list cstr) (n : node) : option node :=
  match path with
  | [] => Some n
  | name :: path' =>
      match n with
      | Dir es =>
          match entry name es with
          | Some child => lookup path' child
          | None => None
          end
      | File _ => None
      end
  end.

(** [n'] sits at [path] below [n], through any entry of each name. *)
Fixpoint reach (path : list cstr) (n n' : node) : Prop :=
  match path with
  | [] => n = n'
  | name :: path' =>
      match n with
      | Dir es => exists child, In (name, child) es /\ reach path' child n'
      | File _ => False
      end
  end.

(** The five characters that the link rewrite looks for. *)
Definition md_link : cstr := lit ".md" ++ [DQ; ">"%char].
Definition html_link : cstr := lit ".html" ++ [DQ; ">"%char].

Definition deployable_name (name : cstr) : bool :=
  negb (name_matches (lit ".md") name || name_matches (lit ".backup") name
        || name_matches (lit ".txt") name).

(** *** The link rewrite over the tree:
    [find . -name "*.html" -execdir sed -i SCRIPT {} ;] *)

(** [sed -i] on the regular file [name], when find has picked it. *)
Definition rewrite_file (name data : cstr) : cstr :=
  if name_matches (lit ".html") name then sed data else data.

(** Every regular file whose name ends in .html is rewritten in place; on a
    directory of such a name sed fails and leaves it as it is, and find goes
    on into it. *)
Fixpoint rewrite_links (n : node) : node :=
  match n with
  | File data => File data
  | Dir entries =>
      Dir ((fix each (es : list (cstr * node)) : list (cstr * node) :=
              match es with
              | [] => []
              | (name, child) :: es' =>
                  (name, match child with
                         | File data => File (rewrite_file name data)
                         | Dir _ => rewrite_links child
                         end) :: each es'
              end) entries)
  end.

(** What [rewrite_links] does to one entry of a directory, and to all. *)
Definition rewrite_entry (name : cstr) (child : node) : node :=
  match child with
  | File data => File (rewrite_file name data)
  | Dir _ => rewrite_links child
  end.

Definition rewrite_entries (entries : list (cstr * node)) : list (cstr * node) :=
  map (fun e => (fst e, rewrite_entry (fst e) (snd e))) entries.

(** *** Pathname expansion of the words of an unquoted expansion

    After word splitting the shell takes every word with an asterisk, a
    question mark or an opening bracket in it for a pattern, and puts the
    path names that match it in its place; a pattern that matches nothing
    stays as it is (the script sets neither nullglob nor failglob). What
    matches depends on the files there are: [matches pattern] is the sorted
    list of them. *)
Definition is_pattern_character (c : ascii) : bool :=
  Ascii.eqb c "*" || Ascii.eqb c "?" || Ascii.eqb c "[".

Definition is_pattern (word : cstr) : bool := existsb is_pattern_character word.

Definition expand (matches : cstr -> list cstr) (words : list cstr) : list cstr :=
  flat_map (fun word =>
              if is_pattern word then
                match matches word with
                | [] => [word]
                | names => names
                end
              else [word]) words.

End Script.

(** ** Notions used in the statements *)

(** The items of a page that the flags can leave out. *)
Definition title_element (stem : cstr) : cstr :=
  g_TitleOpenTag ++ stem ++ g_TitleCloseTag.
Definition author_comment (user : cstr) : cstr :=
  g_CommentOpenTag ++ lit "Author is " ++ user ++ g_CommentCloseTag.
Definition datetime_comment (s : cstr) : cstr :=
  g_CommentOpenTag ++ lit "Datetime is " ++ s ++ g_CommentCloseTag.
Definition stylesheet_link (href : cstr) : cstr :=
  g_LinkOpenTag ++ (lit " rel=" ++ [DQ] ++ lit "stylesheet" ++ [DQ] ++ lit " href=" ++ [DQ])
    ++ href ++ ([DQ] ++ lit " ") ++ g_LinkCloseTag.
Definition navigation_comment (code : cstr) : cstr :=
  g_CommentOpenTag ++ (lit " NAVIGATION EMBEDDING GOES HERE " ++ [LF]) ++ code
    ++ g_CommentCloseTag.

Definition omit (b : bool) (item : cstr) : cstr := if b then [] else item.

(** [flag & flags] is not zero. *)
Definition flag_set (flag flags : Z) : bool := negb (Z.land flag flags =? 0)%Z.

(** The globals once [-f] with the value [flags] has been handled. *)
Definition with_flags (flags : Z) (G : Globals) : Globals :=
  {| options := apply_flags flags (options G);
     g_MarkdownFilename := g_MarkdownFilename G;
     g_RootFilename := g_RootFilename G |}.

(** A result in front of which [w0] was written before. *)
Definition prepend {A : Type} (w0 : cstr) (r : outcome (A * cstr)) : outcome (A * cstr) :=
  match r with
  | Done (a, w) => Done (a, w0 ++ w)
  | Exited c d => Exited c d
  | Aborted a => Aborted a
  | Undefined => Undefined
  | Diverges => Diverges
  | OutOfFuel => OutOfFuel
  end.

(** A computation that only appends to the page, whatever is in it. *)
Definition uniform {A : Type} (m : io A) : Prop :=
  forall out, m out = prepend out (m []).

Definition obind {A B : Type} (r : outcome A) (k : A -> outcome B) : outcome B :=
  match r with
  | Done a => k a
  | Exited c d => Exited c d
  | Aborted a => Aborted a
  | Undefined => Undefined
  | Diverges => Diverges
  | OutOfFuel => OutOfFuel
  end.

Definition written (r : outcome (unit * cstr)) : outcome cstr :=
  obind r (fun p => Done (snd p)).

Definition author_item (W : World) (o : Options) : outcome cstr :=
  if includeAuthor o then
    match w_user W with
    | Some user => Done (author_comment user)
    | None => Aborted assert_passwd
    end
  else Done [].

Definition datetime_item (W : World) (o : Options) : outcome cstr :=
  if includeDatetime o then
    match w_strftime W with
    | [] => Aborted assert_strftime
    | s => Done (datetime_comment s)
    end
  else Done [].

(** What follows the datetime comment in the head. *)
Definition head_rest (W : World) (o : Options) (stem : cstr) : outcome cstr :=
  written ((match cssRoot o with
            | Some root => includeCSSFile W root
            | None => ret tt
            end ;;
            includeTxtFile W stem ;;
            checked_fwrite g_HeadCloseTag) []).

(** The body as addWebpageBody writes it. *)
Definition body_text (W : World) (o : Options) (markdown : cstr) : outcome cstr :=
  written (addWebpageBody W o markdown []).

(** The page in terms of its items, in the order they are written. *)
Definition page_items (W : World) (G : Globals) : outcome cstr :=
  let o := options G in
  obind (author_item W o) (fun author =>
  obind (datetime_item W o) (fun datetime =>
  obind (head_rest W o (g_RootFilename G)) (fun head =>
  obind (body_text W o (g_MarkdownFilename G)) (fun body =>
  Done (omit (negb (includeDTD o)) g_Doctype ++ g_PageOpenTag ++ g_HeadOpenTag
        ++ omit (negb (includeTitle o)) (title_element (g_RootFilename G))
        ++ author ++ datetime ++ head ++ body ++ g_PageCloseTag))))).

(** The directory [k] levels above the working directory, and the relative
    path that findCssFile has built when it searches it. *)
Definition ancestor (W : World) (k : nat) : dirpath :=
  firstn (length (w_cwd W) - k) (w_cwd W).
Definition ups (k : nat) : cstr := concat (repeat (lit "../") k).
Definition searchDir_at (k : nat) : cstr := lit "./" ++ ups k.

(** An element of argv that getopt takes for options: it starts with a dash
    and has more than the dash ([argv[optind][0] == '-'] and
    [argv[optind][1] != 0]). *)
Definition option_like (a : cstr) : bool :=
  match a with
  | dash :: _ :: _ => Ascii.eqb dash DASH
  | _ => false
  end.


(** A word of the shell: not empty, without blank, tab or newline. *)
Definition one_word (s : cstr) : bool :=
  negb (str_eqb s []) && forallb (fun c => negb (Script.is_ifs c)) s.

(** What the option loops of getOptions can end with. *)
Definition options_outcome {A : Type} (r : outcome A) : Prop :=
  (exists a, r = Done a)
  \/ r = Exited EXIT_NORMAL msg_help
  \/ (exists c, r = Exited EXIT_UNKNOWN_OPTION (msg_unknown_option c))
  \/ r = Exited EXIT_ABS_PATH_REQUIRED msg_abs_path_required.

(** The directories from [i] to just below [k] levels above the working
    directory can be read, have no entry with [.css] in its name, and are
    neither the filesystem root nor [root]. *)
Definition passed (W : World) (root : cstr) (i k : nat) : Prop :=
  forall j, i <= j < k ->
    (exists entries,
        w_readdir W (ancestor W j) = Some entries /\ find is_css_name entries = None)
    /\ render (ancestor W j) <> lit "/"
    /\ render (ancestor W j) <> root.

(** The turn of the loop of findCssFile that ends the search, [i] levels up,
    with a path or with an exit. *)
Inductive turn (W : World) (root : cstr) (i : nat) : outcome (option cstr) -> Prop :=
| turn_found entries name :
    w_readdir W (ancestor W i) = Some entries ->
    find is_css_name entries = Some name ->
    length (searchDir_at i ++ name) <= SEARCH_DIR_SIZE ->
    turn W root i (Done (Some (searchDir_at i ++ name)))
| turn_none entries :
    w_readdir W (ancestor W i) = Some entries ->
    find is_css_name entries = None ->
    render (ancestor W i) <> lit "/" ->
    render (ancestor W i) = root ->
    turn W root i (Done None)
| turn_exit entries :
    w_readdir W (ancestor W i) = Some entries ->
    find is_css_name entries = None ->
    render (ancestor W i) = lit "/" ->
    turn W root i (Exited EXIT_INVOKED_OUTSIDE_HTML_ROOT msg_outside_root).

(** ** Example environments *)

Fixpoint dir_eqb (a b : dirpath) : bool :=
  match a, b with
  | [], [] => true
  | x :: a', y :: b' => str_eqb x y && dir_eqb a' b'
  | _, _ => false
  end.

Fixpoint listing (table : list (dirpath * list cstr)) (d : dirpath) : option (list cstr) :=
  match table with
  | [] => None
  | (d', entries) :: table' => if dir_eqb d' d then Some entries else listing table' d
  end.

Fixpoint files (table : list (cstr * file)) (name : cstr) : option file :=
  match table with
  | [] => None
  | (name', f) :: table' => if str_eqb name' name then Some f else files table' name
  end.

(** A run by the user mark, with a renderer that wraps its input in one
    paragraph. *)
Definition world (cwd : dirpath) (dirs : list (dirpath * list cstr))
    (fs : list (cstr * file)) : World :=
  {| w_cwd := cwd;
     w_readdir := listing dirs;
     w_fopen_r := files fs;
     w_fopen_w := fun _ => true;
     w_user := Some (lit "mark");
     w_strftime := lit "Mon Nov  2 12:00:00 2026";
     w_cmark := fun md => Some (lit "<p>" ++ md ++ lit "</p>" ++ [LF]);
     w_malloc := fun _ => Some [] |}.

Definition index_md : cstr * file :=
  (lit "./index.md", {| f_data := lit "Home"; f_blksize := 4096 |}).

(** /srv/site/docs below the root /srv, with a stylesheet and the backup of
    one in /srv/site. *)
Definition docs_world (site_entries : list cstr) : World :=
  world [lit "srv"; lit "site"; lit "docs"]
    [([lit "srv"; lit "site"; lit "docs"], [lit "."; lit ".."; lit "index.md"]);
     ([lit "srv"; lit "site"], lit "." :: lit ".." :: lit "docs" :: site_entries);
     ([lit "srv"], [lit "."; lit ".."; lit "site"]);
     ([], [lit "."; lit ".."; lit "srv"])]
    [index_md].

(** /site, searched up to the filesystem root. *)
Definition rootfs_world : World :=
  world [lit "site"]
    [([lit "site"], [lit "."; lit ".."; lit "index.md"]);
     ([], [lit "."; lit ".."; lit "site"])]
    [index_md].

(** The html root /srv/site_html of a build, with index.md and a stylesheet
    in it, and maybe a sidecar file for the page. *)
Definition html_root_world (sidecar : list (cstr * file)) : World :=
  world [lit "srv"; lit "site_html"]
    [([lit "srv"; lit "site_html"],
      [lit "."; lit ".."; lit "index.md"; lit "style.css"]
        ++ map (fun f => skipn 2 (fst f)) sidecar);
     ([lit "srv"], [lit "."; lit ".."; lit "site_html"]);
     ([], [lit "."; lit ".."; lit "srv"])]
    (index_md :: sidecar).

Definition index_globals (o : Options) : Globals :=
  {| options := o; g_MarkdownFilename := lit "./index.md";
     g_RootFilename := lit "./index" |}.

(** A sidecar file of exactly one block. *)
Definition one_block_sidecar : cstr * file :=
  (lit "./index.txt", {| f_data := repeat "x"%char 4096; f_blksize := 4096 |}).

(** A sidecar file of a few bytes. *)
Definition meta_sidecar : cstr * file :=
  (lit "./index.txt", {| f_data := lit "<meta>" ++ [LF]; f_blksize := 4096 |}).

(** A tree to tidy up. *)
Definition example_tree : Script.node :=
  Script.Dir
    [(lit "index.md", Script.File (lit "Home"));
     (lit "index.html", Script.File (lit "<html>"));
     (lit "index.txt", Script.File (lit "<meta>"));
     (lit "notes.md", Script.Dir [(lit "pic.png", Script.File (lit "PNG"))]);
     (lit "img",
      Script.Dir [(lit "logo.png", Script.File (lit "PNG"));
                  (lit "logo.png.backup", Script.File (lit "PNG"))])].

(** * Properties *)

(** ** Strings *)

Lemma str_eqb_eq (a b : cstr) : str_eqb a b = true <-> a = b.
Proof.
  revert b; induction a as [|x a IH]; intros [|y b]; simpl; split; intro H;
    try reflexivity; try discriminate.
  - apply andb_true_iff in H as [Hx Ha]. apply Ascii.eqb_eq in Hx.
    apply IH in Ha. now subst.
  - injection H as -> ->. rewrite Ascii.eqb_refl. now apply IH.
Qed.

Lemma str_eqb_refl (a : cstr) : str_eqb a a = true.
Proof. now apply str_eqb_eq. Qed.

Lemma str_eqb_neq (a b : cstr) : str_eqb a b = false <-> a <> b.
Proof.
  split.
  - intros H ->. rewrite str_eqb_refl in H. discriminate.
  - intro H. destruct (str_eqb a b) eqn:E; [|reflexivity].
    apply str_eqb_eq in E. contradiction.
Qed.

Lemma has_prefix_app (p s : cstr) : has_prefix p (p ++ s) = true.
Proof. induction p as [|x p IH]; simpl; [reflexivity|]. now rewrite Ascii.eqb_refl. Qed.

Lemma has_prefix_true (p s : cstr) :
  has_prefix p s = true -> exists r, s = p ++ r.
Proof.
  revert s; induction p as [|x p IH]; intros s H; simpl in *.
  - now exists s.
  - destruct s as [|y s]; [discriminate|].
    apply andb_true_iff in H as [Hx Hp]. apply Ascii.eqb_eq in Hx as ->.
    destruct (IH _ Hp) as [r ->]. now exists r.
Qed.

Lemma strstr_cons (c : ascii) (hay needle : cstr) :
  strstr (c :: hay) needle = has_prefix needle (c :: hay) || strstr hay needle.
Proof. reflexivity. Qed.

(** ** The link rewrite *)

Section LinkRewrite.

Import Script.

Lemma substitute_match (rest : cstr) :
  substitute (md_link ++ rest) = html_link ++ substitute rest.
Proof. reflexivity. Qed.

Lemma substitute_skip (c : ascii) (rest : cstr) :
  has_prefix md_link (c :: rest) = false ->
  substitute (c :: rest) = c :: substitute rest.
Proof.
  intro H.
  destruct rest as [|m [|d [|q [|a rest']]]]; try reflexivity.
  cbn [substitute].
  change (has_prefix md_link (c :: m :: d :: q :: a :: rest'))
    with (Ascii.eqb "." c && (Ascii.eqb "m" m && (Ascii.eqb "d" d
            && (Ascii.eqb DQ q && (Ascii.eqb ">" a && true))))) in H.
  rewrite (Ascii.eqb_sym c), (Ascii.eqb_sym m), (Ascii.eqb_sym d),
    (Ascii.eqb_sym q), (Ascii.eqb_sym a).
  unfold DOT.
  destruct (Ascii.eqb "." c), (Ascii.eqb "m" m), (Ascii.eqb "d" d),
    (Ascii.eqb DQ q), (Ascii.eqb ">" a); simpl in *; try reflexivity; discriminate.
Qed.

(** The three shapes of a line, as [substitute] reads it. *)
Lemma line_cases (s : cstr) :
  s = [] \/ (exists rest, s = md_link ++ rest)
  \/ (exists c rest, s = c :: rest /\ has_prefix md_link s = false).
Proof.
  destruct s as [|c rest]; [now left|right].
  destruct (has_prefix md_link (c :: rest)) eqn:E.
  - left. now apply has_prefix_true.
  - right. now exists c, rest.
Qed.

(** Induction along the way [substitute] walks through a line. *)
Lemma substitute_ind (P : cstr -> Prop) :
  P [] ->
  (forall rest, P rest -> P (md_link ++ rest)) ->
  (forall c rest, has_prefix md_link (c :: rest) = false -> P rest -> P (c :: rest)) ->
  forall s, P s.
Proof.
  intros Hnil Hmatch Hskip s.
  remember (length s) as n eqn:Hn.
  revert s Hn. induction n as [n IH] using lt_wf_ind. intros s Hn.
  destruct (line_cases s) as [-> | [[rest ->] | (c & rest & -> & Hc)]].
  - exact Hnil.
  - apply Hmatch. apply (IH (length rest)); [|reflexivity].
    subst n. rewrite length_app. simpl. lia.
  - apply Hskip; [exact Hc|]. apply (IH (length rest)); [|reflexivity].
    subst n. simpl. lia.
Qed.

(** A prefix without a dot in front of a rewritten line was in front of the
    line before. *)
Lemma has_prefix_substitute (q s : cstr) :
  Forall (fun x => x <> DOT) q ->
  has_prefix q (substitute s) = true -> has_prefix q s = true.
Proof.
  intro Hq. revert s. induction Hq as [|x q Hx Hq IH]; intros s H; [reflexivity|].
  destruct (line_cases s) as [-> | [[rest ->] | (c & rest & -> & Hc)]].
  - discriminate.
  - rewrite substitute_match in H. simpl in H.
    apply andb_true_iff in H as [H _]. apply Ascii.eqb_eq in H. contradiction.
  - rewrite (substitute_skip _ _ Hc) in H. simpl in *.
    apply andb_true_iff in H as [H1 H2]. rewrite H1. simpl. now apply IH.
Qed.

Lemma substitute_keeps_no_match (c : ascii) (rest : cstr) :
  has_prefix md_link (c :: rest) = false ->
  has_prefix md_link (c :: substitute rest) = false.
Proof.
  intro H. destruct (has_prefix md_link (c :: substitute rest)) eqn:E; [|reflexivity].
  rewrite <- H. symmetry.
  change md_link with ("."%char :: lit "md" ++ [DQ; ">"%char]) in *.
  simpl in E |- *. apply andb_true_iff in E as [E1 E2]. rewrite E1. simpl.
  apply (has_prefix_substitute ["m"; "d"; DQ; ">"]%char); [|exact E2].
  repeat constructor; discriminate.
Qed.

(** No [md_link] is left in a rewritten line. *)
Lemma substitute_no_md_link (s : cstr) : strstr (substitute s) md_link = false.
Proof.
  induction s as [| rest IH | c rest Hc IH] using substitute_ind.
  - reflexivity.
  - rewrite substitute_match.
    change (html_link ++ substitute rest)
      with ("."%char :: "h"%char :: "t"%char :: "m"%char :: "l"%char :: DQ
              :: ">"%char :: substitute rest).
    rewrite !strstr_cons, IH. reflexivity.
  - rewrite (substitute_skip _ _ Hc), strstr_cons, IH.
    now rewrite (substitute_keeps_no_match _ _ Hc).
Qed.

(** A line without [md_link] is left as it is. *)
Lemma substitute_fixed (s : cstr) : strstr s md_link = false -> substitute s = s.
Proof.
  induction s as [| rest IH | c rest Hc IH] using substitute_ind; intro H.
  - reflexivity.
  - destruct (md_link ++ rest) as [|x t] eqn:E; [discriminate E|].
    rewrite strstr_cons, <- E, has_prefix_app in H. discriminate.
  - rewrite strstr_cons in H. apply orb_false_iff in H as [_ H].
    rewrite (substitute_skip _ _ Hc). f_equal. now apply IH.
Qed.

Lemma has_prefix_before_LF (q l1 l2 : cstr) :
  Forall (fun x => x <> LF) q ->
  has_prefix q (l1 ++ LF :: l2) = true -> has_prefix q l1 = true.
Proof.
  intro Hq. revert l1. induction Hq as [|x q Hx Hq IH]; intros l1 H; [reflexivity|].
  destruct l1 as [|y l1]; simpl in *.
  - apply andb_true_iff in H as [H _]. apply Ascii.eqb_eq in H. contradiction.
  - apply andb_true_iff in H as [H1 H2]. rewrite H1. simpl. now apply IH.
Qed.

Lemma md_link_has_no_LF : Forall (fun x => x <> LF) md_link.
Proof. repeat constructor; discriminate. Qed.

(** The substitution never reaches across the end of a line. *)
Lemma substitute_app_LF (l1 l2 : cstr) :
  substitute (l1 ++ LF :: l2) = substitute l1 ++ LF :: substitute l2.
Proof.
  induction l1 as [| rest IH | c rest Hc IH] using substitute_ind.
  - apply substitute_skip. reflexivity.
  - rewrite <- app_assoc, !substitute_match, IH. now rewrite <- app_assoc.
  - rewrite (substitute_skip _ _ Hc). simpl. rewrite <- IH.
    apply substitute_skip.
    destruct (has_prefix md_link (c :: rest ++ LF :: l2)) eqn:E; [|reflexivity].
    rewrite <- Hc. symmetry.
    apply (has_prefix_before_LF md_link (c :: rest) l2 md_link_has_no_LF E).
Qed.

Lemma split_lines_nonempty (text : cstr) : split_lines text <> [].
Proof.
  destruct text as [|c text]; simpl; [discriminate|].
  destruct (Ascii.eqb c LF); [discriminate|].
  destruct (split_lines text); discriminate.
Qed.

Lemma join_lines_cons (line : cstr) (lines : list cstr) :
  lines <> [] -> join_lines (line :: lines) = line ++ LF :: join_lines lines.
Proof. destruct lines; [contradiction|reflexivity]. Qed.

Lemma join_split (text : cstr) : join_lines (split_lines text) = text.
Proof.
  induction text as [|c text IH]; [reflexivity|]. simpl.
  destruct (Ascii.eqb c LF) eqn:E.
  - apply Ascii.eqb_eq in E as ->.
    rewrite join_lines_cons by apply split_lines_nonempty. now rewrite IH.
  - destruct (split_lines text) as [|line lines] eqn:S.
    + now apply split_lines_nonempty in S.
    + rewrite <- IH. destruct lines; reflexivity.
Qed.

Lemma substitute_join (lines : list cstr) :
  substitute (join_lines lines) = join_lines (map substitute lines).
Proof.
  induction lines as [|line lines IH]; [reflexivity|].
  destruct lines as [|line' lines]; [reflexivity|].
  rewrite join_lines_cons by discriminate.
  rewrite substitute_app_LF, IH. reflexivity.
Qed.

(** Line by line or over the whole text, the rewrite is the same. *)
Lemma sed_substitute (text : cstr) : sed text = substitute text.
Proof.
  unfold sed. rewrite <- substitute_join. now rewrite join_split.
Qed.

End LinkRewrite.

(** C6: the link rewrite is idempotent: a second pass over a rewritten text
    changes nothing, since the first pass has left no [md_link] in it. *)
Theorem link_rewrite_idempotent (text : cstr) :
  Script.sed (Script.sed text) = Script.sed text
  /\ strstr (Script.sed text) Script.md_link = false.
Proof.
  rewrite !sed_substitute. split.
  - apply substitute_fixed, substitute_no_md_link.
  - apply substitute_no_md_link.
Qed.

(** ** Writing the page *)

Lemma prepend_nil {A : Type} (r : outcome (A * cstr)) : prepend [] r = r.
Proof. destruct r as [[a w]| | | | |]; reflexivity. Qed.

Lemma prepend_app {A : Type} (w1 w2 : cstr) (r : outcome (A * cstr)) :
  prepend (w1 ++ w2) r = prepend w1 (prepend w2 r).
Proof. destruct r as [[a w]| | | | |]; simpl; try reflexivity. now rewrite app_assoc. Qed.

Lemma uniform_ret {A : Type} (a : A) : uniform (ret a).
Proof. intro out. simpl. now rewrite app_nil_r. Qed.

Lemma uniform_fwrite (bytes : cstr) : uniform (fwrite bytes).
Proof. intro out. reflexivity. Qed.

Lemma uniform_lift {A : Type} (r : outcome A) : uniform (lift r).
Proof. intro out. destruct r; simpl; try reflexivity. now rewrite app_nil_r. Qed.

Lemma uniform_bind {A B : Type} (m : io A) (k : A -> io B) :
  uniform m -> (forall a, uniform (k a)) -> uniform (bind m k).
Proof.
  intros Hm Hk out. unfold bind. rewrite (Hm out).
  destruct (m []) as [[a w]| | | | |]; simpl; try reflexivity.
  rewrite (Hk a (out ++ w)), (Hk a w). apply prepend_app.
Qed.

Lemma uniform_when (b : bool) (m : io unit) : uniform m -> uniform (when b m).
Proof. destruct b; simpl; [trivial|intros _; apply uniform_ret]. Qed.


Ltac uniform_step :=
  first [ apply uniform_bind; [|intro] | apply uniform_ret | apply uniform_fwrite
        | apply uniform_lift | apply uniform_when ].

Lemma uniform_copyFile_loop (fuel : nat) (st_size st_blksize : Z)
    (input readBuffer : cstr) (bytesRead written : Z) :
  uniform (copyFile_loop fuel st_size st_blksize input readBuffer bytesRead written).
Proof.
  revert input readBuffer bytesRead written.
  induction fuel as [|fuel IH]; intros; [intro out; reflexivity|].
  cbn [copyFile_loop]. unfold fread.
  destruct (_ >=? _)%Z; [destruct (_ <? _)%Z|].
  - apply uniform_bind; [apply uniform_fwrite|intros _].
    destruct input; [intro out; reflexivity|apply IH].
  - destruct (_ <? 0)%Z; [apply uniform_lift|].
    apply uniform_bind; [apply uniform_fwrite|intros _].
    destruct (_ =? _)%Z; [apply uniform_ret|apply uniform_lift].
  - destruct (_ =? _)%Z; [apply uniform_ret|apply uniform_lift].
Qed.

Lemma uniform_copyFile (W : World) (input : file) : uniform (copyFile W input).
Proof.
  unfold copyFile. destruct (_ <=? 0)%Z; [apply uniform_lift|].
  destruct (w_malloc W _); [apply uniform_copyFile_loop|apply uniform_lift].
Qed.

Lemma uniform_includeTxtFile (W : World) (stem : cstr) : uniform (includeTxtFile W stem).
Proof.
  unfold includeTxtFile. destruct (w_fopen_r W _); [apply uniform_copyFile|apply uniform_ret].
Qed.

Lemma uniform_includeCSSFile (W : World) (root : cstr) : uniform (includeCSSFile W root).
Proof.
  unfold includeCSSFile. apply uniform_bind; [apply uniform_lift|intros [href|]].
  - repeat uniform_step.
  - apply uniform_lift.
Qed.

Lemma uniform_addWebpageBody (W : World) (o : Options) (markdown : cstr) :
  uniform (addWebpageBody W o markdown).
Proof.
  unfold addWebpageBody. destruct (w_fopen_r W markdown); [|apply uniform_lift].
  apply uniform_bind; [apply uniform_fwrite|intros _].
  destruct (w_cmark W _); [|apply uniform_lift].
  apply uniform_bind; [apply uniform_fwrite|intros _].
  apply uniform_bind; [|intros _; apply uniform_fwrite].
  destruct (navEmbedCode o); [repeat uniform_step|apply uniform_ret].
Qed.


Lemma bind_fwrite {B : Type} (s : cstr) (k : unit -> io B) (out : cstr) :
  bind (checked_fwrite s) k out = k tt (out ++ s).
Proof. reflexivity. Qed.

Lemma bind_ret {A B : Type} (a : A) (k : A -> io B) (out : cstr) :
  bind (ret a) k out = k a out.
Proof. reflexivity. Qed.

Lemma bind_bind {A B C : Type} (m : io A) (k : A -> io B) (h : B -> io C) (out : cstr) :
  bind (bind m k) h out = bind m (fun a => bind (k a) h) out.
Proof. unfold bind. destruct (m out) as [[a w]| | | | |]; reflexivity. Qed.

(** What a computation that only appends does in front of another. *)
Lemma bind_uniform {B : Type} (m : io unit) (k : unit -> io B) (out : cstr) :
  uniform m ->
  bind m k out =
  match m [] with
  | Done (_, w) => k tt (out ++ w)
  | Exited c d => Exited c d
  | Aborted a => Aborted a
  | Undefined => Undefined
  | Diverges => Diverges
  | OutOfFuel => OutOfFuel
  end.
Proof.
  intro Hm. unfold bind. rewrite (Hm out).
  destruct (m []) as [[[] w]| | | | |]; reflexivity.
Qed.

Ltac push_writes :=
  repeat (first [rewrite bind_bind | rewrite bind_fwrite | rewrite bind_ret]; cbv beta).

Lemma head_rest_eq (W : World) (o : Options) (stem : cstr) :
  head_rest W o stem =
  obind (match cssRoot o with
         | Some root => written (includeCSSFile W root [])
         | None => Done []
         end) (fun link =>
  obind (written (includeTxtFile W stem [])) (fun txt =>
  Done (link ++ txt ++ g_HeadCloseTag))).
Proof.
  unfold head_rest.
  destruct (cssRoot o) as [root|].
  - rewrite (bind_uniform _ _ _ (uniform_includeCSSFile W root)).
    destruct (includeCSSFile W root []) as [[[] w]| | | | |]; try reflexivity.
    rewrite (bind_uniform _ _ _ (uniform_includeTxtFile W stem)).
    cbn [written obind snd].
    destruct (includeTxtFile W stem []) as [[[] w']| | | | |]; try reflexivity.
    cbn. now rewrite <- app_assoc.
  - rewrite bind_ret.
    rewrite (bind_uniform _ _ _ (uniform_includeTxtFile W stem)).
    cbn [written obind snd].
    destruct (includeTxtFile W stem []) as [[[] w']| | | | |]; reflexivity.
Qed.

Lemma makeWebpage_items (W : World) (G : Globals) :
  makeWebpage W G =
  if w_fopen_w W (g_WebpageFilename G) then page_items W G
  else Aborted assert_webpageFile.
Proof.
  unfold makeWebpage, makeWebpageFile, page_items.
  destruct (w_fopen_w W _); [|reflexivity].
  unfold addWebpageHead, author_item, datetime_item, getUserName.
  destruct G as [o md stem]; cbn [options g_RootFilename g_MarkdownFilename].
  rewrite head_rest_eq. unfold body_text.
  destruct (includeDTD o), (includeTitle o), (includeAuthor o), (includeDatetime o).
  all: destruct (w_user W) as [user|].
  all: destruct (w_strftime W) as [|t0 t] eqn:Et.
  all: cbn [when negb omit obind]; push_writes; try reflexivity.
  all: destruct (cssRoot o) as [root|].
  all: try (rewrite (bind_uniform _ _ _ (uniform_includeCSSFile W root));
            destruct (includeCSSFile W root []) as [[[] w]| | | | |]; try reflexivity).
  all: push_writes.
  all: rewrite (bind_uniform _ _ _ (uniform_includeTxtFile W stem));
       destruct (includeTxtFile W stem []) as [[[] w']| | | | |]; try reflexivity.
  all: push_writes.
  all: rewrite (bind_uniform _ _ _ (uniform_addWebpageBody W o md));
       destruct (addWebpageBody W o md []) as [[[] w'']| | | | |]; try reflexivity.
  all: cbn [written obind snd fwrite checked_fwrite].
  all: unfold title_element, author_comment, datetime_comment.
  all: rewrite <- ?app_assoc; try reflexivity.
Qed.

Lemma body_text_eq (W : World) (o : Options) (markdown : cstr) :
  body_text W o markdown =
  match w_fopen_r W markdown with
  | None => Aborted assert_mdFile
  | Some mdFile =>
      match w_cmark W (f_data mdFile) with
      | None => Aborted assert_render
      | Some html =>
          Done (g_BodyOpenTag ++ html
                ++ match navEmbedCode o with
                   | Some code => navigation_comment code
                   | None => []
                   end ++ g_BodyCloseTag)
      end
  end.
Proof.
  unfold body_text, addWebpageBody.
  destruct (w_fopen_r W markdown) as [mdFile|]; [|reflexivity].
  push_writes. destruct (w_cmark W _) as [html|]; [|reflexivity].
  push_writes. destruct (navEmbedCode o) as [code|]; push_writes.
  - cbn [written obind snd fwrite checked_fwrite app]. unfold navigation_comment.
    now rewrite <- ?app_assoc.
  - cbn [written obind snd fwrite checked_fwrite app]. now rewrite <- ?app_assoc.
Qed.

Lemma Done_inj {A : Type} (a b : A) : Done a = Done b -> a = b.
Proof. now intros [= ->]. Qed.

(** What a generated page is made of. *)
Lemma makeWebpage_done (W : World) (G : Globals) (page : cstr) :
  makeWebpage W G = Done page ->
  exists author datetime head body,
    author_item W (options G) = Done author
    /\ datetime_item W (options G) = Done datetime
    /\ head_rest W (options G) (g_RootFilename G) = Done head
    /\ body_text W (options G) (g_MarkdownFilename G) = Done body
    /\ page = omit (negb (includeDTD (options G))) g_Doctype ++ g_PageOpenTag
             ++ g_HeadOpenTag
             ++ omit (negb (includeTitle (options G))) (title_element (g_RootFilename G))
             ++ author ++ datetime ++ head ++ body ++ g_PageCloseTag.
Proof.
  rewrite makeWebpage_items. destruct (w_fopen_w W _); [|discriminate].
  unfold page_items.
  destruct (author_item W _) as [author| | | | |]; try discriminate.
  destruct (datetime_item W _) as [datetime| | | | |]; try discriminate.
  destruct (head_rest W _ _) as [head| | | | |]; try discriminate.
  destruct (body_text W _ _) as [body| | | | |]; try discriminate.
  cbn [obind]. intro H. apply Done_inj in H. subst page.
  now exists author, datetime, head, body.
Qed.

(** C8: when a navigation embedding is given, the body of every generated
    page ends with it, put verbatim in an HTML comment just in front of the
    closing body tag. *)
Theorem navigation_embedding_closes_body (W : World) (G : Globals) (code page : cstr) :
  navEmbedCode (options G) = Some code ->
  makeWebpage W G = Done page ->
  exists front mdFile html,
    w_fopen_r W (g_MarkdownFilename G) = Some mdFile
    /\ w_cmark W (f_data mdFile) = Some html
    /\ page = front ++ g_BodyOpenTag ++ html
             ++ (g_CommentOpenTag ++ (lit " NAVIGATION EMBEDDING GOES HERE " ++ [LF])
                 ++ code ++ g_CommentCloseTag)
             ++ g_BodyCloseTag ++ g_PageCloseTag.
Proof.
  intros Hnav H.
  destruct (makeWebpage_done _ _ _ H) as (author & datetime & head & body & _ & _ & _ & Hb & ->).
  rewrite body_text_eq, Hnav in Hb.
  destruct (w_fopen_r W _) as [mdFile|]; [|discriminate].
  destruct (w_cmark W _) as [html|] eqn:Hhtml; [|discriminate].
  apply Done_inj in Hb. subst body.
  exists (omit (negb (includeDTD (options G))) g_Doctype ++ g_PageOpenTag ++ g_HeadOpenTag
          ++ omit (negb (includeTitle (options G))) (title_element (g_RootFilename G))
          ++ author ++ datetime ++ head), mdFile, html.
  split; [reflexivity|]. split; [exact Hhtml|].
  unfold navigation_comment. now rewrite <- ?app_assoc.
Qed.

(** ** The flags *)

Lemma flag_set_testbit (k flags : Z) :
  (0 <= k)%Z -> flag_set (2 ^ k) flags = Z.testbit flags k.
Proof.
  intro Hk. unfold flag_set.
  destruct (Z.testbit flags k) eqn:E.
  - apply negb_true_iff, Z.eqb_neq. intro H0.
    assert (Hb : Z.testbit (Z.land (2 ^ k) flags) k = true).
    { rewrite Z.land_spec, Z.pow2_bits_eqb, Z.eqb_refl, E by assumption. reflexivity. }
    rewrite H0, Z.bits_0 in Hb. discriminate.
  - apply negb_false_iff, Z.eqb_eq. apply Z.bits_inj'. intros n Hn.
    rewrite Z.land_spec, Z.bits_0, Z.pow2_bits_eqb by assumption.
    destruct (Z.eqb_spec k n) as [->|]; [now rewrite E|reflexivity].
Qed.

Lemma includeDTD_apply_flags (flags : Z) (o : Options) :
  includeDTD (apply_flags flags o) = includeDTD o && negb (Z.testbit flags 0).
Proof.
  rewrite <- (flag_set_testbit 0) by lia. unfold apply_flags, flag_set. change (2 ^ 0)%Z with flag_dtd.
  destruct (Z.land flag_dtd flags =? 0)%Z, (Z.land flag_title flags =? 0)%Z,
    (Z.land flag_author flags =? 0)%Z, (Z.land flag_datetime flags =? 0)%Z;
    cbn; rewrite ?andb_true_r, ?andb_false_r; reflexivity.
Qed.

Lemma includeTitle_apply_flags (flags : Z) (o : Options) :
  includeTitle (apply_flags flags o) = includeTitle o && negb (Z.testbit flags 1).
Proof.
  rewrite <- (flag_set_testbit 1) by lia. unfold apply_flags, flag_set. change (2 ^ 1)%Z with flag_title.
  destruct (Z.land flag_dtd flags =? 0)%Z, (Z.land flag_title flags =? 0)%Z,
    (Z.land flag_author flags =? 0)%Z, (Z.land flag_datetime flags =? 0)%Z;
    cbn; rewrite ?andb_true_r, ?andb_false_r; reflexivity.
Qed.

Lemma includeDatetime_apply_flags (flags : Z) (o : Options) :
  includeDatetime (apply_flags flags o) = includeDatetime o && negb (Z.testbit flags 2).
Proof.
  rewrite <- (flag_set_testbit 2) by lia. unfold apply_flags, flag_set. change (2 ^ 2)%Z with flag_datetime.
  destruct (Z.land flag_dtd flags =? 0)%Z, (Z.land flag_title flags =? 0)%Z,
    (Z.land flag_author flags =? 0)%Z, (Z.land flag_datetime flags =? 0)%Z;
    cbn; rewrite ?andb_true_r, ?andb_false_r; reflexivity.
Qed.

Lemma includeAuthor_apply_flags (flags : Z) (o : Options) :
  includeAuthor (apply_flags flags o) = includeAuthor o && negb (Z.testbit flags 3).
Proof.
  rewrite <- (flag_set_testbit 3) by lia. unfold apply_flags, flag_set. change (2 ^ 3)%Z with flag_author.
  destruct (Z.land flag_dtd flags =? 0)%Z, (Z.land flag_title flags =? 0)%Z,
    (Z.land flag_author flags =? 0)%Z, (Z.land flag_datetime flags =? 0)%Z;
    cbn; rewrite ?andb_true_r, ?andb_false_r; reflexivity.
Qed.

Lemma apply_flags_others (flags : Z) (o : Options) :
  cssRoot (apply_flags flags o) = cssRoot o
  /\ navEmbedCode (apply_flags flags o) = navEmbedCode o
  /\ verbose (apply_flags flags o) = verbose o.
Proof.
  unfold apply_flags.
  destruct (Z.land flag_dtd flags =? 0)%Z, (Z.land flag_title flags =? 0)%Z,
    (Z.land flag_author flags =? 0)%Z, (Z.land flag_datetime flags =? 0)%Z;
    cbn; repeat split.
Qed.


(** ** Options *)

Lemma no_conversion_gives_zero (nptr : cstr) :
  strtol16_converts nptr = false -> strtol16 nptr = 0%Z.
Proof.
  unfold strtol16_converts, strtol16.
  destruct (take_sign (skip_space nptr)) as [negative s]. cbn [snd].
  intro H.
  assert (Hv : digits_value 0 (skip_0x s) = 0%Z).
  { destruct s as [|c s]; [reflexivity|].
    destruct (hex_digit c) eqn:Ec; [discriminate|].
    assert (Hs : skip_0x (c :: s) = c :: s).
    { destruct s as [|x s]; [reflexivity|]. cbn [skip_0x].
      destruct (Ascii.eqb c "0") eqn:E0; [|reflexivity].
      apply Ascii.eqb_eq in E0. subst c. discriminate. }
    rewrite Hs. cbn [digits_value]. now rewrite Ec. }
  rewrite Hv. destruct negative; reflexivity.
Qed.

(** Under the optstring of the first loop no option waits for an argument. *)
Lemma cluster_v_waits_for_nothing (chars : cstr) :
  snd (getopt_cluster (lit "v") chars) = None.
Proof.
  induction chars as [|c chars IH]; [reflexivity|].
  cbn [getopt_cluster]. destruct (getopt_cluster (lit "v") chars) as [rs w].
  cbn [snd] in IH. subst w. unfold option_kind.
  destruct (Ascii.eqb c ":" || Ascii.eqb c ";"); [reflexivity|].
  cbn [lit list_ascii_of_string optstring_lookup].
  destruct (Ascii.eqb "v" c); reflexivity.
Qed.

(** One step of the scan, with the scan of the rest kept folded. *)
Lemma getopt_scan_cons (optstring a : cstr) (rest : list cstr) :
  getopt_scan optstring (a :: rest) =
  if str_eqb a (lit "--")
  then {| returned := []; option_elements := [a]; non_options := rest |}
  else
    let s := getopt_scan optstring rest in
    let non_option :=
      {| returned := returned s; option_elements := option_elements s;
         non_options := a :: non_options s |} in
    match a with
    | dash :: ((_ :: _) as chars) =>
        if Ascii.eqb dash DASH then
          let (rs, waiting) := getopt_cluster optstring chars in
          match waiting with
          | None => more rs [a] s
          | Some c =>
              match rest with
              | [] => more (rs ++ [missing_argument optstring c]) [a]
                        {| returned := []; option_elements := []; non_options := [] |}
              | b :: rest' =>
                  more (rs ++ [opt c (Some b)]) [a; b] (getopt_scan optstring rest')
              end
          end
        else non_option
    | _ => non_option
    end.
Proof. destruct a as [|c [|c' a]]; reflexivity. Qed.

(** An element of argv that does not start with a dash is not an option. *)
Lemma getopt_scan_non_option (optstring a : cstr) (rest : list cstr) :
  has_prefix (lit "-") a = false ->
  getopt_scan optstring (a :: rest) =
  {| returned := returned (getopt_scan optstring rest);
     option_elements := option_elements (getopt_scan optstring rest);
     non_options := a :: non_options (getopt_scan optstring rest) |}.
Proof.
  intro H. cbn [getopt_scan].
  destruct a as [|c [|c' a]]; try reflexivity.
  - change (str_eqb [c] (lit "--")) with (Ascii.eqb c "-" && false).
    now rewrite andb_false_r.
  - change (Ascii.eqb "-" c && true = false) in H.
    rewrite andb_true_r, Ascii.eqb_sym in H.
    change (str_eqb (c :: c' :: a) (lit "--"))
      with (Ascii.eqb c "-" && str_eqb (c' :: a) (lit "-")).
    unfold DASH. now rewrite H.
Qed.

Lemma getopt_scan_last (optstring a : cstr) :
  has_prefix (lit "-") a = false ->
  getopt_scan optstring [a]
  = {| returned := []; option_elements := []; non_options := [a] |}.
Proof. intro H. now rewrite getopt_scan_non_option. Qed.

(** The first loop leaves a value and a file behind it in their order. *)
Lemma first_pass_keeps_order (value markdown : cstr) :
  has_prefix (lit "-") markdown = false ->
  permuted (getopt_scan (lit "v") [value; markdown]) = [value; markdown].
Proof.
  intro Hm. pose proof (getopt_scan_last (lit "v") markdown Hm) as Hlast.
  rewrite getopt_scan_cons, Hlast.
  destruct value as [|c [|c' value]].
  - reflexivity.
  - change (str_eqb [c] (lit "--")) with (Ascii.eqb c "-" && false).
    now rewrite andb_false_r.
  - destruct (str_eqb (c :: c' :: value) (lit "--")); [reflexivity|].
    destruct (Ascii.eqb c DASH); [|reflexivity].
    pose proof (cluster_v_waits_for_nothing (c' :: value)) as Hw.
    destruct (getopt_cluster (lit "v") (c' :: value)) as [rs w].
    cbn [snd] in Hw. subst w. reflexivity.
Qed.

Lemma first_pass_f (prog value markdown : cstr) :
  has_prefix (lit "-") markdown = false ->
  snd (first_pass [prog; lit "-f"; value; markdown]) = [lit "-f"; value; markdown].
Proof.
  intro Hm. unfold first_pass. cbn [tl snd].
  change (getopt_scan (lit "v") [lit "-f"; value; markdown])
    with (more [opt_unknown "f"] [lit "-f"] (getopt_scan (lit "v") [value; markdown])).
  unfold permuted, more. cbn [option_elements non_options app].
  f_equal. apply (first_pass_keeps_order value markdown Hm).
Qed.

Lemma second_pass_f (o : Options) (value markdown : cstr) :
  has_prefix (lit "-") markdown = false ->
  second_pass o [lit "-f"; value; markdown]
  = Done (apply_flags (strtol16 value) o, [markdown]).
Proof.
  intro Hm. unfold second_pass.
  change (getopt_scan (lit "hvf:c:n:") [lit "-f"; value; markdown])
    with (more [opt "f" (Some value)] [lit "-f"; value]
            (getopt_scan (lit "hvf:c:n:") [markdown])).
  rewrite (getopt_scan_last _ _ Hm). reflexivity.
Qed.

(** What getOptions leaves for [-f value file]. *)
Lemma getOptions_f (prog value markdown : cstr) :
  has_prefix (lit "-") markdown = false ->
  exists v,
    getOptions [prog; lit "-f"; value; markdown]
    = Done (with_flags (strtol16 value)
              {| options := set_verbose v g_Options;
                 g_MarkdownFilename := markdown;
                 g_RootFilename := strip_extension markdown |}).
Proof.
  intro Hm. unfold getOptions, parse_options.
  pose proof (first_pass_f prog value markdown Hm) as H1.
  destruct (first_pass [prog; lit "-f"; value; markdown]) as [v args].
  cbn [snd] in H1. subst args.
  rewrite (second_pass_f _ _ _ Hm). exists v. destruct v; reflexivity.
Qed.

Lemma getOptions_file (prog markdown : cstr) :
  has_prefix (lit "-") markdown = false ->
  getOptions [prog; markdown]
  = Done {| options := g_Options; g_MarkdownFilename := markdown;
            g_RootFilename := strip_extension markdown |}.
Proof.
  intro Hm. unfold getOptions, parse_options, first_pass, second_pass. cbn [tl].
  rewrite (getopt_scan_last _ _ Hm).
  cbn [returned existsb permuted option_elements non_options app].
  rewrite (getopt_scan_last _ _ Hm). reflexivity.
Qed.

(** The page does not depend on [verbose]. *)
Lemma makeWebpage_verbose (W : World) (v : bool) (o : Options) (markdown stem : cstr) :
  makeWebpage W {| options := set_verbose v o; g_MarkdownFilename := markdown;
                   g_RootFilename := stem |}
  = makeWebpage W {| options := o; g_MarkdownFilename := markdown;
                     g_RootFilename := stem |}.
Proof. destruct o. reflexivity. Qed.

(** C9: a value of [-f] that strtol cannot convert counts as 0. The switch
    leaves the options as they are, without exit or abort; and a run with
    such a [-f] sets no option but perhaps [verbose] (when the value reads
    as a cluster of options with a v in it), leaves no item out, and makes
    the page that the run without [-f] makes. *)
Theorem unparsable_flags_are_zero (value : cstr) :
  strtol16_converts value = false ->
  (forall o, handle_option o (opt "f" (Some value)) = Done o)
  /\ forall prog markdown,
       has_prefix (lit "-") markdown = false ->
       (exists G,
           getOptions [prog; lit "-f"; value; markdown] = Done G
           /\ g_MarkdownFilename G = markdown
           /\ includeDTD (options G) = true /\ includeTitle (options G) = true
           /\ includeDatetime (options G) = true /\ includeAuthor (options G) = true
           /\ cssRoot (options G) = None /\ navEmbedCode (options G) = None)
       /\ forall W, main W [prog; lit "-f"; value; markdown] = main W [prog; markdown].
Proof.
  intro Hv. pose proof (no_conversion_gives_zero _ Hv) as H0. split.
  - intro o. cbn [handle_option]. now rewrite H0.
  - intros prog markdown Hm.
    destruct (getOptions_f prog value markdown Hm) as [v Hg].
    rewrite H0 in Hg. split.
    + eexists. split; [exact Hg|]. destruct v; repeat split.
    + intro W. unfold main. rewrite Hg, (getOptions_file _ _ Hm).
      apply makeWebpage_verbose.
Qed.

(** C10: when the option loops have run through and more than one element of
    argv is left, getOptions stops at its assertion, and so by neither of
    its exits. *)
Theorem excess_arguments_abort (argv : list cstr) (o : Options) (naked : list cstr) :
  parse_options argv = Done (o, naked) ->
  2 <= length naked ->
  getOptions argv = Aborted assert_oneNakedArgument
  /\ forall W code msg, main W argv <> Exited code msg.
Proof.
  intros Hp Hn. unfold main, getOptions. rewrite Hp.
  destruct naked as [|a [|b naked]]; cbn in Hn; try lia.
  split; [reflexivity|discriminate].
Qed.

(** Several file names and no option are one such argv. *)
Lemma parse_options_files (prog : cstr) (files : list cstr) :
  Forall (fun a => has_prefix (lit "-") a = false) files ->
  parse_options (prog :: files) = Done (g_Options, files).
Proof.
  intro H.
  assert (Hs : forall optstring, getopt_scan optstring files
               = {| returned := []; option_elements := []; non_options := files |}).
  { intro optstring. induction H as [|a files Ha H IH]; [reflexivity|].
    now rewrite getopt_scan_non_option, IH. }
  unfold parse_options, first_pass, second_pass. cbn [tl].
  rewrite Hs. cbn [returned existsb permuted option_elements non_options app].
  rewrite Hs. reflexivity.
Qed.

(** ** The stylesheet search *)

Lemma ups_S (k : nat) : ups (S k) = ups k ++ lit "../".
Proof.
  unfold ups. induction k as [|k IH]; [reflexivity|].
  change (repeat (lit "../") (S (S k))) with (lit "../" :: repeat (lit "../") (S k)).
  rewrite concat_cons, IH at 1.
  change (repeat (lit "../") (S k)) with (lit "../" :: repeat (lit "../") k).
  rewrite concat_cons. now rewrite app_assoc.
Qed.

Lemma length_ups (k : nat) : length (ups k) = 3 * k.
Proof.
  induction k as [|k IH]; [reflexivity|].
  rewrite ups_S, length_app, IH. simpl. lia.
Qed.

Lemma length_searchDir_at (k : nat) : length (searchDir_at k) = 3 * k + 2.
Proof. unfold searchDir_at. rewrite length_app, length_ups. simpl. lia. Qed.

Lemma searchDir_at_S (k : nat) : searchDir_at k ++ lit "../" = searchDir_at (S k).
Proof. unfold searchDir_at. now rewrite ups_S, app_assoc. Qed.

Lemma parent_firstn (d : dirpath) (n : nat) :
  n <= length d -> parent (firstn n d) = firstn (n - 1) d.
Proof.
  unfold parent. revert n. induction d as [|c d IH]; intros n Hn.
  - now rewrite !firstn_nil.
  - destruct n as [|n]; [reflexivity|]. simpl in Hn.
    replace (S n - 1) with n by lia.
    destruct n as [|n]; [reflexivity|].
    change (firstn (S (S n)) (c :: d)) with (c :: firstn (S n) d).
    assert (Hne : firstn (S n) d <> []).
    { destruct d; [simpl in Hn; lia|discriminate]. }
    change (removelast (c :: firstn (S n) d))
      with (match firstn (S n) d with [] => [] | _ :: _ => c :: removelast (firstn (S n) d) end).
    destruct (firstn (S n) d) eqn:E; [contradiction|]. rewrite <- E.
    rewrite IH by lia. replace (S n - 1) with n by lia. reflexivity.
Qed.

Lemma walk_ups (W : World) (d : dirpath) (k : nat) :
  walk W d [] (ups k) = Some (Nat.iter k parent d).
Proof.
  revert d. induction k as [|k IH]; intro d; [reflexivity|].
  change (ups (S k)) with (lit "../" ++ ups k).
  change (walk W d [] (lit "../" ++ ups k)) with (walk W (parent d) [] (ups k)).
  rewrite IH. f_equal. symmetry. apply Nat.iter_succ_r.
Qed.

Lemma iter_parent (d : dirpath) (k : nat) :
  Nat.iter k parent d = firstn (length d - k) d.
Proof.
  induction k as [|k IH].
  - simpl. now rewrite Nat.sub_0_r, firstn_all.
  - simpl. rewrite IH, parent_firstn by lia. f_equal. lia.
Qed.

Lemma resolve_searchDir_at (W : World) (k : nat) :
  resolve W (searchDir_at k) = Some (ancestor W k).
Proof.
  unfold ancestor. rewrite <- iter_parent, <- (walk_ups W). reflexivity.
Qed.

Lemma opendir_searchDir_at (W : World) (k : nat) :
  opendir W (searchDir_at k) = w_readdir W (ancestor W k).
Proof. unfold opendir. now rewrite resolve_searchDir_at. Qed.

Lemma canonicalize_searchDir_at (W : World) (k : nat) :
  canonicalize_file_name W (searchDir_at k) = Some (render (ancestor W k)).
Proof. unfold canonicalize_file_name. now rewrite resolve_searchDir_at. Qed.

(** *** Canonical paths *)

Lemma render_nonempty (d : dirpath) :
  d <> [] -> render d = concat (map (fun c => SLASH :: c) d).
Proof. destruct d; [contradiction|reflexivity]. Qed.

Lemma length_render_app (d e : dirpath) :
  d <> [] -> e <> [] ->
  length (render (d ++ e)) = length (render d) + length (render e).
Proof.
  intros Hd He. rewrite !render_nonempty; try assumption.
  - now rewrite map_app, concat_app, length_app.
  - destruct d; [contradiction|discriminate].
Qed.

Lemma length_render_nonroot (d : dirpath) :
  d <> [] -> Forall (fun c => c <> []) d -> 2 <= length (render d).
Proof.
  intros Hd Hwf. destruct d as [|c d]; [contradiction|].
  inversion Hwf as [|? ? Hc _]; subst.
  destruct c as [|x c]; [contradiction|].
  unfold render. cbn [map concat]. rewrite length_app. simpl. lia.
Qed.

Lemma render_nonroot (d : dirpath) :
  d <> [] -> Forall (fun c => c <> []) d -> str_eqb (lit "/") (render d) = false.
Proof.
  intros Hd Hwf. apply str_eqb_neq. intro H.
  pose proof (length_render_nonroot d Hd Hwf) as Hl. rewrite <- H in Hl.
  simpl in Hl. lia.
Qed.

(** A directory strictly below another has another canonical path. *)
Lemma render_below (d e : dirpath) :
  e <> [] -> Forall (fun c => c <> []) (d ++ e) ->
  str_eqb (render (d ++ e)) (render d) = false.
Proof.
  intros He Hwf. apply str_eqb_neq. intro H.
  apply Forall_app in Hwf as [Hd He'].
  pose proof (length_render_nonroot e He He') as Hl.
  destruct d as [|c d].
  - simpl app in H. rewrite H in Hl. simpl in Hl. lia.
  - apply (f_equal (@length ascii)) in H.
    rewrite length_render_app in H by (assumption || discriminate). lia.
Qed.

Lemma ancestor_below (W : World) (root_dir below : dirpath) (k : nat) :
  w_cwd W = root_dir ++ below -> k <= length below ->
  ancestor W k = root_dir ++ firstn (length below - k) below.
Proof.
  intros Hcwd Hk. unfold ancestor. rewrite Hcwd, length_app.
  rewrite firstn_app. replace (length root_dir + length below - k - length root_dir)
    with (length below - k) by lia.
  rewrite firstn_all2 by lia. reflexivity.
Qed.

(** *** The loop *)

Lemma strcat_fits (searchDir s : cstr) :
  length searchDir + length s <= SEARCH_DIR_SIZE ->
  strcat_searchDir searchDir s = Done (searchDir ++ s).
Proof.
  intro H. unfold strcat_searchDir. rewrite length_app.
  destruct (Nat.leb_spec (length searchDir + length s) SEARCH_DIR_SIZE); [reflexivity|lia].
Qed.

(** One turn of the loop at the directory [k] levels up, when that
    directory can be read. *)
Lemma findCssFile_loop_at (fuel : nat) (W : World) (root : cstr) (k : nat)
    (entries : list cstr) :
  w_readdir W (ancestor W k) = Some entries ->
  findCssFile_loop (S fuel) W root (searchDir_at k) =
  match find is_css_name entries with
  | Some d_name =>
      ([searchDir_at k],
       match strcat_searchDir (searchDir_at k) d_name with
       | Done p => Done (Some p)
       | _ => Undefined
       end)
  | None =>
      if str_eqb (lit "/") (render (ancestor W k))
      then ([searchDir_at k], Exited EXIT_INVOKED_OUTSIDE_HTML_ROOT msg_outside_root)
      else
        match strcat_searchDir (searchDir_at k) (lit "../") with
        | Done _ =>
            if negb (str_eqb (render (ancestor W k)) root) then
              let (seen, r) := findCssFile_loop fuel W root (searchDir_at (S k)) in
              (searchDir_at k :: seen, r)
            else ([searchDir_at k], Done None)
        | _ => ([searchDir_at k], Undefined)
        end
  end.
Proof.
  intro Hr. cbn [findCssFile_loop].
  rewrite opendir_searchDir_at, Hr, canonicalize_searchDir_at.
  destruct (find is_css_name entries); [reflexivity|].
  destruct (str_eqb (lit "/") _); [reflexivity|].
  destruct (strcat_searchDir (searchDir_at k) (lit "../")) as [sd| | | | |] eqn:E;
    try reflexivity.
  unfold strcat_searchDir in E.
  destruct (length (searchDir_at k ++ lit "../") <=? SEARCH_DIR_SIZE); [|discriminate].
  apply Done_inj in E. rewrite searchDir_at_S in E. now subst sd.
Qed.

Lemma find_filter_nil {A : Type} (f : A -> bool) (l : list A) :
  filter f l = [] -> find f l = None.
Proof.
  induction l as [|a l IH]; [reflexivity|]. simpl.
  destruct (f a); [discriminate|exact IH].
Qed.

Lemma find_filter_one {A : Type} (f : A -> bool) (l : list A) (a : A) :
  filter f l = [a] -> find f l = Some a.
Proof.
  induction l as [|b l IH]; [discriminate|]. simpl.
  destruct (f b); [now intros [= ->]|exact IH].
Qed.

(** Going up through directories without a stylesheet, strictly below the
    root, to one that has a stylesheet. *)
Lemma findCssFile_loop_ascends (W : World) (root_dir below : dirpath) (k : nat) (name : cstr) :
  w_cwd W = root_dir ++ below ->
  Forall (fun c => c <> []) (w_cwd W) ->
  k < length below ->
  (forall j, j < k -> exists entries,
      w_readdir W (ancestor W j) = Some entries /\ find is_css_name entries = None) ->
  (exists entries,
      w_readdir W (ancestor W k) = Some entries /\ find is_css_name entries = Some name) ->
  length name + 3 * k + 2 <= SEARCH_DIR_SIZE ->
  forall i fuel, i <= k -> k - i < fuel ->
    snd (findCssFile_loop fuel W (render root_dir) (searchDir_at i))
    = Done (Some (searchDir_at k ++ name)).
Proof.
  intros Hcwd Hwf Hk Hclear (entries & Hr & Hf) Hfit i fuel Hi Hfuel.
  remember (k - i) as n eqn:Hn. revert i fuel Hi Hfuel Hn.
  induction n as [|n IH]; intros i fuel Hi Hfuel Hn;
    (destruct fuel as [|fuel]; [lia|]).
  - assert (i = k) by lia. subst i.
    rewrite (findCssFile_loop_at _ _ _ _ _ Hr), Hf. cbn [snd].
    rewrite strcat_fits; [reflexivity|]. rewrite length_searchDir_at. lia.
  - destruct (Hclear i) as (es & Hri & Hfi); [lia|].
    rewrite (findCssFile_loop_at _ _ _ _ _ Hri), Hfi.
    rewrite (ancestor_below W root_dir below i Hcwd) by lia.
    assert (Hne : firstn (length below - i) below <> []).
    { intro E. apply (f_equal (@length cstr)) in E.
      rewrite length_firstn in E. simpl in E. lia. }
    assert (Hwf' : Forall (fun c => c <> []) (root_dir ++ firstn (length below - i) below)).
    { rewrite Hcwd in Hwf. apply Forall_app in Hwf as [H1 H2].
      apply Forall_app. split; [exact H1|].
      rewrite <- (firstn_skipn (length below - i) below) in H2.
      now apply Forall_app in H2 as [H2 _]. }
    rewrite render_nonroot; [|destruct root_dir; [exact Hne|discriminate]|exact Hwf'].
    rewrite (render_below _ _ Hne Hwf').
    rewrite strcat_fits by (rewrite length_searchDir_at; simpl; lia).
    cbn [negb].
    specialize (IH (S i) fuel ltac:(lia) ltac:(lia) ltac:(lia)).
    destruct (findCssFile_loop fuel W (render root_dir) (searchDir_at (S i))) as [seen r].
    exact IH.
Qed.

(** C4 (amended): when no directory from the start up to an ancestor has an
    entry with [.css] in its name, the ancestor lies strictly below the
    boundary root and has exactly one such entry, and the path fits the
    search buffer, the resolver returns [./], then one [../] for each level
    it went up, then that entry's name. *)
Theorem stylesheet_of_ancestor (W : World) (root_dir below : dirpath) (k : nat)
    (name : cstr) :
  w_cwd W = root_dir ++ below ->
  Forall (fun c => c <> []) (w_cwd W) ->
  k < length below ->
  (forall j, j < k -> exists entries,
      w_readdir W (ancestor W j) = Some entries /\ filter is_css_name entries = []) ->
  (exists entries,
      w_readdir W (ancestor W k) = Some entries /\ filter is_css_name entries = [name]) ->
  length name + 3 * k + 2 <= SEARCH_DIR_SIZE ->
  findCssFile W (render root_dir)
  = Done (Some (lit "./" ++ concat (repeat (lit "../") k) ++ name)).
Proof.
  intros Hcwd Hwf Hk Hclear (entries & Hr & Hf) Hfit.
  unfold findCssFile, findCssFile_trace.
  change (lit "./") with (searchDir_at 0) at 1.
  rewrite (findCssFile_loop_ascends W root_dir below k name Hcwd Hwf Hk).
  - unfold searchDir_at, ups. now rewrite <- app_assoc.
  - intros j Hj. destruct (Hclear j Hj) as (es & H1 & H2).
    exists es. split; [exact H1|now apply find_filter_nil].
  - exists entries. split; [exact Hr|now apply find_filter_one].
  - exact Hfit.
  - lia.
  - rewrite Hcwd, length_app. lia.
Qed.

(** The search reports that it found nothing only from the directory whose
    canonical path is the root it was given. *)
Lemma not_found_at_root (fuel : nat) (W : World) (root searchDir : cstr) (seen : list cstr) :
  findCssFile_loop fuel W root searchDir = (seen, Done None) ->
  seen <> [] /\ canonicalize_file_name W (last seen []) = Some root.
Proof.
  revert searchDir seen. induction fuel as [|fuel IH]; intros searchDir seen H;
    [discriminate|].
  cbn [findCssFile_loop] in H.
  destruct (opendir W searchDir); [|discriminate].
  destruct (find is_css_name l).
  { destruct (strcat_searchDir searchDir c); discriminate. }
  destruct (canonicalize_file_name W searchDir) as [absPath|] eqn:Ec; [|discriminate].
  destruct (str_eqb (lit "/") absPath); [discriminate|].
  destruct (strcat_searchDir searchDir (lit "../")) as [sd| | | | |]; try discriminate.
  destruct (str_eqb absPath root) eqn:Er; cbn [negb] in H.
  - injection H as <-. split; [discriminate|]. apply str_eqb_eq in Er. now subst.
  - destruct (findCssFile_loop fuel W root sd) as [seen' r] eqn:E.
    injection H as <- ->. destruct (IH _ _ E) as [Hne Hc].
    split; [discriminate|]. destruct seen'; [contradiction|exact Hc].
Qed.

(** From a directory at or below the root, the search ends with a path or
    with nothing found, and has opened only directories [j] levels up for
    [j] up to the depth below the root. *)
Lemma findCssFile_loop_bounded (W : World) (root_dir below : dirpath) :
  w_cwd W = root_dir ++ below ->
  root_dir <> [] ->
  Forall (fun c => c <> []) (w_cwd W) ->
  (forall k, k <= length below -> exists entries,
      w_readdir W (ancestor W k) = Some entries
      /\ forall name, In name entries -> is_css_name name = true ->
           length name + 3 * k + 2 <= SEARCH_DIR_SIZE) ->
  3 * length below + 5 <= SEARCH_DIR_SIZE ->
  forall i fuel, i <= length below -> length below - i < fuel ->
    ((exists path, snd (findCssFile_loop fuel W (render root_dir) (searchDir_at i))
                   = Done (Some path))
     \/ snd (findCssFile_loop fuel W (render root_dir) (searchDir_at i)) = Done None)
    /\ Forall (fun sd => exists j, j <= length below /\ sd = searchDir_at j)
         (fst (findCssFile_loop fuel W (render root_dir) (searchDir_at i))).
Proof.
  intros Hcwd Hroot Hwf Hdirs Hfit i fuel Hi Hfuel.
  remember (length below - i) as n eqn:Hn. revert i fuel Hi Hfuel Hn.
  induction n as [|n IH]; intros i fuel Hi Hfuel Hn;
    (destruct fuel as [|fuel]; [lia|]);
    destruct (Hdirs i Hi) as (entries & Hr & Hnames);
    rewrite (findCssFile_loop_at _ _ _ _ _ Hr);
    (destruct (find is_css_name entries) as [name|] eqn:Hf;
     [ apply find_some in Hf as [Hin Hcss];
       rewrite strcat_fits by (rewrite length_searchDir_at; specialize (Hnames _ Hin Hcss); lia);
       cbn [fst snd]; split; [left; eexists; reflexivity|];
       constructor; [now exists i|constructor] | ]).
  all: rewrite (ancestor_below W root_dir below i Hcwd Hi).
  all: assert (Hwf' : Forall (fun c => c <> []) (root_dir ++ firstn (length below - i) below))
    by (rewrite Hcwd in Hwf; apply Forall_app in Hwf as [H1 H2];
        apply Forall_app; split; [exact H1|];
        rewrite <- (firstn_skipn (length below - i) below) in H2;
        now apply Forall_app in H2 as [H2 _]).
  all: rewrite render_nonroot;
    [|destruct root_dir; [contradiction|discriminate]|exact Hwf'].
  all: rewrite strcat_fits by (rewrite length_searchDir_at; simpl; lia).
  - replace (length below - i) with 0 by lia. cbn [firstn]. rewrite app_nil_r.
    rewrite str_eqb_refl. cbn [negb fst snd]. split; [now right|].
    constructor; [now exists i|constructor].
  - destruct (str_eqb _ (render root_dir)); cbn [negb].
    + cbn [fst snd]. split; [now right|]. constructor; [now exists i|constructor].
    + specialize (IH (S i) fuel ltac:(lia) ltac:(lia) ltac:(lia)).
      destruct (findCssFile_loop fuel W (render root_dir) (searchDir_at (S i))) as [seen r].
      cbn [fst snd] in *. destruct IH as [IH1 IH2]. split; [exact IH1|].
      constructor; [now exists i|exact IH2].
Qed.

(** What includeCSSFile makes of the two ends of the search. *)
Lemma includeCSSFile_found (W : World) (root path out : cstr) :
  findCssFile W root = Done (Some path) ->
  includeCSSFile W root out = Done (tt, out ++ stylesheet_link path).
Proof.
  intro H. unfold includeCSSFile, bind at 1, lift. rewrite H. push_writes.
  unfold stylesheet_link, checked_fwrite, fwrite. now rewrite <- !app_assoc.
Qed.

Lemma includeCSSFile_not_found (W : World) (root out : cstr) :
  findCssFile W root = Done None ->
  includeCSSFile W root out = Exited EXIT_NO_CSS_FILE (msg_no_css root).
Proof. intro H. unfold includeCSSFile, bind, lift. now rewrite H. Qed.

(** From a start directory at or below a boundary root other than the
    filesystem root, given as its canonical path, and while the relative
    paths fit the search buffer, the resolver ends by returning a path, of which includeCSSFile
    writes the link, or by finding nothing, from the directory whose
    canonical path is the boundary root, which includeCSSFile reports with
    the exit for no stylesheet; and every directory it opens is the boundary
    root or lies below it. *)
Theorem stylesheet_search_ends_at_root (W : World) (root_dir below : dirpath) :
  w_cwd W = root_dir ++ below ->
  root_dir <> [] ->
  Forall (fun c => c <> []) (w_cwd W) ->
  (forall k, k <= length below -> exists entries,
      w_readdir W (ancestor W k) = Some entries
      /\ forall name, In name entries -> is_css_name name = true ->
           length name + 3 * k + 2 <= SEARCH_DIR_SIZE) ->
  3 * length below + 5 <= SEARCH_DIR_SIZE ->
  ((exists path,
       findCssFile W (render root_dir) = Done (Some path)
       /\ forall out,
            includeCSSFile W (render root_dir) out = Done (tt, out ++ stylesheet_link path))
   \/ (findCssFile W (render root_dir) = Done None
       /\ canonicalize_file_name W (last (fst (findCssFile_trace W (render root_dir))) [])
          = Some (render root_dir)
       /\ forall out,
            includeCSSFile W (render root_dir) out
            = Exited EXIT_NO_CSS_FILE (msg_no_css (render root_dir))))
  /\ Forall (fun searchDir => exists rest, resolve W searchDir = Some (root_dir ++ rest))
       (fst (findCssFile_trace W (render root_dir))).
Proof.
  intros Hcwd Hroot Hwf Hdirs Hfit.
  destruct (findCssFile_loop_bounded W root_dir below Hcwd Hroot Hwf Hdirs Hfit
              0 (S (length (w_cwd W)))) as [Hr Hseen];
    [lia|rewrite Hcwd, length_app; lia|].
  change (searchDir_at 0) with (lit "./") in *.
  fold (findCssFile_trace W (render root_dir)) in *.
  fold (findCssFile W (render root_dir)) in *.
  split.
  - destruct Hr as [[path Hr]|Hr]; [left|right].
    { exists path. split; [exact Hr|]. intro out. now apply includeCSSFile_found. }
    split; [exact Hr|]. split.
    + unfold findCssFile in Hr.
      destruct (findCssFile_trace W (render root_dir)) as [seen r] eqn:E.
      cbn [snd] in Hr. subst r. cbn [fst].
      now apply (not_found_at_root _ _ _ _ _ E).
    + intro out. now apply includeCSSFile_not_found.
  - eapply Forall_impl; [|exact Hseen].
    intros sd (j & Hj & ->). rewrite resolve_searchDir_at.
    rewrite (ancestor_below W root_dir below j Hcwd Hj). now eexists.
Qed.

(** *** Termination *)

(** The bound of [findCssFile_trace] is never hit: the loop has left before. *)
Lemma findCssFile_loop_terminates (W : World) (root : cstr) (i fuel : nat) :
  length (w_cwd W) - i < fuel ->
  snd (findCssFile_loop fuel W root (searchDir_at i)) <> OutOfFuel.
Proof.
  remember (length (w_cwd W) - i) as n eqn:Hn. revert i fuel Hn.
  induction n as [|n IH]; intros i fuel Hn Hfuel;
    (destruct fuel as [|fuel]; [lia|]); cbn [findCssFile_loop];
    rewrite opendir_searchDir_at, canonicalize_searchDir_at;
    (destruct (w_readdir W (ancestor W i)) as [entries|]; [|discriminate]);
    (destruct (find is_css_name entries) as [name|];
     [destruct (strcat_searchDir (searchDir_at i) name); discriminate|]).
  - unfold ancestor. rewrite <- Hn. discriminate.
  - cbn [option_map].
    destruct (str_eqb (lit "/") _); [discriminate|].
    destruct (strcat_searchDir (searchDir_at i) (lit "../")) as [sd| | | | |] eqn:E;
      try discriminate.
    destruct (negb _); [|discriminate].
    assert (sd = searchDir_at (S i)).
    { unfold strcat_searchDir in E. destruct (_ <=? _); [|discriminate].
      apply Done_inj in E. now rewrite searchDir_at_S in E. }
    subst sd. specialize (IH (S i) fuel ltac:(lia) ltac:(lia)).
    destruct (findCssFile_loop fuel W root (searchDir_at (S i))) as [seen r].
    exact IH.
Qed.

Lemma findCssFile_terminates (W : World) (root : cstr) :
  findCssFile W root <> OutOfFuel.
Proof. apply (findCssFile_loop_terminates W root 0). lia. Qed.

(** More turns than the loop takes change nothing. *)
Lemma findCssFile_loop_more_fuel (W : World) (root : cstr) (fuel extra : nat) (searchDir : cstr) :
  snd (findCssFile_loop fuel W root searchDir) <> OutOfFuel ->
  findCssFile_loop (fuel + extra) W root searchDir = findCssFile_loop fuel W root searchDir.
Proof.
  revert searchDir. induction fuel as [|fuel IH]; intros searchDir H; [now contradiction H|].
  cbn [Nat.add findCssFile_loop] in *.
  destruct (opendir W searchDir); [|reflexivity].
  destruct (find is_css_name l); [reflexivity|].
  destruct (canonicalize_file_name W searchDir); [|reflexivity].
  destruct (str_eqb (lit "/") c); [reflexivity|].
  destruct (strcat_searchDir searchDir (lit "../")); try reflexivity.
  destruct (negb _); [|reflexivity].
  rewrite IH; [reflexivity|].
  destruct (findCssFile_loop fuel W root a). exact H.
Qed.

(** ** The tidy up *)

Section TidyUp.

Import Script.

Variable ext : cstr.

Lemma find_delete_Dir (es : list (cstr * node)) :
  find_delete ext (Dir es) = Dir (prune ext es).
Proof. reflexivity. Qed.

Lemma prune_cons (name : cstr) (child : node) (es : list (cstr * node)) :
  prune ext ((name, child) :: es) =
  if name_matches ext name && removable (find_delete ext child)
  then prune ext es
  else (name, find_delete ext child) :: prune ext es.
Proof. reflexivity. Qed.

(** An entry that is left comes from an entry that was there, and was not
    one to delete. *)
Lemma In_prune (name : cstr) (child' : node) (es : list (cstr * node)) :
  In (name, child') (prune ext es) ->
  exists child,
    In (name, child) es /\ child' = find_delete ext child
    /\ name_matches ext name && removable child' = false.
Proof.
  induction es as [|[n c] es IH]; [contradiction|].
  rewrite prune_cons.
  destruct (name_matches ext n && removable (find_delete ext c)) eqn:E.
  - intro H. destruct (IH H) as (child & Hin & Heq & Hk).
    exists child. split; [now right|now split].
  - intros [H|H].
    + injection H as -> <-. exists c. split; [now left|now split].
    + destruct (IH H) as (child & Hin & Heq & Hk).
      exists child. split; [now right|now split].
Qed.

(** A file found after the pass was there before, and its name does not
    match the pattern. *)
Lemma reach_find_delete (path : list cstr) (name : cstr) (t : node) (d : cstr) :
  reach (path ++ [name]) (find_delete ext t) (File d) ->
  reach (path ++ [name]) t (File d) /\ name_matches ext name = false.
Proof.
  revert t. induction path as [|n path IH]; intros [data|es]; cbn [app reach find_delete];
    try contradiction; fold (prune ext es).
  - intros (child' & Hin & Hreach). cbn [reach] in Hreach. subst child'.
    destruct (In_prune _ _ _ Hin) as (child & Hin' & Heq & Hk).
    destruct child as [data|es']; [|discriminate]. cbn in Heq. injection Heq as <-.
    cbn [removable] in Hk. rewrite andb_true_r in Hk.
    split; [now exists (File d)|exact Hk].
  - intros (child' & Hin & Hreach).
    destruct (In_prune _ _ _ Hin) as (child & Hin' & -> & _).
    destruct (IH _ Hreach) as [Hr Hm]. split; [now exists child|exact Hm].
Qed.

Lemma entry_In (name : cstr) (es : list (cstr * node)) (child : node) :
  entry name es = Some child -> In (name, child) es.
Proof.
  induction es as [|[n c] es IH]; [discriminate|]. cbn [entry].
  destruct (str_eqb n name) eqn:E.
  - intros [= ->]. apply str_eqb_eq in E. subst. now left.
  - intro H. right. now apply IH.
Qed.

(** An entry that the pass does not delete is found after it as before. *)
Lemma entry_prune (name : cstr) (es : list (cstr * node)) (child : node) :
  entry name es = Some child ->
  name_matches ext name && removable (find_delete ext child) = false ->
  entry name (prune ext es) = Some (find_delete ext child).
Proof.
  intros H Hk. induction es as [|[n c] es IH]; [discriminate|].
  rewrite prune_cons. cbn [entry] in H.
  destruct (str_eqb n name) eqn:E.
  - injection H as ->. apply str_eqb_eq in E. subst n. rewrite Hk.
    cbn [entry]. now rewrite str_eqb_refl.
  - destruct (name_matches ext n && removable (find_delete ext c)); [now apply IH|].
    cbn [entry]. rewrite E. now apply IH.
Qed.

(** A file whose name does not match the pattern is found after the pass
    where it was, as it was. *)
Lemma lookup_find_delete (path : list cstr) (name : cstr) (t : node) (d : cstr) :
  name_matches ext name = false ->
  lookup (path ++ [name]) t = Some (File d) ->
  lookup (path ++ [name]) (find_delete ext t) = Some (File d).
Proof.
  intro Hm. revert t. induction path as [|n path IH]; intros [data|es];
    cbn [app lookup find_delete]; try discriminate; fold (prune ext es).
  - destruct (entry name es) as [child|] eqn:E; [|discriminate].
    intros [= ->]. rewrite (entry_prune _ _ _ E); [reflexivity|].
    now rewrite Hm.
  - destruct (entry n es) as [child|] eqn:E; [|discriminate].
    intro H. specialize (IH _ H).
    rewrite (entry_prune _ _ _ E); [exact IH|].
    destruct (find_delete ext child) as [data|[|e es']].
    + destruct path; discriminate IH.
    + destruct path; discriminate IH.
    + apply andb_false_r.
Qed.

End TidyUp.

Lemma lookup_reach (path : list cstr) (t n : Script.node) :
  Script.lookup path t = Some n -> Script.reach path t n.
Proof.
  revert t. induction path as [|name path IH]; intros t; cbn [Script.lookup Script.reach].
  - now intros [= ->].
  - destruct t as [data|es]; [discriminate|].
    destruct (Script.entry name es) as [child|] eqn:E; [|discriminate].
    intro H. exists child. split; [now apply entry_In|now apply IH].
Qed.

(** C7: after the tidy up no file whose name ends in [.md], [.txt] or
    [.backup] is left anywhere under the html root, and every file with
    another name is where it was, with the contents it had. *)
Theorem cleanup_removes_sources_only (htmlroot : Script.node) :
  (forall path name data,
      Script.lookup (path ++ [name]) (Script.cleanup htmlroot) = Some (Script.File data) ->
      Script.name_matches (lit ".md") name = false
      /\ Script.name_matches (lit ".txt") name = false
      /\ Script.name_matches (lit ".backup") name = false)
  /\ (forall path name data,
      Script.deployable_name name = true ->
      Script.lookup (path ++ [name]) htmlroot = Some (Script.File data) ->
      Script.lookup (path ++ [name]) (Script.cleanup htmlroot) = Some (Script.File data)).
Proof.
  unfold Script.cleanup. split.
  - intros path name data H. apply lookup_reach in H.
    apply reach_find_delete in H as [H Htxt].
    apply reach_find_delete in H as [H Hbackup].
    apply reach_find_delete in H as [_ Hmd]. now repeat split.
  - intros path name data Hn H. unfold Script.deployable_name in Hn.
    apply negb_true_iff in Hn.
    apply orb_false_iff in Hn as [Hn Htxt]. apply orb_false_iff in Hn as [Hmd Hbackup].
    now repeat apply lookup_find_delete.
Qed.

(** ** copyFile *)

Lemma to_int_small (z : Z) : (- 2 ^ 31 <= z < 2 ^ 31)%Z -> to_int z = z.
Proof. intro H. unfold to_int. rewrite Z.mod_small; lia. Qed.

Lemma bind_fwrite_out {B : Type} (s : cstr) (k : unit -> io B) (out : cstr) :
  bind (fwrite s) k out = k tt (out ++ s).
Proof. reflexivity. Qed.

(** The loop from a block boundary on: [written] blocks are through, [rest]
    is still to read. It ends well unless what is left is a positive number
    of whole blocks. *)
Lemma copyFile_loop_spec (st_size st_blksize : Z) :
  (0 < st_blksize)%Z -> (st_size < 2 ^ 31)%Z ->
  forall (fuel : nat) (rest readBuffer : cstr) (written : Z) (out : cstr),
    length readBuffer = Z.to_nat st_blksize ->
    (0 <= written)%Z ->
    (written * st_blksize + Z.of_nat (length rest) = st_size)%Z ->
    length rest < fuel ->
    copyFile_loop fuel st_size st_blksize rest readBuffer (written * st_blksize) written out
    = if (0 <? Z.of_nat (length rest))%Z
         && (Z.of_nat (length rest) mod st_blksize =? 0)%Z
      then Aborted assert_bytesWritten
      else Done (tt, out ++ rest).
Proof.
  intros Hblk Hsize fuel.
  induction fuel as [|fuel IH]; intros rest readBuffer written out Hbuf Hw Hsum Hfuel; [lia|].
  cbn [copyFile_loop]. unfold fread.
  set (b := Z.to_nat st_blksize) in *.
  assert (Hb : Z.of_nat b = st_blksize) by (subst b; lia).
  assert (Hbuf' : length readBuffer = b) by exact Hbuf.
  clearbody b. clear Hbuf.
  assert (Hwb : (0 <= written * st_blksize)%Z) by nia.
  assert (Hdist : ((written + 1) * st_blksize = written * st_blksize + st_blksize)%Z) by ring.
  destruct (Nat.le_gt_cases (length rest) b) as [Hle|Hgt].
  - (* the last read *)
    rewrite firstn_all2 by exact Hle.
    assert (Hbr : to_int (written * st_blksize + Z.of_nat (length rest)) = st_size).
    { rewrite Hsum. apply to_int_small. lia. }
    rewrite Hbr.
    replace (st_size >=? st_size)%Z with true by (symmetry; apply Z.geb_le; lia).
    rewrite Z.ltb_irrefl.
    rewrite (to_int_small (written * st_blksize)) by lia.
    assert (Hrem : Z.rem st_size st_blksize = (Z.of_nat (length rest) mod st_blksize)%Z).
    { rewrite Z.rem_mod_nonneg by lia. rewrite <- Hsum.
      rewrite Z.add_comm, Z.mod_add by lia. reflexivity. }
    rewrite Hrem.
    destruct (Z.ltb_spec (Z.of_nat (length rest) mod st_blksize) 0) as [Hneg|_].
    { pose proof (Z.mod_pos_bound (Z.of_nat (length rest)) st_blksize Hblk). lia. }
    rewrite bind_fwrite_out.
    destruct (Nat.eq_dec (length rest) b) as [Heq|Hne].
    + (* a whole block: nothing is written, and the counts differ *)
      rewrite Heq, Hb, Z.mod_same by lia.
      rewrite Z.add_0_r, (to_int_small (written * st_blksize)) by lia.
      replace (0 <? st_blksize)%Z with true by (symmetry; apply Z.ltb_lt; lia).
      replace (st_size =? written * st_blksize)%Z with false
        by (symmetry; apply Z.eqb_neq; lia).
      reflexivity.
    + (* less than a block: it is written, and the counts agree *)
      rewrite Z.mod_small by lia.
      rewrite Nat2Z.id, firstn_app, Nat.sub_diag, firstn_all. cbn [firstn].
      rewrite app_nil_r, Hsum, (to_int_small st_size), Z.eqb_refl by lia.
      destruct (Z.ltb_spec 0 (Z.of_nat (length rest))) as [Hpos|Hzero].
      * replace (Z.of_nat (length rest) =? 0)%Z with false
          by (symmetry; apply Z.eqb_neq; lia).
        reflexivity.
      * reflexivity.
  - (* a whole block, and more to come *)
    assert (Hchunk : length (firstn b rest) = b) by (rewrite length_firstn; lia).
    rewrite Hchunk, Hb.
    assert (Hbr : to_int (written * st_blksize + st_blksize) = ((written + 1) * st_blksize)%Z).
    { rewrite to_int_small; lia. }
    rewrite Hbr.
    replace (st_size >=? (written + 1) * st_blksize)%Z with true
      by (symmetry; apply Z.geb_le; lia).
    replace ((written + 1) * st_blksize <? st_size)%Z with true
      by (symmetry; apply Z.ltb_lt; lia).
    rewrite bind_fwrite_out.
    rewrite (skipn_all2 readBuffer) by lia. rewrite app_nil_r.
    destruct rest as [|c rest'] eqn:Erest; [simpl in Hgt; lia|]. rewrite <- Erest in *.
    assert (Hwlt : (written < 2 ^ 31)%Z) by nia.
    rewrite (to_int_small (written + 1)) by lia.
    assert (Hlen : length (skipn b rest) = length rest - b) by apply length_skipn.
    rewrite IH; [|exact Hchunk|lia|lia|lia].
    rewrite Hlen, <- app_assoc, firstn_skipn.
    replace (Z.of_nat (length rest - b)) with (Z.of_nat (length rest) - 1 * st_blksize)%Z by lia.
    rewrite Zminus_mod, Z_mod_mult, Z.sub_0_r, Z.mod_mod by lia.
    replace (0 <? Z.of_nat (length rest) - 1 * st_blksize)%Z with true
      by (symmetry; apply Z.ltb_lt; lia).
    replace (0 <? Z.of_nat (length rest))%Z with true
      by (symmetry; apply Z.ltb_lt; lia).
    reflexivity.
Qed.

(** The bound of [copyFile] is never hit: every turn that goes round again
    has taken at least one byte off the input. *)
Lemma copyFile_loop_fuel (st_size st_blksize : Z) :
  (0 < st_blksize)%Z ->
  forall (fuel : nat) (input readBuffer : cstr) (bytesRead written : Z) (out : cstr),
    length input < fuel ->
    copyFile_loop fuel st_size st_blksize input readBuffer bytesRead written out
    <> OutOfFuel.
Proof.
  intros Hblk fuel.
  induction fuel as [|fuel IH]; intros input readBuffer bytesRead written out Hfuel; [lia|].
  cbn [copyFile_loop]. unfold fread.
  destruct (_ >=? _)%Z; [destruct (_ <? _)%Z|].
  - rewrite bind_fwrite_out. destruct input as [|c input]; [discriminate|].
    apply IH. rewrite length_skipn. cbn [length] in *. lia.
  - destruct (_ <? 0)%Z; [discriminate|]. rewrite bind_fwrite_out.
    destruct (_ =? _)%Z; discriminate.
  - destruct (_ =? _)%Z; discriminate.
Qed.

Lemma copyFile_fuel (W : World) (input : file) (out : cstr) :
  copyFile W input out <> OutOfFuel.
Proof.
  unfold copyFile. destruct (Z.leb_spec (f_blksize input) 0); [discriminate|].
  destruct (w_malloc W _); [|discriminate].
  apply copyFile_loop_fuel; lia.
Qed.

(** X1: copyFile copies a file of less than 2 GiB byte for byte, unless its size
    is a positive multiple of the block size: then the last block is not
    written and the assertion on the byte counts fails. *)
Theorem copyFile_spec (W : World) (input : file) (block out : cstr) :
  (0 < f_blksize input)%Z ->
  (Z.of_nat (length (f_data input)) < 2 ^ 31)%Z ->
  w_malloc W (f_blksize input) = Some block ->
  copyFile W input out
  = if (0 <? Z.of_nat (length (f_data input)))%Z
       && (Z.of_nat (length (f_data input)) mod f_blksize input =? 0)%Z
    then Aborted assert_bytesWritten
    else Done (tt, out ++ f_data input).
Proof.
  intros Hblk Hsize Hm. unfold copyFile. rewrite Hm.
  destruct (Z.leb_spec (f_blksize input) 0); [lia|].
  apply (copyFile_loop_spec _ _ Hblk Hsize _ _ _ 0%Z).
  - rewrite length_firstn, length_app, repeat_length. lia.
  - lia.
  - lia.
  - lia.
Qed.

(** ** The build script and the stylesheet option *)

(** C1: the script tests [[[ ${css} ]]], which holds for the word false as
    for the word true, so [-c] is passed to webpage also when the script is
    run without its own [-c]: here a run without any option, whose page for
    index.md links the stylesheet of the html root. *)
Theorem css_option_is_always_passed :
  (forall pwd_name abshtmlroot,
      Script.read_options pwd_name [] = Some (Script.defaults pwd_name)
      /\ Script.css (Script.defaults pwd_name) = lit "false"
      /\ Script.cssOption (Script.defaults pwd_name) abshtmlroot
         = lit " -c " ++ abshtmlroot ++ lit " ")
  /\ Script.webpage_argv (Script.defaults (lit "site")) (lit "/srv/site_html") (lit "index.md")
     = [lit "webpage"; lit "-c"; lit "/srv/site_html"; lit "./index.md"]
  /\ main (html_root_world [])
       (Script.webpage_argv (Script.defaults (lit "site")) (lit "/srv/site_html")
          (lit "index.md"))
     = Done (g_Doctype ++ g_PageOpenTag ++ g_HeadOpenTag
             ++ title_element (lit "./index")
             ++ author_comment (lit "mark")
             ++ datetime_comment (lit "Mon Nov  2 12:00:00 2026")
             ++ stylesheet_link (lit "./style.css")
             ++ g_HeadCloseTag
             ++ g_BodyOpenTag ++ (lit "<p>Home</p>" ++ [LF]) ++ g_BodyCloseTag
             ++ g_PageCloseTag).
Proof.
  split; [intros; repeat split|].
  split; vm_compute; reflexivity.
Qed.

(** ** The sidecar file *)

(** C3: a sidecar file of exactly one block (4096 bytes with a block size of
    4096) is not copied: copyFile writes none of it and its assertion on the
    byte counts fails, so no page is made. *)
Theorem sidecar_of_one_block_aborts :
  copyFile (html_root_world [one_block_sidecar]) (snd one_block_sidecar) []
  = Aborted assert_bytesWritten
  /\ makeWebpage (html_root_world [one_block_sidecar]) (index_globals g_Options)
     = Aborted assert_bytesWritten.
Proof. split; vm_compute; reflexivity. Qed.

(** ** Instances *)

Lemma navigation_embedding_closes_body_witness :
  exists page,
    makeWebpage (html_root_world [])
      (index_globals (set_navEmbedCode (Some (lit "NAV")) g_Options)) = Done page
    /\ exists front mdFile html,
      w_fopen_r (html_root_world []) (lit "./index.md") = Some mdFile
      /\ w_cmark (html_root_world []) (f_data mdFile) = Some html
      /\ page = front ++ g_BodyOpenTag ++ html
               ++ (g_CommentOpenTag ++ (lit " NAVIGATION EMBEDDING GOES HERE " ++ [LF])
                   ++ lit "NAV" ++ g_CommentCloseTag)
               ++ g_BodyCloseTag ++ g_PageCloseTag.
Proof.
  eexists. split; [vm_compute; reflexivity|].
  apply (navigation_embedding_closes_body (html_root_world [])
           (index_globals (set_navEmbedCode (Some (lit "NAV")) g_Options)) (lit "NAV"));
    vm_compute; reflexivity.
Defined.

Lemma unparsable_flags_are_zero_witness :
  (forall o, handle_option o (opt "f" (Some (lit "zz"))) = Done o)
  /\ forall prog markdown,
       has_prefix (lit "-") markdown = false ->
       (exists G,
           getOptions [prog; lit "-f"; lit "zz"; markdown] = Done G
           /\ g_MarkdownFilename G = markdown
           /\ includeDTD (options G) = true /\ includeTitle (options G) = true
           /\ includeDatetime (options G) = true /\ includeAuthor (options G) = true
           /\ cssRoot (options G) = None /\ navEmbedCode (options G) = None)
       /\ forall W, main W [prog; lit "-f"; lit "zz"; markdown] = main W [prog; markdown].
Proof. apply (unparsable_flags_are_zero (lit "zz")). reflexivity. Defined.

Lemma excess_arguments_abort_witness :
  getOptions [lit "webpage"; lit "a.md"; lit "b.md"] = Aborted assert_oneNakedArgument
  /\ forall W code msg,
       main W [lit "webpage"; lit "a.md"; lit "b.md"] <> Exited code msg.
Proof.
  apply (excess_arguments_abort [lit "webpage"; lit "a.md"; lit "b.md"] g_Options
           [lit "a.md"; lit "b.md"]).
  - reflexivity.
  - apply le_n.
Defined.

Ltac no_css_entry :=
  let name := fresh "name" in
  let Hin := fresh "Hin" in
  let Hcss := fresh "Hcss" in
  intros name Hin Hcss; simpl in Hin;
  repeat (destruct Hin as [<-|Hin]; [discriminate Hcss|]); contradiction.

Lemma stylesheet_search_ends_at_root_witness :
  ((exists path,
       findCssFile (docs_world []) (render [lit "srv"]) = Done (Some path)
       /\ forall out,
            includeCSSFile (docs_world []) (render [lit "srv"]) out
            = Done (tt, out ++ stylesheet_link path))
   \/ (findCssFile (docs_world []) (render [lit "srv"]) = Done None
       /\ canonicalize_file_name (docs_world [])
            (last (fst (findCssFile_trace (docs_world []) (render [lit "srv"]))) [])
          = Some (render [lit "srv"])
       /\ forall out,
            includeCSSFile (docs_world []) (render [lit "srv"]) out
            = Exited EXIT_NO_CSS_FILE (msg_no_css (render [lit "srv"]))))
  /\ Forall (fun searchDir =>
               exists rest, resolve (docs_world []) searchDir = Some ([lit "srv"] ++ rest))
       (fst (findCssFile_trace (docs_world []) (render [lit "srv"]))).
Proof.
  apply (stylesheet_search_ends_at_root (docs_world []) [lit "srv"] [lit "site"; lit "docs"]).
  - reflexivity.
  - discriminate.
  - repeat constructor; discriminate.
  - intros k Hk. destruct k as [|[|[|k]]]; [| | |simpl in Hk; lia];
      (eexists; split; [reflexivity|no_css_entry]).
  - unfold SEARCH_DIR_SIZE. simpl. lia.
Defined.

Lemma stylesheet_of_ancestor_witness :
  findCssFile (docs_world [lit "style.css"]) (render [lit "srv"])
  = Done (Some (lit "./" ++ concat (repeat (lit "../") 1) ++ lit "style.css")).
Proof.
  apply (stylesheet_of_ancestor (docs_world [lit "style.css"]) [lit "srv"]
           [lit "site"; lit "docs"] 1 (lit "style.css")).
  - reflexivity.
  - repeat constructor; discriminate.
  - apply le_n.
  - intros j Hj. destruct j as [|j]; [|lia]. eexists. split; reflexivity.
  - eexists. split; reflexivity.
  - unfold SEARCH_DIR_SIZE. simpl. lia.
Defined.

Lemma cleanup_removes_sources_only_witness :
  Script.lookup ([lit "img"] ++ [lit "logo.png"]) (Script.cleanup example_tree)
  = Some (Script.File (lit "PNG")).
Proof.
  apply (proj2 (cleanup_removes_sources_only example_tree)); reflexivity.
Defined.

(** ** Where the specification asks for more than the program does *)

(** C4 as written fails when the ancestor has, besides its one [*.css] file,
    an entry with [.css] inside its name that readdir gives first. *)
Lemma stylesheet_of_ancestor_counterexample :
  let W := docs_world [lit "style.css.backup"; lit "style.css"] in
  w_cwd W = [lit "srv"] ++ [lit "site"; lit "docs"]
  /\ w_readdir W (ancestor W 0) = Some [lit "."; lit ".."; lit "index.md"]
  /\ w_readdir W (ancestor W 1)
     = Some [lit "."; lit ".."; lit "docs"; lit "style.css.backup"; lit "style.css"]
  /\ filter (has_suffix (lit ".css"))
       [lit "."; lit ".."; lit "docs"; lit "style.css.backup"; lit "style.css"]
     = [lit "style.css"]
  /\ findCssFile W (lit "/srv") = Done (Some (lit "./../style.css.backup"))
  /\ has_suffix (lit "style.css") (lit "./../style.css.backup") = false.
Proof. repeat split; vm_compute; reflexivity. Qed.


(** ** Further properties *)

(** The page of [webpage -f 0x05 ./index.md]: no DOCTYPE line and no
    datetime comment, everything else. *)
Example flags_0x05_page :
  main (html_root_world []) [lit "webpage"; lit "-f"; lit "0x05"; lit "./index.md"]
  = Done (g_PageOpenTag ++ g_HeadOpenTag
          ++ title_element (lit "./index")
          ++ author_comment (lit "mark")
          ++ g_HeadCloseTag
          ++ g_BodyOpenTag ++ (lit "<p>Home</p>" ++ [LF]) ++ g_BodyCloseTag
          ++ g_PageCloseTag).
Proof. vm_compute. reflexivity. Qed.

Lemma copyFile_spec_witness :
  copyFile (html_root_world []) {| f_data := lit "<meta>"; f_blksize := 4096 |} []
  = Done (tt, lit "<meta>").
Proof.
  apply (copyFile_spec (html_root_world [])
           {| f_data := lit "<meta>"; f_blksize := 4096 |} [] []);
    reflexivity.
Defined.

(** X2: the search for a stylesheet always ends: the bound on the turns of its
    loop is never what stops it, and any larger bound gives the same run. *)
Theorem findCssFile_fuel (W : World) (root : cstr) (extra : nat) :
  findCssFile_loop (S (length (w_cwd W)) + extra) W root (lit "./")
  = findCssFile_trace W root.
Proof.
  apply findCssFile_loop_more_fuel.
  apply (findCssFile_loop_terminates W root 0). lia.
Qed.

(** A directory whose name matches a pattern of the tidy up stays when it is
    not empty: here notes.md, which holds a picture. *)
Theorem tidy_up_keeps_directories_in_use :
  Script.cleanup example_tree
  = Script.Dir
      [(lit "index.html", Script.File (lit "<html>"));
       (lit "notes.md", Script.Dir [(lit "pic.png", Script.File (lit "PNG"))]);
       (lit "img", Script.Dir [(lit "logo.png", Script.File (lit "PNG"))])].
Proof. reflexivity. Qed.

(** * More of the program *)

(** ** The two option loops of getOptions *)

Lemma getopt_scan_not_option_like (optstring a : cstr) (rest : list cstr) :
  option_like a = false ->
  getopt_scan optstring (a :: rest) =
  {| returned := returned (getopt_scan optstring rest);
     option_elements := option_elements (getopt_scan optstring rest);
     non_options := a :: non_options (getopt_scan optstring rest) |}.
Proof.
  intro H. rewrite getopt_scan_cons.
  destruct a as [|c [|c' a]]; try reflexivity.
  - change (str_eqb [c] (lit "--")) with (Ascii.eqb c "-" && false).
    now rewrite andb_false_r.
  - cbn [option_like] in H.
    change (str_eqb (c :: c' :: a) (lit "--"))
      with (Ascii.eqb c DASH && str_eqb (c' :: a) (lit "-")).
    now rewrite H.
Qed.

(** The first loop sees a [v] wherever one stands in a cluster. *)
Lemma cluster_v_returns (chars : cstr) :
  existsb is_opt_v (fst (getopt_cluster (lit "v") chars)) = existsb (Ascii.eqb "v") chars.
Proof.
  induction chars as [|c chars IH]; [reflexivity|].
  cbn [getopt_cluster existsb]. destruct (getopt_cluster (lit "v") chars) as [rs w].
  cbn [fst] in IH. unfold option_kind.
  destruct (Ascii.eqb c ":" || Ascii.eqb c ";") eqn:Ec.
  - cbn [fst existsb is_opt_v]. rewrite IH.
    destruct (Ascii.eqb "v" c) eqn:Ev; [|reflexivity].
    apply Ascii.eqb_eq in Ev. subst c. discriminate.
  - cbn [lit list_ascii_of_string optstring_lookup].
    destruct (Ascii.eqb "v" c) eqn:Ev; cbn [fst existsb is_opt_v]; rewrite IH.
    + rewrite Ascii.eqb_sym, Ev. reflexivity.
    + reflexivity.
Qed.

Lemma scan_v (args : list cstr) :
  Forall (fun a => a <> lit "--") args ->
  existsb is_opt_v (returned (getopt_scan (lit "v") args))
  = existsb (fun a => option_like a && existsb (Ascii.eqb "v") (tl a)) args
  /\ option_elements (getopt_scan (lit "v") args) = filter option_like args
  /\ non_options (getopt_scan (lit "v") args)
     = filter (fun a => negb (option_like a)) args.
Proof.
  induction 1 as [|a args Ha H IH]; [now split|].
  destruct IH as (IHr & IHo & IHn).
  apply str_eqb_neq in Ha. rewrite getopt_scan_cons, Ha. cbv zeta.
  cbn [existsb filter].
  destruct a as [|c [|c' a]];
    cbn [option_like negb andb orb returned option_elements non_options];
    try (now rewrite IHr, IHo, IHn).
  unfold DASH in *. destruct (Ascii.eqb c "-") eqn:Ec;
    cbn [negb andb orb returned option_elements non_options];
    try (now rewrite IHr, IHo, IHn).
  pose proof (cluster_v_waits_for_nothing (c' :: a)) as Hw.
  pose proof (cluster_v_returns (c' :: a)) as Hr.
  destruct (getopt_cluster (lit "v") (c' :: a)) as [rs w].
  cbn [snd fst] in Hw, Hr. subst w.
  unfold more. cbn [returned option_elements non_options app tl].
  rewrite existsb_app, Hr, IHr, IHo, IHn. now split.
Qed.

(** X6: the first getopt loop, which knows the option [v] only, moves every
    element of argv that starts with a dash in front of the others, the
    arguments of [-f], [-c] and [-n] among them, keeping the order on either
    side; and it sets [verbose] when one of the moved elements has a [v]
    behind its dash. (The argv holds no [--] here.) *)
Theorem first_pass_partitions (prog : cstr) (args : list cstr) :
  Forall (fun a => a <> lit "--") args ->
  first_pass (prog :: args)
  = (existsb (fun a => option_like a && existsb (Ascii.eqb "v") (tl a)) args,
     filter option_like args ++ filter (fun a => negb (option_like a)) args).
Proof.
  intro H. destruct (scan_v args H) as (Hr & Ho & Hn).
  unfold first_pass, permuted. cbn [tl]. now rewrite Hr, Ho, Hn.
Qed.

(** What the first loop takes for options starts with a dash. *)
Lemma option_elements_dash (args : list cstr) :
  Forall (fun a => has_prefix (lit "-") a = true)
    (option_elements (getopt_scan (lit "v") args)).
Proof.
  induction args as [|a args IH]; [constructor|].
  rewrite getopt_scan_cons.
  destruct (str_eqb a (lit "--")) eqn:E.
  - apply str_eqb_eq in E. subst a. repeat constructor.
  - cbv zeta. destruct a as [|c [|c' a]]; try exact IH.
    destruct (Ascii.eqb c DASH) eqn:Ec; [|exact IH].
    pose proof (cluster_v_waits_for_nothing (c' :: a)) as Hw.
    destruct (getopt_cluster (lit "v") (c' :: a)) as [rs w].
    cbn [snd] in Hw. subst w. unfold more. cbn [option_elements app].
    constructor; [|exact IH].
    apply Ascii.eqb_eq in Ec. subst c. reflexivity.
Qed.

(** The element that the first loop leaves in front is the first of argv or
    starts with a dash. *)
Lemma permuted_head (a : cstr) (rest : list cstr) :
  exists b tail,
    permuted (getopt_scan (lit "v") (a :: rest)) = b :: tail
    /\ (b = a \/ has_prefix (lit "-") b = true).
Proof.
  pose proof (option_elements_dash (a :: rest)) as Hd.
  unfold permuted.
  destruct (option_elements (getopt_scan (lit "v") (a :: rest))) as [|b oe] eqn:Eo.
  - rewrite getopt_scan_cons in Eo |- *.
    destruct (str_eqb a (lit "--")); [discriminate|]. cbv zeta in Eo |- *.
    destruct a as [|c [|c' a]];
      try (cbn [non_options app]; eexists; eexists; split; [reflexivity|now left]).
    destruct (Ascii.eqb c DASH);
      [|cbn [non_options app]; eexists; eexists; split; [reflexivity|now left]].
    pose proof (cluster_v_waits_for_nothing (c' :: a)) as Hw.
    destruct (getopt_cluster (lit "v") (c' :: a)) as [rs w].
    cbn [snd] in Hw. subst w. discriminate.
  - exists b, (oe ++ non_options (getopt_scan (lit "v") (a :: rest))).
    split; [reflexivity|]. right. now inversion Hd.
Qed.

Lemma handle_relative_root (o : Options) (b : cstr) (rs : list getopt_result) :
  has_prefix (lit "/") b = false ->
  handle_options o (opt "c" (Some b) :: rs)
  = Exited EXIT_ABS_PATH_REQUIRED msg_abs_path_required.
Proof.
  intro H. cbn [handle_options handle_option].
  change (Ascii.eqb "c" "h") with false. change (Ascii.eqb "c" "v") with false.
  change (Ascii.eqb "c" "f") with false. change (Ascii.eqb "c" "c") with true.
  cbv iota. destruct b as [|c b]; [reflexivity|].
  change (Ascii.eqb "/" c && true = false) in H.
  rewrite andb_true_r, Ascii.eqb_sym in H. unfold SLASH. now rewrite H.
Qed.

Lemma dash_is_not_slash (b : cstr) :
  has_prefix (lit "-") b = true -> has_prefix (lit "/") b = false.
Proof.
  destruct b as [|c b]; [discriminate|].
  change (Ascii.eqb "-" c && true = true -> Ascii.eqb "/" c && true = false).
  rewrite !andb_true_r. intro H. apply Ascii.eqb_eq in H. now subst c.
Qed.

(** X7: [-c] as the first argument with a path that does not start with a
    slash (the empty path included) ends the run with EXIT_ABS_PATH_REQUIRED,
    whatever else is on the command line. *)
Theorem relative_css_root_is_refused (W : World) (prog path : cstr) (rest : list cstr) :
  has_prefix (lit "/") path = false ->
  main W (prog :: lit "-c" :: path :: rest)
  = Exited EXIT_ABS_PATH_REQUIRED msg_abs_path_required.
Proof.
  intro Hp. unfold main, getOptions, parse_options, first_pass. cbn [tl].
  change (getopt_scan (lit "v") (lit "-c" :: path :: rest))
    with (more [opt_unknown "c"] [lit "-c"] (getopt_scan (lit "v") (path :: rest))).
  destruct (permuted_head path rest) as (b & tail & Hperm & Hb).
  unfold permuted in *. unfold more. cbn [option_elements non_options returned app].
  rewrite Hperm. unfold second_pass.
  change (getopt_scan (lit "hvf:c:n:") (lit "-c" :: b :: tail))
    with (more [opt "c" (Some b)] [lit "-c"; b] (getopt_scan (lit "hvf:c:n:") tail)).
  unfold more. cbn [returned app].
  rewrite handle_relative_root; [reflexivity|].
  destruct Hb as [->|Hb]; [exact Hp|now apply dash_is_not_slash].
Qed.

(** The exits of the second loop do not depend on the options set so far. *)
Lemma main_of_second_pass (W : World) (argv : list cstr) (code : Z) (msg : diagnostic) :
  (forall o, second_pass o (snd (first_pass argv)) = Exited code msg) ->
  main W argv = Exited code msg.
Proof.
  intro H. unfold main, getOptions, parse_options.
  destruct (first_pass argv) as [v args]. cbn [snd] in H. now rewrite H.
Qed.

Lemma second_pass_behind_v (prog : cstr) (rest : list cstr) (code : Z) (msg : diagnostic) :
  (forall o, second_pass o (snd (first_pass (prog :: rest))) = Exited code msg) ->
  forall o, second_pass o (snd (first_pass (prog :: lit "-v" :: rest))) = Exited code msg.
Proof.
  intros H o. specialize (H o). unfold first_pass in *. cbn [tl snd] in *.
  change (getopt_scan (lit "v") (lit "-v" :: rest))
    with (more [opt "v" None] [lit "-v"] (getopt_scan (lit "v") rest)).
  unfold permuted, more in *. cbn [option_elements non_options app].
  unfold second_pass in *.
  match goal with
  | |- context [getopt_scan (lit "hvf:c:n:") (lit "-v" :: ?t)] =>
      change (getopt_scan (lit "hvf:c:n:") (lit "-v" :: t))
        with (more [opt "v" None] [lit "-v"] (getopt_scan (lit "hvf:c:n:") t))
  end.
  unfold more. cbn [returned non_options app].
  change (handle_options o (opt "v" None :: ?rs)) with (handle_options o rs).
  destruct (handle_options o _); try discriminate. exact H.
Qed.

Lemma second_pass_c_n (prog root : cstr) (rest : list cstr) :
  option_like root = false ->
  forall o, second_pass o (snd (first_pass (prog :: lit "-c" :: root :: lit "-n" :: rest)))
            = Exited EXIT_ABS_PATH_REQUIRED msg_abs_path_required.
Proof.
  intros Hr o. unfold first_pass. cbn [tl snd].
  change (getopt_scan (lit "v") (lit "-c" :: root :: lit "-n" :: rest))
    with (more [opt_unknown "c"] [lit "-c"]
            (getopt_scan (lit "v") (root :: lit "-n" :: rest))).
  rewrite (getopt_scan_not_option_like _ root _ Hr).
  change (getopt_scan (lit "v") (lit "-n" :: rest))
    with (more [opt_unknown "n"] [lit "-n"] (getopt_scan (lit "v") rest)).
  unfold permuted, more. cbn [option_elements non_options returned app].
  unfold second_pass.
  match goal with
  | |- context [getopt_scan (lit "hvf:c:n:") (lit "-c" :: lit "-n" :: ?t)] =>
      change (getopt_scan (lit "hvf:c:n:") (lit "-c" :: lit "-n" :: t))
        with (more [opt "c" (Some (lit "-n"))] [lit "-c"; lit "-n"]
                (getopt_scan (lit "hvf:c:n:") t))
  end.
  unfold more. cbn [returned app].
  rewrite handle_relative_root; reflexivity.
Qed.

Lemma second_pass_F (prog : cstr) (rest : list cstr) :
  forall o, second_pass o (snd (first_pass (prog :: lit "-F" :: rest)))
            = Exited EXIT_UNKNOWN_OPTION (msg_unknown_option "F").
Proof.
  intro o. unfold first_pass. cbn [tl snd].
  change (getopt_scan (lit "v") (lit "-F" :: rest))
    with (more [opt_unknown "F"] [lit "-F"] (getopt_scan (lit "v") rest)).
  unfold permuted, more. cbn [option_elements non_options returned app].
  unfold second_pass.
  match goal with
  | |- context [getopt_scan (lit "hvf:c:n:") (lit "-F" :: ?t)] =>
      change (getopt_scan (lit "hvf:c:n:") (lit "-F" :: t))
        with (more [opt_unknown "F"] [lit "-F"] (getopt_scan (lit "hvf:c:n:") t))
  end.
  reflexivity.
Qed.

(** X4: [-c root -n ...]: the first loop takes [root] for a file name and
    moves it behind [-n], so the second loop reads [-n] as the argument of
    [-c]: a run with a css root followed by a navigation embedding exits with
    EXIT_ABS_PATH_REQUIRED, whatever the root, the embedding and the file. *)
Theorem css_root_then_nav_is_refused (W : World) (prog root : cstr) (rest : list cstr) :
  option_like root = false ->
  main W (prog :: lit "-c" :: root :: lit "-n" :: rest)
  = Exited EXIT_ABS_PATH_REQUIRED msg_abs_path_required.
Proof.
  intro Hr. apply main_of_second_pass. now apply second_pass_c_n.
Qed.

Lemma option_elements_after_files (optstring : cstr) (files : list cstr) (args : list cstr) :
  Forall (fun a => option_like a = false) files ->
  option_elements (getopt_scan optstring (files ++ args))
  = option_elements (getopt_scan optstring args).
Proof.
  induction 1 as [|a files Ha H IH]; [reflexivity|].
  cbn [app]. now rewrite (getopt_scan_not_option_like _ a _ Ha).
Qed.

(** X8: when [-h] is the first option on the command line, behind any number
    of file names, the run prints the help and exits with EXIT_NORMAL: no
    page is made, and nothing that follows [-h] is looked at. *)
Theorem help_is_first_option (W : World) (prog : cstr) (files rest : list cstr) :
  Forall (fun a => option_like a = false) files ->
  main W (prog :: files ++ lit "-h" :: rest) = Exited EXIT_NORMAL msg_help.
Proof.
  intro Hf. unfold main, getOptions, parse_options, first_pass. cbn [tl].
  unfold permuted. rewrite (option_elements_after_files _ _ _ Hf).
  change (getopt_scan (lit "v") (lit "-h" :: rest))
    with (more [opt_unknown "h"] [lit "-h"] (getopt_scan (lit "v") rest)).
  unfold more at 1. cbn [option_elements app].
  unfold second_pass.
  match goal with
  | |- context [getopt_scan (lit "hvf:c:n:") (lit "-h" :: ?t)] =>
      change (getopt_scan (lit "hvf:c:n:") (lit "-h" :: t))
        with (more [opt "h" None] [lit "-h"] (getopt_scan (lit "hvf:c:n:") t))
  end.
  reflexivity.
Qed.

Lemma apply_flags_set_verbose (b : bool) (flags : Z) (o : Options) :
  apply_flags flags (set_verbose b o) = set_verbose b (apply_flags flags o).
Proof.
  unfold apply_flags.
  destruct (Z.land flag_dtd flags =? 0)%Z, (Z.land flag_title flags =? 0)%Z,
    (Z.land flag_author flags =? 0)%Z, (Z.land flag_datetime flags =? 0)%Z;
    reflexivity.
Qed.

Lemma handle_option_set_verbose (b : bool) (o : Options) (r : getopt_result) :
  handle_option (set_verbose b o) r
  = obind (handle_option o r) (fun o' => Done (set_verbose b o')).
Proof.
  destruct r as [c [optarg|]| |]; cbn [handle_option]; try reflexivity.
  - destruct (Ascii.eqb c "h"); [reflexivity|].
    destruct (Ascii.eqb c "v"); [reflexivity|].
    destruct (Ascii.eqb c "f"); [cbn [obind]; now rewrite apply_flags_set_verbose|].
    destruct (Ascii.eqb c "c").
    { destruct optarg as [|first optarg]; [reflexivity|].
      destruct (Ascii.eqb first SLASH); reflexivity. }
    destruct (Ascii.eqb c "n"); reflexivity.
  - destruct (Ascii.eqb c "h"); [reflexivity|].
    destruct (Ascii.eqb c "v"); [reflexivity|].
    destruct (Ascii.eqb c "f" || Ascii.eqb c "c" || Ascii.eqb c "n"); reflexivity.
Qed.

Lemma handle_options_set_verbose (b : bool) (rs : list getopt_result) (o : Options) :
  handle_options (set_verbose b o) rs
  = obind (handle_options o rs) (fun o' => Done (set_verbose b o')).
Proof.
  revert o. induction rs as [|r rs IH]; intro o; [reflexivity|].
  cbn [handle_options]. rewrite handle_option_set_verbose.
  destruct (handle_option o r) as [o'| | | | |]; cbn [obind]; try reflexivity.
  apply IH.
Qed.

(** X9: [-v] in front of the other arguments changes neither the page nor the
    way the run ends: it only turns the log on. *)
Theorem verbose_changes_no_page (W : World) (prog : cstr) (rest : list cstr) :
  main W (prog :: lit "-v" :: rest) = main W (prog :: rest).
Proof.
  unfold main, getOptions, parse_options, first_pass. cbn [tl].
  change (getopt_scan (lit "v") (lit "-v" :: rest))
    with (more [opt "v" None] [lit "-v"] (getopt_scan (lit "v") rest)).
  unfold permuted, more. cbn [returned option_elements non_options app existsb is_opt_v].
  change (Ascii.eqb "v" "v") with true. cbn [orb].
  set (args := option_elements (getopt_scan (lit "v") rest)
               ++ non_options (getopt_scan (lit "v") rest)).
  unfold second_pass.
  change (getopt_scan (lit "hvf:c:n:") (lit "-v" :: args))
    with (more [opt "v" None] [lit "-v"] (getopt_scan (lit "hvf:c:n:") args)).
  unfold more. cbn [returned non_options app].
  change (handle_options (set_verbose true g_Options)
            (opt "v" None :: returned (getopt_scan (lit "hvf:c:n:") args)))
    with (handle_options (set_verbose true g_Options)
            (returned (getopt_scan (lit "hvf:c:n:") args))).
  destruct (existsb is_opt_v (returned (getopt_scan (lit "v") rest))); [reflexivity|].
  rewrite handle_options_set_verbose.
  destruct (handle_options g_Options _) as [o'| | | | |]; cbn [obind]; try reflexivity.
  destruct (non_options (getopt_scan (lit "hvf:c:n:") args)) as [|md [|x naked]];
    reflexivity.
Qed.

Lemma Options_eq (a b : Options) :
  includeTitle a = includeTitle b -> includeDTD a = includeDTD b ->
  includeAuthor a = includeAuthor b -> includeDatetime a = includeDatetime b ->
  cssRoot a = cssRoot b -> navEmbedCode a = navEmbedCode b -> verbose a = verbose b ->
  a = b.
Proof. destruct a, b. cbn. intros. now subst. Qed.

(** Two values of [-f], one after the other, do what their bitwise or does. *)
Lemma apply_flags_lor (f g : Z) (o : Options) :
  apply_flags g (apply_flags f o) = apply_flags (Z.lor f g) o.
Proof.
  destruct (apply_flags_others g (apply_flags f o)) as (Hc1 & Hn1 & Hv1).
  destruct (apply_flags_others f o) as (Hc2 & Hn2 & Hv2).
  destruct (apply_flags_others (Z.lor f g) o) as (Hc3 & Hn3 & Hv3).
  apply Options_eq;
    rewrite ?includeDTD_apply_flags, ?includeTitle_apply_flags,
      ?includeAuthor_apply_flags, ?includeDatetime_apply_flags, ?Z.lor_spec,
      ?negb_orb, ?andb_assoc; congruence.
Qed.

(** An element [-f] with its value attached is one cluster of options for
    the first loop, and [-f value] for the second. *)
Lemma scan_v_cluster (c : ascii) (chars : cstr) (rest : list cstr) :
  str_eqb (DASH :: c :: chars) (lit "--") = false ->
  exists rs,
    getopt_scan (lit "v") ((DASH :: c :: chars) :: rest)
    = more rs [DASH :: c :: chars] (getopt_scan (lit "v") rest).
Proof.
  intro H. rewrite getopt_scan_cons, H. cbv zeta. unfold DASH at 2.
  change (Ascii.eqb "-" "-") with true. cbv iota.
  pose proof (cluster_v_waits_for_nothing (c :: chars)) as Hw.
  destruct (getopt_cluster (lit "v") (c :: chars)) as [rs w].
  cbn [snd] in Hw. subst w. now exists rs.
Qed.

Lemma scan_second_f (value : cstr) (rest : list cstr) :
  value <> [] ->
  getopt_scan (lit "hvf:c:n:") ((lit "-f" ++ value) :: rest)
  = more [opt "f" (Some value)] [lit "-f" ++ value] (getopt_scan (lit "hvf:c:n:") rest).
Proof.
  intro H. destruct value as [|x value]; [contradiction|]. reflexivity.
Qed.

(** X10: the flags of several [-f] options add up: [-fA -fB file], each
    value attached to its option, leaves the options that one [-f] with the
    bitwise or of the two values leaves. *)
Theorem flags_add_up (prog a b markdown : cstr) :
  a <> [] -> b <> [] -> option_like markdown = false ->
  exists v : bool,
    getOptions [prog; lit "-f" ++ a; lit "-f" ++ b; markdown]
    = Done {| options := apply_flags (Z.lor (strtol16 a) (strtol16 b))
                           (if v then set_verbose true g_Options else g_Options);
              g_MarkdownFilename := markdown;
              g_RootFilename := strip_extension markdown |}.
Proof.
  intros Ha Hb Hm. unfold getOptions, parse_options, first_pass. cbn [tl].
  destruct (scan_v_cluster "f" a [lit "-f" ++ b; markdown]) as [rs1 E1].
  { destruct a; [contradiction|reflexivity]. }
  destruct (scan_v_cluster "f" b [markdown]) as [rs2 E2].
  { destruct b; [contradiction|reflexivity]. }
  change (DASH :: "f"%char :: a) with (lit "-f" ++ a) in E1.
  change (DASH :: "f"%char :: b) with (lit "-f" ++ b) in E2.
  rewrite E1, E2, (getopt_scan_not_option_like _ markdown [] Hm).
  unfold permuted, more. cbn [getopt_scan returned option_elements non_options app].
  exists (existsb is_opt_v (rs1 ++ rs2 ++ [])).
  unfold second_pass.
  rewrite (scan_second_f a _ Ha), (scan_second_f b _ Hb),
    (getopt_scan_not_option_like _ markdown [] Hm).
  unfold more. cbn [getopt_scan returned option_elements non_options app].
  cbn [handle_options handle_option].
  change (Ascii.eqb "f" "h") with false. change (Ascii.eqb "f" "v") with false.
  change (Ascii.eqb "f" "f") with true. cbv iota.
  now rewrite apply_flags_lor.
Qed.

(** One option with its value in the next element of argv, then the file. *)
Lemma getOptions_one_value (prog option value markdown : cstr) (r : getopt_result) :
  has_prefix (lit "-") markdown = false ->
  (exists rs, getopt_scan (lit "v") [option; value; markdown]
              = more rs [option] (getopt_scan (lit "v") [value; markdown])) ->
  getopt_scan (lit "hvf:c:n:") [option; value; markdown]
  = more [r] [option; value] (getopt_scan (lit "hvf:c:n:") [markdown]) ->
  exists v : bool,
    parse_options [prog; option; value; markdown]
    = match handle_option (if v then set_verbose true g_Options else g_Options) r with
      | Done o => Done (o, [markdown])
      | Exited c d => Exited c d
      | Aborted a => Aborted a
      | Undefined => Undefined
      | Diverges => Diverges
      | OutOfFuel => OutOfFuel
      end.
Proof.
  intros Hm [rs E1] E2. unfold parse_options, first_pass. cbn [tl].
  rewrite E1. unfold permuted, more at 1 2 3. cbn [returned option_elements non_options].
  pose proof (first_pass_keeps_order value markdown Hm) as Hk. unfold permuted in Hk.
  cbn [app]. rewrite Hk.
  exists (existsb is_opt_v (rs ++ returned (getopt_scan (lit "v") [value; markdown]))).
  unfold second_pass. rewrite E2, (getopt_scan_last _ _ Hm).
  unfold more. cbn [returned non_options app handle_options].
  destruct (handle_option _ r); reflexivity.
Qed.

(** X27: one option with its value, then the file, is read as the help text
    says, whatever the value is: [-f value] applies the flags that strtol
    reads from the value, [-n value] sets the navigation embedding to the
    value, and [-c value] sets the css root to a value that starts with a
    slash. (With one such option the first loop has nothing to move.) *)
Theorem one_option_with_its_value (prog value markdown : cstr) :
  has_prefix (lit "-") markdown = false ->
  (exists v : bool,
      getOptions [prog; lit "-f"; value; markdown]
      = Done {| options := apply_flags (strtol16 value)
                             (if v then set_verbose true g_Options else g_Options);
                g_MarkdownFilename := markdown;
                g_RootFilename := strip_extension markdown |})
  /\ (exists v : bool,
      getOptions [prog; lit "-n"; value; markdown]
      = Done {| options := set_navEmbedCode (Some value)
                             (if v then set_verbose true g_Options else g_Options);
                g_MarkdownFilename := markdown;
                g_RootFilename := strip_extension markdown |})
  /\ (has_prefix (lit "/") value = true ->
      exists v : bool,
        getOptions [prog; lit "-c"; value; markdown]
        = Done {| options := set_cssRoot (Some value)
                               (if v then set_verbose true g_Options else g_Options);
                  g_MarkdownFilename := markdown;
                  g_RootFilename := strip_extension markdown |}).
Proof.
  intro Hm. split; [|split].
  - destruct (getOptions_one_value prog (lit "-f") value markdown
                (opt "f" (Some value)) Hm) as [v Hv].
    + now exists [opt_unknown "f"].
    + reflexivity.
    + exists v. unfold getOptions. rewrite Hv. reflexivity.
  - destruct (getOptions_one_value prog (lit "-n") value markdown
                (opt "n" (Some value)) Hm) as [v Hv].
    + now exists [opt_unknown "n"].
    + reflexivity.
    + exists v. unfold getOptions. rewrite Hv. reflexivity.
  - intro Habs.
    destruct (getOptions_one_value prog (lit "-c") value markdown
                (opt "c" (Some value)) Hm) as [v Hv].
    + now exists [opt_unknown "c"].
    + reflexivity.
    + exists v. unfold getOptions. rewrite Hv.
      destruct value as [|c value]; [discriminate|].
      change (Ascii.eqb "/" c && true = true) in Habs. rewrite andb_true_r in Habs.
      apply Ascii.eqb_eq in Habs. subst c. reflexivity.
Qed.

Lemma strip_extension_app (stem rest : cstr) :
  existsb (Ascii.eqb DOT) rest = false ->
  strip_extension (stem ++ DOT :: rest) = stem.
Proof.
  intro H. induction stem as [|c stem IH].
  - cbn [app strip_extension]. rewrite H. unfold DOT. reflexivity.
  - cbn [app strip_extension]. rewrite existsb_app. cbn [existsb].
    unfold DOT at 3 4. change (Ascii.eqb "." ".") with true.
    rewrite orb_true_r, andb_false_r. now rewrite IH.
Qed.

Lemma strip_extension_no_dot (s : cstr) :
  existsb (Ascii.eqb DOT) s = false -> strip_extension s = s.
Proof.
  induction s as [|c s IH]; [reflexivity|]. cbn [existsb strip_extension].
  intro H. apply orb_false_iff in H as [Hc Hs].
  rewrite Ascii.eqb_sym, Hc. cbn [andb]. now rewrite IH.
Qed.

(** X11: the names of a run with a file and no option. The stem is the file
    name up to its last dot, wherever that dot stands (in [../notes/readme]
    it is the second one), and the whole name when there is no dot; the
    page is written to the stem followed by [.html]. *)
Theorem file_names_of_a_page (prog : cstr) :
  (forall stem rest,
      existsb (Ascii.eqb DOT) rest = false ->
      has_prefix (lit "-") (stem ++ DOT :: rest) = false ->
      exists G,
        getOptions [prog; stem ++ DOT :: rest] = Done G
        /\ options G = g_Options
        /\ g_MarkdownFilename G = stem ++ DOT :: rest
        /\ g_RootFilename G = stem
        /\ g_WebpageFilename G = stem ++ lit ".html")
  /\ forall name,
      existsb (Ascii.eqb DOT) name = false ->
      has_prefix (lit "-") name = false ->
      exists G,
        getOptions [prog; name] = Done G
        /\ options G = g_Options
        /\ g_MarkdownFilename G = name
        /\ g_RootFilename G = name
        /\ g_WebpageFilename G = name ++ lit ".html".
Proof.
  split.
  - intros stem rest Hr Hm. rewrite (getOptions_file _ _ Hm). eexists.
    split; [reflexivity|]. unfold g_WebpageFilename.
    cbn [options g_MarkdownFilename g_RootFilename].
    now rewrite (strip_extension_app _ _ Hr).
  - intros name Hn Hm. rewrite (getOptions_file _ _ Hm). eexists.
    split; [reflexivity|]. unfold g_WebpageFilename.
    cbn [options g_MarkdownFilename g_RootFilename].
    now rewrite (strip_extension_no_dot _ Hn).
Qed.

(** *** The flags on the command line *)




(** ** The ways a run ends *)

Lemma option_kind_second (c : ascii) :
  match option_kind (lit "hvf:c:n:") c with
  | Some false => c = "h"%char \/ c = "v"%char
  | Some true => c = "f"%char \/ c = "c"%char \/ c = "n"%char
  | None => True
  end.
Proof.
  unfold option_kind. destruct (Ascii.eqb c ":" || Ascii.eqb c ";") eqn:Ecolon; [trivial|].
  cbn [lit list_ascii_of_string optstring_lookup].
  repeat match goal with
         | |- context [Ascii.eqb ?x c] =>
             let E := fresh "E" in
             destruct (Ascii.eqb x c) eqn:E;
             [apply Ascii.eqb_eq in E; subst c; first [discriminate Ecolon | cbn; tauto]|]
         end.
  trivial.
Qed.

Lemma switch_flag (o : Options) (c : ascii) :
  c = "h"%char \/ c = "v"%char -> options_outcome (handle_option o (opt c None)).
Proof.
  intros [->| ->]; cbn; unfold options_outcome; [tauto|]. left. now eexists.
Qed.

Lemma switch_value (o : Options) (c : ascii) (b : cstr) :
  c = "f"%char \/ c = "c"%char \/ c = "n"%char ->
  options_outcome (handle_option o (opt c (Some b))).
Proof.
  intros [->|[->| ->]]; unfold options_outcome.
  - left. now eexists.
  - cbn [handle_option].
    change (Ascii.eqb "c" "h") with false. change (Ascii.eqb "c" "v") with false.
    change (Ascii.eqb "c" "f") with false. change (Ascii.eqb "c" "c") with true.
    cbv iota. destruct b as [|x b]; [tauto|].
    destruct (Ascii.eqb x SLASH); [|tauto]. left. now eexists.
  - left. now eexists.
Qed.

Lemma switch_unknown (o : Options) (c : ascii) :
  options_outcome (handle_option o (opt_unknown c)).
Proof. unfold options_outcome. right. right. left. now exists c. Qed.

(** Under the optstring of the second loop, a cluster gives the switch only
    options it has a case for, each with an argument when it takes one. *)
Lemma cluster_second (chars : cstr) :
  Forall (fun r => forall o, options_outcome (handle_option o r))
    (fst (getopt_cluster (lit "hvf:c:n:") chars))
  /\ forall c, snd (getopt_cluster (lit "hvf:c:n:") chars) = Some c ->
               c = "f"%char \/ c = "c"%char \/ c = "n"%char.
Proof.
  induction chars as [|c chars [IHr IHw]]; [split; [constructor|discriminate]|].
  cbn [getopt_cluster]. pose proof (option_kind_second c) as Hk.
  destruct (option_kind (lit "hvf:c:n:") c) as [[|]|].
  - destruct chars as [|c' chars]; cbn [fst snd].
    + split; [constructor|]. now intros c0 [= <-].
    + split; [|discriminate]. constructor; [|constructor].
      intro o. now apply switch_value.
  - destruct (getopt_cluster (lit "hvf:c:n:") chars) as [rs w]. cbn [fst snd] in *.
    split; [|exact IHw]. constructor; [|exact IHr]. intro o. now apply switch_flag.
  - destruct (getopt_cluster (lit "hvf:c:n:") chars) as [rs w]. cbn [fst snd] in *.
    split; [|exact IHw]. constructor; [|exact IHr]. intro o. apply switch_unknown.
Qed.

(** The same for all that getopt returns in the second loop; an option left
    without its argument is returned as an unknown one, since the optstring
    does not start with a colon. *)
Lemma scan_second (n : nat) (args : list cstr) :
  length args <= n ->
  Forall (fun r => forall o, options_outcome (handle_option o r))
    (returned (getopt_scan (lit "hvf:c:n:") args)).
Proof.
  revert args. induction n as [|n IH]; intros args Hn.
  - destruct args; [constructor|cbn in Hn; lia].
  - destruct args as [|a rest]; [constructor|]. cbn [length] in Hn.
    assert (Hrest : Forall (fun r => forall o, options_outcome (handle_option o r))
                      (returned (getopt_scan (lit "hvf:c:n:") rest))) by (apply IH; lia).
    rewrite getopt_scan_cons.
    destruct (str_eqb a (lit "--")); [constructor|]. cbv zeta.
    destruct a as [|c [|c' a]]; try exact Hrest.
    destruct (Ascii.eqb c DASH); [|exact Hrest].
    destruct (cluster_second (c' :: a)) as [Hr Hw].
    destruct (getopt_cluster (lit "hvf:c:n:") (c' :: a)) as [rs [w|]]; cbn [fst snd] in *.
    + specialize (Hw w eq_refl). destruct rest as [|b rest'].
      * unfold more. cbn [returned]. rewrite app_nil_r. apply Forall_app. split; [exact Hr|].
        constructor; [|constructor]. intro o. apply switch_unknown.
      * unfold more. cbn [returned]. rewrite <- app_assoc.
        apply Forall_app. split; [exact Hr|]. constructor.
        -- intro o. now apply switch_value.
        -- apply IH. cbn [length] in Hn. lia.
    + unfold more. cbn [returned]. apply Forall_app. now split.
Qed.

Lemma handle_options_outcome (rs : list getopt_result) :
  Forall (fun r => forall o, options_outcome (handle_option o r)) rs ->
  forall o, options_outcome (handle_options o rs).
Proof.
  induction 1 as [|r rs Hr H IH]; intro o.
  - left. now exists o.
  - cbn [handle_options]. destruct (Hr o) as [[o' E]|[E|[[c E]|E]]]; rewrite E.
    + apply IH.
    + unfold options_outcome. tauto.
    + unfold options_outcome. right. right. left. now exists c.
    + unfold options_outcome. tauto.
Qed.

Lemma parse_options_outcome (argv : list cstr) : options_outcome (parse_options argv).
Proof.
  unfold parse_options. destruct (first_pass argv) as [v args]. unfold second_pass.
  pose proof (handle_options_outcome _ (scan_second _ args (le_n _))
                (if v then set_verbose true g_Options else g_Options)) as H.
  unfold options_outcome in *.
  destruct H as [[o' E]|[E|[[c E]|E]]]; rewrite E.
  - left. now eexists.
  - tauto.
  - right. right. left. now exists c.
  - tauto.
Qed.

(** X12: all the ways getOptions can end: with the globals set, with one of
    four exits, or at the assertion on the number of file names. It never
    ends with EXIT_MISSING_VALUE (an option left without its value is
    reported as an unknown option), nor in the default case of its switch,
    nor with a null pointer for an argument. *)
Theorem getOptions_outcomes (argv : list cstr) :
  (exists G, getOptions argv = Done G)
  \/ getOptions argv = Exited EXIT_NORMAL msg_help
  \/ getOptions argv = Exited EXIT_NO_MARKDOWN msg_no_markdown
  \/ (exists c, getOptions argv = Exited EXIT_UNKNOWN_OPTION (msg_unknown_option c))
  \/ getOptions argv = Exited EXIT_ABS_PATH_REQUIRED msg_abs_path_required
  \/ getOptions argv = Aborted assert_oneNakedArgument.
Proof.
  unfold getOptions.
  destruct (parse_options_outcome argv) as [[[o naked] E]|[E|[[c E]|E]]]; rewrite E.
  - destruct naked as [|md [|x naked]].
    + tauto.
    + left. now eexists.
    + tauto.
  - tauto.
  - right. right. right. left. now exists c.
  - tauto.
Qed.

Lemma findCssFile_loop_exit (fuel : nat) (W : World) (root searchDir : cstr)
    (seen : list cstr) (code : Z) (msg : diagnostic) :
  findCssFile_loop fuel W root searchDir = (seen, Exited code msg) ->
  code = EXIT_INVOKED_OUTSIDE_HTML_ROOT /\ msg = msg_outside_root.
Proof.
  revert searchDir seen. induction fuel as [|fuel IH]; intros searchDir seen H;
    [discriminate|].
  cbn [findCssFile_loop] in H.
  destruct (opendir W searchDir); [|discriminate].
  destruct (find is_css_name l).
  { destruct (strcat_searchDir searchDir c); discriminate. }
  destruct (canonicalize_file_name W searchDir) as [absPath|]; [|discriminate].
  destruct (str_eqb (lit "/") absPath); [now injection H as _ <- <-|].
  destruct (strcat_searchDir searchDir (lit "../")) as [sd| | | | |]; try discriminate.
  destruct (negb (str_eqb absPath root)); [|discriminate].
  destruct (findCssFile_loop fuel W root sd) as [seen' r] eqn:E.
  injection H as <- ->. exact (IH _ _ E).
Qed.

Lemma copyFile_loop_no_exit (fuel : nat) (st_size st_blksize : Z)
    (input readBuffer : cstr) (bytesRead written : Z) (out : cstr)
    (code : Z) (msg : diagnostic) :
  copyFile_loop fuel st_size st_blksize input readBuffer bytesRead written out
  <> Exited code msg.
Proof.
  revert input readBuffer bytesRead written out.
  induction fuel as [|fuel IH]; intros; [discriminate|].
  cbn [copyFile_loop]. unfold fread.
  destruct (_ >=? _)%Z; [destruct (_ <? _)%Z|].
  - rewrite bind_fwrite_out. destruct input; [discriminate|apply IH].
  - destruct (_ <? 0)%Z; [discriminate|].
    rewrite bind_fwrite_out. destruct (_ =? _)%Z; discriminate.
  - destruct (_ =? _)%Z; discriminate.
Qed.

Lemma includeTxtFile_no_exit (W : World) (stem out : cstr) (code : Z) (msg : diagnostic) :
  includeTxtFile W stem out <> Exited code msg.
Proof.
  unfold includeTxtFile. destruct (w_fopen_r W _) as [f|]; [|discriminate].
  unfold copyFile. destruct (_ <=? 0)%Z; [discriminate|].
  destruct (w_malloc W _); [apply copyFile_loop_no_exit|discriminate].
Qed.

Lemma includeCSSFile_exit (W : World) (root out : cstr) (code : Z) (msg : diagnostic) :
  includeCSSFile W root out = Exited code msg ->
  (code = EXIT_NO_CSS_FILE /\ msg = msg_no_css root)
  \/ (code = EXIT_INVOKED_OUTSIDE_HTML_ROOT /\ msg = msg_outside_root).
Proof.
  unfold includeCSSFile, bind at 1, lift.
  destruct (findCssFile W root) as [[p|]| | | | |] eqn:E; try discriminate.
  - intros [= <- <-]. now left.
  - intros [= <- <-]. right. unfold findCssFile, findCssFile_trace in E.
    destruct (findCssFile_loop _ W root _) as [seen r] eqn:El. cbn [snd] in E. subst r.
    exact (findCssFile_loop_exit _ _ _ _ _ _ _ El).
Qed.

Lemma head_rest_exit (W : World) (o : Options) (stem : cstr) (code : Z) (msg : diagnostic) :
  head_rest W o stem = Exited code msg ->
  (exists root, cssRoot o = Some root
                /\ code = EXIT_NO_CSS_FILE /\ msg = msg_no_css root)
  \/ (code = EXIT_INVOKED_OUTSIDE_HTML_ROOT /\ msg = msg_outside_root).
Proof.
  rewrite head_rest_eq.
  pose proof (includeTxtFile_no_exit W stem []) as Ht.
  destruct (cssRoot o) as [root|].
  - destruct (includeCSSFile W root []) as [[[] w]| | | | |] eqn:Ec;
      cbn [written obind snd]; try discriminate.
    + destruct (includeTxtFile W stem []) as [[[] w']|c0 m0| | | |];
        cbn [written obind snd]; try discriminate.
      destruct (Ht c0 m0 eq_refl).
    + intros [= <- <-].
      destruct (includeCSSFile_exit _ _ _ _ _ Ec) as [[-> ->]|[-> ->]];
        [left; now exists root|now right].
  - cbn [obind].
    destruct (includeTxtFile W stem []) as [[[] w']|c0 m0| | | |];
      cbn [written obind snd]; try discriminate.
    destruct (Ht c0 m0 eq_refl).
Qed.

(** makeWebpage itself exits only from the search for a stylesheet. *)
Lemma makeWebpage_exit (W : World) (G : Globals) (code : Z) (msg : diagnostic) :
  makeWebpage W G = Exited code msg ->
  (exists root, cssRoot (options G) = Some root
                /\ code = EXIT_NO_CSS_FILE /\ msg = msg_no_css root)
  \/ (code = EXIT_INVOKED_OUTSIDE_HTML_ROOT /\ msg = msg_outside_root).
Proof.
  rewrite makeWebpage_items. destruct (w_fopen_w W _); [|discriminate].
  unfold page_items.
  destruct (author_item W _) as [author| | | | |] eqn:Ea; try discriminate;
    [|exfalso; unfold author_item in Ea; destruct (includeAuthor _); [|discriminate];
      destruct (w_user W); discriminate].
  destruct (datetime_item W _) as [datetime| | | | |] eqn:Ed; try discriminate;
    [|exfalso; unfold datetime_item in Ed; destruct (includeDatetime _); [|discriminate];
      destruct (w_strftime W); discriminate].
  destruct (head_rest W _ _) as [head| | | | |] eqn:Eh; try discriminate.
  - destruct (body_text W _ _) as [body| | | | |] eqn:Eb; try discriminate.
    exfalso. rewrite body_text_eq in Eb.
    destruct (w_fopen_r W (g_MarkdownFilename G)); [|discriminate].
    destruct (w_cmark W _); discriminate.
  - cbn [obind]. intros [= <- <-]. exact (head_rest_exit _ _ _ _ _ Eh).
Qed.

(** X13: the exits of a run of the program, each with its message: help, no
    markdown file, unknown option, css root not absolute, no stylesheet
    under the root, start outside the root. No run exits with
    EXIT_MISSING_VALUE. *)
Theorem main_exit_codes (W : World) (argv : list cstr) (code : Z) (msg : diagnostic) :
  main W argv = Exited code msg ->
  (code = EXIT_NORMAL /\ msg = msg_help)
  \/ (code = EXIT_NO_MARKDOWN /\ msg = msg_no_markdown)
  \/ (code = EXIT_UNKNOWN_OPTION /\ exists c, msg = msg_unknown_option c)
  \/ (code = EXIT_ABS_PATH_REQUIRED /\ msg = msg_abs_path_required)
  \/ (code = EXIT_NO_CSS_FILE /\ exists root, msg = msg_no_css root)
  \/ (code = EXIT_INVOKED_OUTSIDE_HTML_ROOT /\ msg = msg_outside_root).
Proof.
  unfold main, getOptions.
  destruct (parse_options_outcome argv) as [[[o naked] E]|[E|[[c E]|E]]]; rewrite E;
    try (intros [= <- <-]; tauto).
  - destruct naked as [|md [|x naked]]; try discriminate.
    + intros [= <- <-]. tauto.
    + intro H. destruct (makeWebpage_exit _ _ _ _ H) as [(root & _ & -> & ->)|[-> ->]].
      * do 4 right. left. split; [reflexivity|now exists root].
      * do 5 right. now split.
  - intros [= <- <-]. right. right. left. split; [reflexivity|now exists c].
Qed.

(** ** What the search for a stylesheet ends with *)

Lemma passed_nil (W : World) (root : cstr) (i : nat) : passed W root i i.
Proof. intros j Hj. lia. Qed.

Lemma passed_step (W : World) (root : cstr) (i k : nat) (entries : list cstr) :
  w_readdir W (ancestor W i) = Some entries -> find is_css_name entries = None ->
  render (ancestor W i) <> lit "/" -> render (ancestor W i) <> root ->
  passed W root (S i) k -> passed W root i k.
Proof.
  intros Hr Hf Hs Hroot H j Hj.
  destruct (Nat.eq_dec j i) as [->|Hne].
  - split; [now exists entries|now split].
  - apply H. lia.
Qed.

(** A search that ends with a result or with an exit has passed some
    directories and ended its last turn in the next. *)
Lemma findCssFile_loop_ends (W : World) (root : cstr) (fuel i : nat) (seen : list cstr)
    (r : outcome (option cstr)) :
  findCssFile_loop fuel W root (searchDir_at i) = (seen, r) ->
  (exists a, r = Done a) \/ (exists code msg, r = Exited code msg) ->
  exists k, i <= k /\ passed W root i k /\ turn W root k r.
Proof.
  revert i seen. induction fuel as [|fuel IH]; intros i seen H Hr.
  { injection H as _ <-. destruct Hr as [[? ?]|(? & ? & ?)]; discriminate. }
  destruct (w_readdir W (ancestor W i)) as [entries|] eqn:Hd.
  2:{ cbn [findCssFile_loop] in H. rewrite opendir_searchDir_at, Hd in H.
      injection H as _ <-. destruct Hr as [[? ?]|(? & ? & ?)]; discriminate. }
  rewrite (findCssFile_loop_at _ _ _ _ _ Hd) in H.
  destruct (find is_css_name entries) as [name|] eqn:Hf.
  - unfold strcat_searchDir in H.
    destruct (Nat.leb_spec (length (searchDir_at i ++ name)) SEARCH_DIR_SIZE) as [Hl|Hl].
    + injection H as _ <-. exists i. split; [lia|]. split; [apply passed_nil|].
      now apply (turn_found W root i entries name).
    + injection H as _ <-. destruct Hr as [[? ?]|(? & ? & ?)]; discriminate.
  - destruct (str_eqb (lit "/") (render (ancestor W i))) eqn:Es.
    + injection H as _ <-. exists i. split; [lia|]. split; [apply passed_nil|].
      apply (turn_exit W root i entries Hd Hf). symmetry. now apply str_eqb_eq.
    + apply str_eqb_neq in Es.
      destruct (strcat_searchDir (searchDir_at i) (lit "../")) as [sd| | | | |];
        try (cbv beta iota in H; injection H as _ <-;
             destruct Hr as [[? ?]|(? & ? & ?)]; discriminate).
      destruct (str_eqb (render (ancestor W i)) root) eqn:Eroot; cbn [negb] in H.
      * injection H as _ <-. exists i. split; [lia|]. split; [apply passed_nil|].
        apply (turn_none W root i entries Hd Hf); [congruence|now apply str_eqb_eq].
      * apply str_eqb_neq in Eroot.
        destruct (findCssFile_loop fuel W root (searchDir_at (S i))) as [seen' r'] eqn:E.
        injection H as _ ->.
        destruct (IH _ _ E Hr) as (k & Hk & Hp & Ht).
        exists k. split; [lia|]. split; [|exact Ht].
        apply (passed_step W root i k entries Hd Hf); [congruence|exact Eroot|exact Hp].
Qed.

Lemma ancestor_above (W : World) (k : nat) : length (w_cwd W) <= k -> ancestor W k = [].
Proof.
  intro H. unfold ancestor. replace (length (w_cwd W) - k) with 0 by lia. reflexivity.
Qed.

(** No directory on the way is the filesystem root, so the way is no longer
    than the working directory is deep. *)
Lemma passed_depth (W : World) (root : cstr) (k : nat) :
  passed W root 0 k -> k <= length (w_cwd W).
Proof.
  intro H. destruct k as [|k]; [lia|].
  destruct (H k ltac:(lia)) as (_ & Hs & _).
  destruct (Nat.le_gt_cases (length (w_cwd W)) k) as [Hle|Hgt]; [|lia].
  rewrite (ancestor_above W k Hle) in Hs. now contradiction Hs.
Qed.

(** X14: every path that findCssFile returns, in a run that stays within
    its search buffer, is [./], then [../] for each of the [k] levels it
    went up, then the first entry, in readdir order, of the directory [k]
    levels up whose name has [.css] in it; and no directory nearer to the
    start has such an entry or is the root given. *)
Theorem findCssFile_returns (W : World) (root path : cstr) :
  findCssFile W root = Done (Some path) ->
  exists k entries name,
    k <= length (w_cwd W)
    /\ path = lit "./" ++ concat (repeat (lit "../") k) ++ name
    /\ w_readdir W (ancestor W k) = Some entries
    /\ find is_css_name entries = Some name
    /\ In name entries /\ strstr name (lit ".css") = true
    /\ forall j, j < k ->
         (exists es, w_readdir W (ancestor W j) = Some es /\ find is_css_name es = None)
         /\ render (ancestor W j) <> root.
Proof.
  unfold findCssFile, findCssFile_trace. intro H.
  destruct (findCssFile_loop _ W root _) as [seen r] eqn:E. cbn [snd] in H. subst r.
  change (lit "./") with (searchDir_at 0) in E.
  destruct (findCssFile_loop_ends _ _ _ _ _ _ E) as (k & _ & Hp & Ht);
    [left; now eexists|].
  inversion Ht as [entries name Hd Hf Hl Hpath| |]; subst.
  exists k, entries, name.
  split; [exact (passed_depth _ _ _ Hp)|].
  split; [reflexivity|].
  split; [exact Hd|]. split; [exact Hf|].
  destruct (find_some _ _ Hf) as [Hin Hcss].
  split; [exact Hin|]. split; [exact Hcss|].
  intros j Hj. destruct (Hp j ltac:(lia)) as (He & _ & Hroot). now split.
Qed.

(** X15: findCssFile reports that there is no stylesheet only when the root
    it was given is the canonical path of the working directory or of a
    directory above it, is not [/], and no directory from the start up to
    that one has an entry with [.css] in its name. *)
Theorem findCssFile_finds_nothing (W : World) (root : cstr) :
  findCssFile W root = Done None ->
  exists k,
    k <= length (w_cwd W)
    /\ render (ancestor W k) = root /\ root <> lit "/"
    /\ forall j, j <= k ->
         exists es, w_readdir W (ancestor W j) = Some es /\ find is_css_name es = None.
Proof.
  unfold findCssFile, findCssFile_trace.
  destruct (findCssFile_loop _ W root _) as [seen r] eqn:E. cbn [snd].
  change (lit "./") with (searchDir_at 0) in E. intros ->.
  destruct (findCssFile_loop_ends _ _ _ _ _ _ E) as (k & _ & Hp & Ht);
    [left; now eexists|].
  inversion Ht as [|entries Hd Hf Hs Hroot|]; subst.
  exists k. split; [exact (passed_depth _ _ _ Hp)|].
  split; [reflexivity|]. split; [exact Hs|].
  intros j Hj. destruct (Nat.eq_dec j k) as [->|Hne]; [now exists entries|].
  now destruct (Hp j ltac:(lia)) as (He & _).
Qed.

(** X16: findCssFile exits only with EXIT_INVOKED_OUTSIDE_HTML_ROOT, and only
    when it has searched every directory from the start up to the filesystem
    root without finding an entry with [.css] in its name and without
    meeting the root it was given on the way. *)
Theorem findCssFile_exits (W : World) (root : cstr) (code : Z) (msg : diagnostic) :
  findCssFile W root = Exited code msg ->
  code = EXIT_INVOKED_OUTSIDE_HTML_ROOT /\ msg = msg_outside_root
  /\ exists k,
       k <= length (w_cwd W)
       /\ render (ancestor W k) = lit "/"
       /\ (forall j, j <= k ->
             exists es, w_readdir W (ancestor W j) = Some es
                        /\ find is_css_name es = None)
       /\ forall j, j < k -> render (ancestor W j) <> root.
Proof.
  unfold findCssFile, findCssFile_trace.
  destruct (findCssFile_loop _ W root _) as [seen r] eqn:E. cbn [snd].
  change (lit "./") with (searchDir_at 0) in E. intros ->.
  destruct (findCssFile_loop_ends _ _ _ _ _ _ E) as (k & _ & Hp & Ht);
    [right; now do 2 eexists|].
  inversion Ht as [| |entries Hd Hf Hs]; subst.
  split; [reflexivity|]. split; [reflexivity|].
  exists k. split; [exact (passed_depth _ _ _ Hp)|].
  split; [exact Hs|]. split.
  - intros j Hj. destruct (Nat.eq_dec j k) as [->|Hne]; [now exists entries|].
    now destruct (Hp j ltac:(lia)) as (He & _).
  - intros j Hj. now destruct (Hp j ltac:(lia)) as (_ & _ & Hroot).
Qed.

(** C2: with the boundary root [/] the search never ends with nothing
    found: findCssFile compares the canonical path of the directory it has
    searched with [/] before it compares it with the root it was given, so
    includeCSSFile never reports that there is no stylesheet under [/]. A
    run of [webpage -c / ./index.md] in /site, where neither /site nor /
    has a stylesheet, ends with the exit for a start outside the root
    hierarchy, although /site lies below the root [/]. *)
Theorem boundary_root_slash_is_never_reached :
  (forall W, findCssFile W (lit "/") <> Done None)
  /\ (forall W out,
        includeCSSFile W (lit "/") out <> Exited EXIT_NO_CSS_FILE (msg_no_css (lit "/")))
  /\ w_cwd rootfs_world = [lit "site"]
  /\ w_readdir rootfs_world [lit "site"] = Some [lit "."; lit ".."; lit "index.md"]
  /\ w_readdir rootfs_world [] = Some [lit "."; lit ".."; lit "site"]
  /\ fst (findCssFile_trace rootfs_world (lit "/")) = [lit "./"; lit "./../"]
  /\ findCssFile rootfs_world (lit "/")
     = Exited EXIT_INVOKED_OUTSIDE_HTML_ROOT msg_outside_root
  /\ main rootfs_world [lit "webpage"; lit "-c"; lit "/"; lit "./index.md"]
     = Exited EXIT_INVOKED_OUTSIDE_HTML_ROOT msg_outside_root.
Proof.
  assert (Hnone : forall W, findCssFile W (lit "/") <> Done None).
  { intros W H. unfold findCssFile, findCssFile_trace in H.
    destruct (findCssFile_loop _ W (lit "/") _) as [seen r] eqn:E. cbn [snd] in H. subst r.
    change (lit "./") with (searchDir_at 0) in E.
    destruct (findCssFile_loop_ends _ _ _ _ _ _ E) as (k & _ & _ & Ht);
      [left; now eexists|].
    inversion Ht as [|entries Hd Hf Hs Hroot|]; subst. contradiction. }
  split; [exact Hnone|]. split.
  - intros W out H. unfold includeCSSFile, bind at 1, lift in H.
    destruct (findCssFile W (lit "/")) as [[p|]| | | | |] eqn:E; try discriminate.
    + now apply (Hnone W).
    + injection H as Hc _. unfold findCssFile, findCssFile_trace in E.
      destruct (findCssFile_loop _ W (lit "/") _) as [seen r] eqn:El. cbn [snd] in E.
      subst r. destruct (findCssFile_loop_exit _ _ _ _ _ _ _ El) as [Hcode _].
      rewrite Hcode in Hc. discriminate Hc.
  - repeat split; vm_compute; reflexivity.
Qed.

(** The converse: a way up through directories without a stylesheet, and a
    last turn, make the run of the loop. *)
Lemma findCssFile_loop_reaches (W : World) (root : cstr) (k : nat)
    (r : outcome (option cstr)) :
  turn W root k r ->
  3 * k + 2 <= SEARCH_DIR_SIZE ->
  (r = Done None -> 3 * k + 5 <= SEARCH_DIR_SIZE) ->
  forall n i fuel,
    k = i + n -> n < fuel -> passed W root i k ->
    snd (findCssFile_loop fuel W root (searchDir_at i)) = r.
Proof.
  intros Ht Hk Hnone n. induction n as [|n IH]; intros i fuel Hi Hfuel Hp;
    (destruct fuel as [|fuel]; [lia|]).
  - assert (i = k) by lia. subst i. clear Hp.
    inversion Ht as [entries name Hd Hf Hl|entries Hd Hf Hs Hroot|entries Hd Hf Hs]; subst.
    + rewrite (findCssFile_loop_at _ _ _ _ _ Hd), Hf. cbn [snd].
      unfold strcat_searchDir.
      destruct (Nat.leb_spec (length (searchDir_at k ++ name)) SEARCH_DIR_SIZE);
        [reflexivity|lia].
    + rewrite (findCssFile_loop_at _ _ _ _ _ Hd), Hf.
      apply not_eq_sym in Hs. apply str_eqb_neq in Hs. rewrite Hs.
      rewrite strcat_fits
        by (rewrite length_searchDir_at; specialize (Hnone eq_refl); simpl; lia).
      rewrite str_eqb_refl. reflexivity.
    + rewrite (findCssFile_loop_at _ _ _ _ _ Hd), Hf.
      rewrite Hs, str_eqb_refl. reflexivity.
  - destruct (Hp i ltac:(lia)) as ((entries & Hd & Hf) & Hs & Hroot).
    rewrite (findCssFile_loop_at _ _ _ _ _ Hd), Hf.
    apply not_eq_sym in Hs. apply str_eqb_neq in Hs. rewrite Hs.
    apply str_eqb_neq in Hroot. rewrite Hroot. cbn [negb].
    rewrite strcat_fits by (rewrite length_searchDir_at; simpl; lia).
    specialize (IH (S i) fuel ltac:(lia) ltac:(lia)).
    destruct (findCssFile_loop fuel W root (searchDir_at (S i))) as [seen r'].
    cbn [snd] in *. apply IH. intros j Hj. apply Hp. lia.
Qed.

(** X26: what decides the result of findCssFile. When the directories from
    the start to just below the one [k] levels up can be read, have no entry
    with [.css] in its name and are neither [/] nor the root given, the
    search ends [k] levels up: with the path of the first such entry there,
    if there is one and the path fits the buffer; else with the exit for a
    start outside the root when that directory is [/]; else with nothing
    found when it is the root given. (The relative path of the directory,
    and one more [../] when nothing is found, must fit the buffer.) *)
Theorem findCssFile_ends_as (W : World) (root : cstr) (k : nat)
    (r : outcome (option cstr)) :
  passed W root 0 k ->
  turn W root k r ->
  3 * k + 2 <= SEARCH_DIR_SIZE ->
  (r = Done None -> 3 * k + 5 <= SEARCH_DIR_SIZE) ->
  findCssFile W root = r.
Proof.
  intros Hp Ht Hk Hnone. unfold findCssFile, findCssFile_trace.
  change (lit "./") with (searchDir_at 0).
  apply (findCssFile_loop_reaches W root k r Ht Hk Hnone k 0); [reflexivity| |exact Hp].
  pose proof (passed_depth _ _ _ Hp). lia.
Qed.

(** ** The whole page *)

(** What a copy that ends well has written. *)
Lemma copyFile_done (W : World) (input : file) (out out' : cstr) :
  (Z.of_nat (length (f_data input)) < 2 ^ 31)%Z ->
  copyFile W input out = Done (tt, out') ->
  out' = out ++ f_data input.
Proof.
  intros Hsize. unfold copyFile.
  destruct (Z.leb_spec (f_blksize input) 0) as [|Hblk]; [discriminate|].
  destruct (w_malloc W _) as [block|]; [|discriminate].
  rewrite (copyFile_loop_spec _ _ Hblk Hsize _ _ _ 0%Z);
    [|rewrite length_firstn, length_app, repeat_length; lia|lia|lia|lia].
  destruct (_ && _); [discriminate|].
  intro H. apply Done_inj in H. now injection H as <-.
Qed.

(** X17: the layout of every page that makeWebpage completes, item by item
    in the order written: the DOCTYPE line, the html and head tags, the
    title of the stem, the author and datetime comments, the link to the
    stylesheet that findCssFile returned, the sidecar file as it is, the end
    of the head, the body tag, the rendered markdown, the navigation
    comment, the closing tags. An item is absent exactly when its flag,
    option or file is; the sidecar file is taken to be under 2 GiB. *)
Theorem page_layout (W : World) (G : Globals) (page : cstr) :
  (forall txtFile, w_fopen_r W (g_RootFilename G ++ lit ".txt") = Some txtFile ->
                   (Z.of_nat (length (f_data txtFile)) < 2 ^ 31)%Z) ->
  makeWebpage W G = Done page ->
  exists author datetime link sidecar mdFile html,
    (if includeAuthor (options G)
     then exists user, w_user W = Some user /\ author = author_comment user
     else author = [])
    /\ (if includeDatetime (options G)
        then w_strftime W <> [] /\ datetime = datetime_comment (w_strftime W)
        else datetime = [])
    /\ match cssRoot (options G) with
       | Some root => exists path, findCssFile W root = Done (Some path)
                                   /\ link = stylesheet_link path
       | None => link = []
       end
    /\ match w_fopen_r W (g_RootFilename G ++ lit ".txt") with
       | Some txtFile => sidecar = f_data txtFile
       | None => sidecar = []
       end
    /\ w_fopen_r W (g_MarkdownFilename G) = Some mdFile
    /\ w_cmark W (f_data mdFile) = Some html
    /\ page = omit (negb (includeDTD (options G))) g_Doctype
             ++ g_PageOpenTag
             ++ g_HeadOpenTag
             ++ omit (negb (includeTitle (options G))) (title_element (g_RootFilename G))
             ++ author ++ datetime ++ link ++ sidecar
             ++ g_HeadCloseTag
             ++ g_BodyOpenTag
             ++ html
             ++ match navEmbedCode (options G) with
                | Some code => navigation_comment code
                | None => []
                end
             ++ g_BodyCloseTag
             ++ g_PageCloseTag.
Proof.
  intros Hsize H.
  destruct (makeWebpage_done _ _ _ H)
    as (author & datetime & head & body & Hau & Hda & Hh & Hb & ->).
  rewrite head_rest_eq in Hh. rewrite body_text_eq in Hb.
  destruct (w_fopen_r W (g_MarkdownFilename G)) as [mdFile|]; [|discriminate].
  destruct (w_cmark W (f_data mdFile)) as [html|] eqn:Hhtml; [|discriminate].
  apply Done_inj in Hb. subst body.
  assert (Hlink : exists link,
             match cssRoot (options G) with
             | Some root => exists path, findCssFile W root = Done (Some path)
                                         /\ link = stylesheet_link path
             | None => link = []
             end
             /\ obind (written (includeTxtFile W (g_RootFilename G) []))
                  (fun txt => Done (link ++ txt ++ g_HeadCloseTag)) = Done head).
  { destruct (cssRoot (options G)) as [root|].
    - destruct (findCssFile W root) as [[path|]| | | | |] eqn:Ef.
      + rewrite (includeCSSFile_found _ _ _ _ Ef) in Hh. cbn [written obind snd app] in Hh.
        exists (stylesheet_link path). split; [now exists path|exact Hh].
      + rewrite (includeCSSFile_not_found _ _ _ Ef) in Hh. discriminate.
      + unfold includeCSSFile, bind, lift in Hh. rewrite Ef in Hh. discriminate.
      + unfold includeCSSFile, bind, lift in Hh. rewrite Ef in Hh. discriminate.
      + unfold includeCSSFile, bind, lift in Hh. rewrite Ef in Hh. discriminate.
      + unfold includeCSSFile, bind, lift in Hh. rewrite Ef in Hh. discriminate.
      + unfold includeCSSFile, bind, lift in Hh. rewrite Ef in Hh. discriminate.
    - exists []. split; [reflexivity|exact Hh]. }
  destruct Hlink as (link & Hl & Hh'). clear Hh.
  assert (Hside : exists sidecar,
             match w_fopen_r W (g_RootFilename G ++ lit ".txt") with
             | Some txtFile => sidecar = f_data txtFile
             | None => sidecar = []
             end
             /\ head = link ++ sidecar ++ g_HeadCloseTag).
  { unfold includeTxtFile in Hh'.
    destruct (w_fopen_r W (g_RootFilename G ++ lit ".txt")) as [txtFile|].
    - destruct (copyFile W txtFile []) as [[[] w]| | | | |] eqn:Ec; try discriminate.
      rewrite (copyFile_done _ _ _ _ (Hsize txtFile eq_refl) Ec) in Hh'.
      cbn [written obind snd app] in Hh'. apply Done_inj in Hh'.
      exists (f_data txtFile). now split.
    - cbn [written obind snd ret] in Hh'. apply Done_inj in Hh'. exists []. now split. }
  destruct Hside as (sidecar & Hs & ->).
  exists author, datetime, link, sidecar, mdFile, html.
  split.
  { unfold author_item in Hau. destruct (includeAuthor (options G)).
    - destruct (w_user W) as [user|]; [|discriminate]. apply Done_inj in Hau.
      now exists user.
    - now apply Done_inj in Hau. }
  split.
  { unfold datetime_item in Hda. destruct (includeDatetime (options G)).
    - destruct (w_strftime W) as [|t0 t]; [discriminate|]. apply Done_inj in Hda.
      split; [discriminate|now symmetry].
    - now apply Done_inj in Hda. }
  split; [exact Hl|]. split; [exact Hs|]. split; [reflexivity|]. split; [exact Hhtml|].
  now rewrite <- ?app_assoc.
Qed.

Lemma copyFile_copies (W : World) (input : file) (out : cstr) :
  (0 < f_blksize input)%Z ->
  w_malloc W (f_blksize input) <> None ->
  (Z.of_nat (length (f_data input)) < 2 ^ 31)%Z ->
  f_data input = [] \/ (Z.of_nat (length (f_data input)) mod f_blksize input <> 0)%Z ->
  copyFile W input out = Done (tt, out ++ f_data input).
Proof.
  intros Hblk Hm Hsize Hrem. unfold copyFile.
  destruct (Z.leb_spec (f_blksize input) 0); [lia|].
  destruct (w_malloc W _) as [block|]; [|contradiction].
  rewrite (copyFile_loop_spec _ _ Hblk Hsize _ _ _ 0%Z);
    [|rewrite length_firstn, length_app, repeat_length; lia|lia|lia|lia].
  destruct Hrem as [->|Hrem]; [reflexivity|].
  apply Z.eqb_neq in Hrem. rewrite Hrem. now rewrite andb_false_r.
Qed.

(** X18: makeWebpage completes the page when the html file can be opened for
    writing, the user is known and the time can be formatted (each unless
    its flag is set), the search finds a stylesheet (when a root is given),
    the sidecar file, if there is one, is under 2 GiB with a size that is 0
    or no multiple of its block size, and the markdown file can be read and
    rendered. *)
Theorem page_is_made (W : World) (G : Globals) :
  w_fopen_w W (g_WebpageFilename G) = true ->
  (includeAuthor (options G) = true -> w_user W <> None) ->
  (includeDatetime (options G) = true -> w_strftime W <> []) ->
  (forall root, cssRoot (options G) = Some root ->
                exists path, findCssFile W root = Done (Some path)) ->
  (forall txtFile,
      w_fopen_r W (g_RootFilename G ++ lit ".txt") = Some txtFile ->
      (0 < f_blksize txtFile)%Z
      /\ w_malloc W (f_blksize txtFile) <> None
      /\ (Z.of_nat (length (f_data txtFile)) < 2 ^ 31)%Z
      /\ (f_data txtFile = []
          \/ (Z.of_nat (length (f_data txtFile)) mod f_blksize txtFile <> 0)%Z)) ->
  (exists mdFile html,
      w_fopen_r W (g_MarkdownFilename G) = Some mdFile
      /\ w_cmark W (f_data mdFile) = Some html) ->
  exists page, makeWebpage W G = Done page.
Proof.
  intros Hw Ha Hd Hc Hs (mdFile & html & Hmd & Hhtml).
  rewrite makeWebpage_items, Hw. unfold page_items, author_item, datetime_item.
  assert (Hau : exists author,
             (if includeAuthor (options G)
              then match w_user W with
                   | Some user => Done (author_comment user)
                   | None => Aborted assert_passwd
                   end
              else Done []) = Done author).
  { destruct (includeAuthor (options G)); [|now eexists].
    destruct (w_user W); [now eexists|now destruct Ha]. }
  destruct Hau as [author ->].
  assert (Hda : exists datetime,
             (if includeDatetime (options G)
              then match w_strftime W with
                   | [] => Aborted assert_strftime
                   | _ :: _ => Done (datetime_comment (w_strftime W))
                   end
              else Done []) = Done datetime).
  { destruct (includeDatetime (options G)); [|now eexists].
    destruct (w_strftime W); [now destruct Hd|now eexists]. }
  destruct Hda as [datetime Hda].
  assert (Hhead : exists head,
             head_rest W (options G) (g_RootFilename G) = Done head).
  { rewrite head_rest_eq.
    assert (Htxt : exists txt,
               written (includeTxtFile W (g_RootFilename G) []) = Done txt).
    { unfold includeTxtFile.
      destruct (w_fopen_r W (g_RootFilename G ++ lit ".txt")) as [txtFile|];
        [|now eexists].
      destruct (Hs txtFile eq_refl) as (H1 & H2 & H3 & H4).
      rewrite (copyFile_copies _ _ _ H1 H2 H3 H4). now eexists. }
    destruct Htxt as [txt Htxt].
    destruct (cssRoot (options G)) as [root|].
    - destruct (Hc root eq_refl) as [path Hp].
      rewrite (includeCSSFile_found _ _ _ _ Hp). cbn [written obind snd].
      rewrite Htxt. now eexists.
    - cbn [obind]. rewrite Htxt. now eexists. }
  destruct Hhead as [head Hhead].
  cbn [obind].
  match goal with
  | |- context [obind ?d _] =>
      replace d with (Done (A := cstr) datetime)
  end.
  2:{ rewrite <- Hda. destruct (includeDatetime (options G)); [|reflexivity].
      destruct (w_strftime W); reflexivity. }
  cbn [obind]. rewrite Hhead, body_text_eq, Hmd, Hhtml. cbn [obind]. now eexists.
Qed.

(** ** More on the link rewrite *)

Section LinkRewriteMore.

Import Script.

(** No occurrence of [md_link] starts in front of one and ends inside it. *)
Lemma no_match_across (c : ascii) (a b : cstr) :
  has_prefix md_link (c :: a) = false ->
  has_prefix md_link (c :: a ++ md_link ++ b) = false.
Proof.
  intro H.
  destruct a as [|a1 [|a2 [|a3 [|a4 a]]]]; try exact H;
    change md_link with ["."%char; "m"%char; "d"%char; DQ; ">"%char];
    cbn [app has_prefix];
    repeat match goal with
           | |- context [Ascii.eqb ?x ?y] =>
               lazymatch x with
               | Ascii _ _ _ _ _ _ _ _ =>
                   lazymatch y with
                   | Ascii _ _ _ _ _ _ _ _ => fail
                   | _ => destruct (Ascii.eqb x y)
                   end
               end
           end; reflexivity.
Qed.

Lemma substitute_at_occurrence (a b : cstr) :
  substitute (a ++ md_link ++ b) = substitute a ++ html_link ++ substitute b.
Proof.
  induction a as [| rest IH | c rest Hc IH] using substitute_ind.
  - apply substitute_match.
  - rewrite <- app_assoc, !substitute_match, IH. now rewrite <- app_assoc.
  - rewrite (substitute_skip _ _ Hc). cbn [app]. rewrite <- IH.
    apply substitute_skip. now apply no_match_across.
Qed.

End LinkRewriteMore.

(** X19: the link rewrite replaces the five characters wherever they stand:
    a text with them in it is rewritten to the rewritten text before them,
    the replacement, and the rewritten text after them. *)
Theorem link_rewrite_at_every_occurrence (before after : cstr) :
  Script.sed (before ++ Script.md_link ++ after)
  = Script.sed before ++ Script.html_link ++ Script.sed after.
Proof. rewrite !sed_substitute. apply substitute_at_occurrence. Qed.

(** X20: the link rewrite leaves a text as it is exactly when the five
    characters do not occur in it. *)
Theorem link_rewrite_changes_what_has_a_link (text : cstr) :
  Script.sed text = text <-> strstr text Script.md_link = false.
Proof.
  rewrite sed_substitute. split.
  - intro H. rewrite <- H. apply substitute_no_md_link.
  - apply substitute_fixed.
Qed.

(** ** The passes of find over the tree *)

Lemma node_induction (P : Script.node -> Prop) :
  (forall data, P (Script.File data)) ->
  (forall es, Forall (fun e => P (snd e)) es -> P (Script.Dir es)) ->
  forall n, P n.
Proof.
  intros HF HD. fix IH 1. intros [data|es]; [apply HF|]. apply HD.
  induction es as [|[name child] es IHes]; constructor; [apply IH|exact IHes].
Qed.

Section Passes.

Import Script.

Variable ext : cstr.

(** An entry whose name does not match the pattern is found after the pass
    where it was, with the pass done on what is below it. *)
Lemma lookup_find_delete_node (path : list cstr) (name : cstr) (t n : node) :
  name_matches ext name = false ->
  lookup (path ++ [name]) t = Some n ->
  lookup (path ++ [name]) (find_delete ext t) = Some (find_delete ext n).
Proof.
  intro Hm. revert t. induction path as [|d path IH]; intros [data|es];
    cbn [app lookup]; try discriminate; rewrite find_delete_Dir; cbn [lookup].
  - destruct (entry name es) as [child|] eqn:E; [|discriminate].
    intros [= ->]. rewrite (entry_prune _ _ _ _ E); [reflexivity|].
    now rewrite Hm.
  - destruct (entry d es) as [child|] eqn:E; [|discriminate].
    intro H. specialize (IH _ H).
    rewrite (entry_prune _ _ _ _ E); [exact IH|].
    destruct (find_delete ext child) as [data|[|e es']].
    + destruct path; discriminate IH.
    + destruct path; discriminate IH.
    + apply andb_false_r.
Qed.

Lemma prune_idempotent (es : list (cstr * node)) :
  Forall (fun e => find_delete ext (find_delete ext (snd e)) = find_delete ext (snd e)) es ->
  prune ext (prune ext es) = prune ext es.
Proof.
  induction 1 as [|[name child] es Hc H IH]; [reflexivity|]. cbn [snd] in Hc.
  rewrite prune_cons.
  destruct (name_matches ext name && removable (find_delete ext child)) eqn:E;
    [exact IH|].
  now rewrite prune_cons, Hc, E, IH.
Qed.

Lemma find_delete_twice (t : node) :
  find_delete ext (find_delete ext t) = find_delete ext t.
Proof.
  induction t as [data|es IH] using node_induction; [reflexivity|].
  rewrite !find_delete_Dir. f_equal. now apply prune_idempotent.
Qed.

Lemma rewrite_links_Dir (es : list (cstr * node)) :
  rewrite_links (Dir es) = Dir (rewrite_entries es).
Proof.
  cbn [rewrite_links]. f_equal. unfold rewrite_entries.
  induction es as [|[name child] es IH]; [reflexivity|]. cbn [map fst snd].
  now rewrite IH.
Qed.

Lemma removable_rewrite_links (n : node) : removable (rewrite_links n) = removable n.
Proof. destruct n as [data|[|[name child] es]]; reflexivity. Qed.

Lemma find_delete_rewrite_entry (name : cstr) (child : node) :
  find_delete ext (rewrite_links child) = rewrite_links (find_delete ext child) ->
  find_delete ext (rewrite_entry name child) = rewrite_entry name (find_delete ext child).
Proof.
  destruct child as [data|es]; [reflexivity|]. intro H. exact H.
Qed.

Lemma find_delete_rewrite_links (t : node) :
  find_delete ext (rewrite_links t) = rewrite_links (find_delete ext t).
Proof.
  induction t as [data|es IH] using node_induction; [reflexivity|].
  rewrite rewrite_links_Dir, !find_delete_Dir, rewrite_links_Dir. f_equal.
  induction IH as [|[name child] es Hc H IH]; [reflexivity|]. cbn [snd] in Hc.
  unfold rewrite_entries in *. cbn [map fst snd]. rewrite !prune_cons.
  rewrite (find_delete_rewrite_entry name child Hc).
  assert (Hr : removable (rewrite_entry name (find_delete ext child))
               = removable (find_delete ext child)).
  { destruct (find_delete ext child) as [data|es']; [reflexivity|].
    apply removable_rewrite_links. }
  rewrite Hr.
  destruct (name_matches ext name && removable (find_delete ext child));
    [exact IH|]. cbn [map fst snd]. now rewrite IH.
Qed.

End Passes.

(** X5: the tidy up keeps every entry, file or directory, whose name ends in
    none of [.md], [.backup] and [.txt]: it is found at its path as before,
    a directory as the tidy up leaves what is in it. So no directory on the
    way to such an entry is removed, whatever its own name is. *)
Theorem tidy_up_keeps_deployable_entries (htmlroot n : Script.node) (path : list cstr)
    (name : cstr) :
  Script.deployable_name name = true ->
  Script.lookup (path ++ [name]) htmlroot = Some n ->
  Script.lookup (path ++ [name]) (Script.cleanup htmlroot) = Some (Script.cleanup n).
Proof.
  intros Hn H. unfold Script.deployable_name in Hn. apply negb_true_iff in Hn.
  apply orb_false_iff in Hn as [Hn Htxt]. apply orb_false_iff in Hn as [Hmd Hbackup].
  unfold Script.cleanup. now repeat apply lookup_find_delete_node.
Qed.

(** X23: each of the three [find -delete] passes is idempotent, but the three
    run one after the other are not: the pass for [.txt] can empty a
    directory that the pass for [.md] had to leave, and a second tidy up
    then removes it. *)
Theorem find_pass_is_idempotent :
  (forall ext t,
      Script.find_delete ext (Script.find_delete ext t) = Script.find_delete ext t)
  /\ exists t, Script.cleanup (Script.cleanup t) <> Script.cleanup t.
Proof.
  split; [exact find_delete_twice|].
  exists (Script.Dir [(lit "old.md", Script.Dir [(lit "notes.txt", Script.File [])])]).
  vm_compute. discriminate.
Qed.

(** X22: the tidy up and the link rewrite can be done in either order. *)
Theorem tidy_up_and_link_rewrite_commute (t : Script.node) :
  Script.cleanup (Script.rewrite_links t) = Script.rewrite_links (Script.cleanup t).
Proof. unfold Script.cleanup. now rewrite !find_delete_rewrite_links. Qed.

Section LinkRewriteOfTheTree.

Import Script.

Lemma entry_rewrite_entries (name : cstr) (es : list (cstr * node)) :
  entry name (rewrite_entries es) = option_map (rewrite_entry name) (entry name es).
Proof.
  induction es as [|[n c] es IH]; [reflexivity|].
  unfold rewrite_entries in *. cbn [map fst snd entry].
  destruct (str_eqb n name) eqn:E; [|exact IH].
  apply str_eqb_eq in E. now subst n.
Qed.

Lemma lookup_rewrite_links (path : list cstr) (name : cstr) (t n : node) :
  lookup (path ++ [name]) t = Some n ->
  lookup (path ++ [name]) (rewrite_links t) = Some (rewrite_entry name n).
Proof.
  revert t. induction path as [|d path IH]; intros [data|es];
    cbn [app lookup]; try discriminate; rewrite rewrite_links_Dir; cbn [lookup];
    rewrite entry_rewrite_entries.
  - destruct (entry name es) as [child|]; [|discriminate]. now intros [= ->].
  - destruct (entry d es) as [child|] eqn:E; [|discriminate]. cbn [option_map].
    intro H. destruct child as [data|es'].
    + destruct path; discriminate H.
    + exact (IH _ H).
Qed.

End LinkRewriteOfTheTree.

(** X21: the link rewrite over the tree: a file whose name ends in [.html]
    holds the rewritten text afterwards, every other file what it held, each
    at its path; and a second run over the tree changes nothing. *)
Theorem link_rewrite_of_the_tree (t : Script.node) :
  (forall path name data,
      Script.lookup (path ++ [name]) t = Some (Script.File data) ->
      Script.lookup (path ++ [name]) (Script.rewrite_links t)
      = Some (Script.File (if Script.name_matches (lit ".html") name
                           then Script.sed data else data)))
  /\ Script.rewrite_links (Script.rewrite_links t) = Script.rewrite_links t.
Proof.
  split.
  - intros path name data H. exact (lookup_rewrite_links _ _ _ _ H).
  - induction t as [data|es IH] using node_induction; [reflexivity|].
    rewrite !rewrite_links_Dir. f_equal. unfold Script.rewrite_entries. rewrite map_map.
    apply map_ext_Forall. revert IH. apply Forall_impl. intros [name child] Hc.
    cbn [fst snd] in *. f_equal.
    destruct child as [data|es']; [|exact Hc].
    cbn [Script.rewrite_entry]. f_equal. unfold Script.rewrite_file.
    destruct (Script.name_matches (lit ".html") name); [|reflexivity].
    rewrite !sed_substitute. apply substitute_fixed, substitute_no_md_link.
Qed.

(** ** The arguments that the build script passes *)

Section ScriptOptions.

Import Script.

Lemma set_var_css (v v' : Vars) (r : getopt_result) :
  set_var v r = Some v' -> css v <> [] -> css v' <> [].
Proof.
  destruct r as [c optarg| |]; cbn [set_var]; try discriminate.
  repeat match goal with
         | |- context [if ?b then _ else _] => destruct b
         end; intros [= <-]; cbn [css]; try trivial; discriminate.
Qed.

Lemma set_vars_css (rs : list getopt_result) (v v' : Vars) :
  set_vars v rs = Some v' -> css v <> [] -> css v' <> [].
Proof.
  revert v. induction rs as [|r rs IH]; intros v; cbn [set_vars].
  - now intros [= <-].
  - destruct (set_var v r) as [v1|] eqn:E; [|discriminate].
    intros H Hc. exact (IH _ H (set_var_css _ _ _ E Hc)).
Qed.

(** Whatever options the script is given, [css] is never the empty word. *)
Lemma read_options_css (pwd_name : cstr) (args : list cstr) (v : Vars) :
  read_options pwd_name args = Some v -> css v <> [].
Proof.
  intro H. apply (set_vars_css _ _ _ H). discriminate.
Qed.

Lemma fields_from_word (s word rest : cstr) :
  forallb (fun c => negb (is_ifs c)) s = true ->
  word ++ s <> [] ->
  fields_from word (s ++ " "%char :: rest) = (word ++ s) :: fields_from [] rest.
Proof.
  revert word. induction s as [|c s IH]; intros word Hs Hne.
  - rewrite app_nil_r in *. cbn [app fields_from].
    change (is_ifs " ") with true. cbv iota.
    destruct word; [contradiction|reflexivity].
  - cbn [forallb] in Hs. apply andb_true_iff in Hs as [Hc Hs].
    apply negb_true_iff in Hc. cbn [app fields_from]. rewrite Hc.
    rewrite IH; [now rewrite <- app_assoc|exact Hs|].
    destruct word; discriminate.
Qed.

Lemma fields_one_word (s : cstr) :
  one_word s = true -> fields (s ++ lit " ") = [s].
Proof.
  unfold one_word. intro H. apply andb_true_iff in H as [Hne Hs].
  unfold fields. change (lit " ") with (" "%char :: []).
  rewrite fields_from_word; [reflexivity|exact Hs|].
  destruct s; [discriminate|discriminate].
Qed.

Lemma fields_cssOption (v : Vars) (abshtmlroot : cstr) :
  css v <> [] -> one_word abshtmlroot = true ->
  fields (cssOption v abshtmlroot) = [lit "-c"; abshtmlroot].
Proof.
  intros Hc Hw. unfold cssOption, test_nonempty.
  destruct (css v); [contradiction|]. cbn [str_eqb negb].
  change (fields (lit " -c " ++ abshtmlroot ++ lit " "))
    with (lit "-c" :: fields (abshtmlroot ++ lit " ")).
  now rewrite fields_one_word.
Qed.

Lemma fields_verboseOption (v : Vars) :
  fields (verboseOption v) = [] \/ fields (verboseOption v) = [lit "-v"].
Proof.
  unfold verboseOption. destruct (test_equal _ _); [now right|now left].
Qed.

End ScriptOptions.

(** X24: whatever options the script is started with, with its [-c] or
    without, the words that its unquoted [${cssOption}] gives to every run
    of webpage are [-c] and the html root: for an html root that is one word
    for the shell and has no pattern character in it, and whatever files
    there are for a pattern to match. *)
Theorem script_always_passes_css_root (pwd_name : cstr) (args : list cstr) (v : Script.Vars)
    (abshtmlroot : cstr) (matches : cstr -> list cstr) :
  Script.read_options pwd_name args = Some v ->
  one_word abshtmlroot = true ->
  Script.is_pattern abshtmlroot = false ->
  Script.expand matches (Script.fields (Script.cssOption v abshtmlroot))
  = [lit "-c"; abshtmlroot].
Proof.
  intros H Hw Hp. rewrite fields_cssOption; [|exact (read_options_css _ _ _ H)|exact Hw].
  unfold Script.expand. cbn [flat_map app]. rewrite Hp. reflexivity.
Qed.

(** X3: the script hands its flags to webpage as [-F], an option that
    webpage does not have (it reads [-f]): once flags are set, every run of
    webpage exits with EXIT_UNKNOWN_OPTION, whatever the flags and the other
    settings are. *)
Theorem script_flags_are_never_accepted (W : World) (v : Script.Vars)
    (abshtmlroot name : cstr) :
  Script.flags v <> [] ->
  main W (Script.webpage_argv v abshtmlroot name)
  = Exited EXIT_UNKNOWN_OPTION (msg_unknown_option "F").
Proof.
  intro Hf. unfold Script.webpage_argv.
  assert (HF : exists words, Script.fields (Script.flagsOption v) = lit "-F" :: words).
  { unfold Script.flagsOption, Script.test_equal.
    destruct (Script.flags v) as [|c fl]; [contradiction|].
    cbn [str_eqb negb]. eexists. reflexivity. }
  destruct HF as [words ->]. apply main_of_second_pass.
  destruct (fields_verboseOption v) as [-> | ->]; cbn [app].
  - apply second_pass_F.
  - apply second_pass_behind_v, second_pass_F.
Qed.

(** X25: a build with a navigation embed code makes no page: the script
    passes [-c root -n code], webpage moves the root behind [-n] and reads
    [-n] as the css root, and every run exits with EXIT_ABS_PATH_REQUIRED. *)
Theorem script_navigation_code_fails (W : World) (pwd_name : cstr) (args : list cstr)
    (v : Script.Vars) (abshtmlroot name : cstr) :
  Script.read_options pwd_name args = Some v ->
  Script.flags v = [] ->
  Script.navembedcode v <> [] ->
  one_word abshtmlroot = true ->
  has_prefix (lit "/") abshtmlroot = true ->
  main W (Script.webpage_argv v abshtmlroot name)
  = Exited EXIT_ABS_PATH_REQUIRED msg_abs_path_required.
Proof.
  intros Hv Hf Hn Hw Habs. unfold Script.webpage_argv.
  rewrite (fields_cssOption _ _ (read_options_css _ _ _ Hv) Hw).
  assert (HF : Script.fields (Script.flagsOption v) = []).
  { unfold Script.flagsOption. now rewrite Hf. }
  assert (HN : exists words, Script.fields (Script.navembedcodeOption v) = lit "-n" :: words).
  { unfold Script.navembedcodeOption, Script.test_equal.
    destruct (Script.navembedcode v) as [|c nav]; [contradiction|].
    cbn [str_eqb negb]. eexists. reflexivity. }
  destruct HN as [words HN]. rewrite HF, HN.
  assert (Hr : option_like abshtmlroot = false).
  { destruct abshtmlroot as [|c [|c' r]]; try reflexivity.
    change (Ascii.eqb "/" c && true = true) in Habs. rewrite andb_true_r in Habs.
    apply Ascii.eqb_eq in Habs. now subst c. }
  apply main_of_second_pass.
  destruct (fields_verboseOption v) as [-> | ->]; cbn [app].
  - now apply second_pass_c_n.
  - apply second_pass_behind_v. now apply second_pass_c_n.
Qed.

(** ** Instances of the further properties *)

Lemma first_pass_partitions_witness :
  first_pass [lit "webpage"; lit "./index.md"; lit "-c"; lit "/srv/site_html"; lit "-v"]
  = (true, [lit "-c"; lit "-v"; lit "./index.md"; lit "/srv/site_html"]).
Proof.
  apply (first_pass_partitions (lit "webpage")
           [lit "./index.md"; lit "-c"; lit "/srv/site_html"; lit "-v"]).
  repeat constructor; discriminate.
Defined.

Lemma relative_css_root_is_refused_witness :
  main (html_root_world []) [lit "webpage"; lit "-c"; lit "site_html"; lit "./index.md"]
  = Exited EXIT_ABS_PATH_REQUIRED msg_abs_path_required.
Proof.
  apply (relative_css_root_is_refused (html_root_world []) (lit "webpage")
           (lit "site_html") [lit "./index.md"]).
  reflexivity.
Defined.

Lemma css_root_then_nav_is_refused_witness :
  main (html_root_world [])
    [lit "webpage"; lit "-c"; lit "/srv/site_html"; lit "-n"; lit "NAV"; lit "./index.md"]
  = Exited EXIT_ABS_PATH_REQUIRED msg_abs_path_required.
Proof.
  apply (css_root_then_nav_is_refused (html_root_world []) (lit "webpage")
           (lit "/srv/site_html") [lit "NAV"; lit "./index.md"]).
  reflexivity.
Defined.

Lemma help_is_first_option_witness :
  main (html_root_world [])
    (lit "webpage" :: [lit "./index.md"] ++ lit "-h" :: [lit "-x"; lit "other.md"])
  = Exited EXIT_NORMAL msg_help.
Proof.
  apply (help_is_first_option (html_root_world []) (lit "webpage") [lit "./index.md"]
           [lit "-x"; lit "other.md"]).
  repeat constructor.
Defined.

Lemma flags_add_up_witness :
  exists v : bool,
    getOptions [lit "webpage"; lit "-f" ++ lit "0x01"; lit "-f" ++ lit "0x04";
                lit "./index.md"]
    = Done {| options := apply_flags (Z.lor (strtol16 (lit "0x01")) (strtol16 (lit "0x04")))
                           (if v then set_verbose true g_Options else g_Options);
              g_MarkdownFilename := lit "./index.md";
              g_RootFilename := strip_extension (lit "./index.md") |}.
Proof.
  apply (flags_add_up (lit "webpage") (lit "0x01") (lit "0x04") (lit "./index.md")).
  - discriminate.
  - discriminate.
  - reflexivity.
Defined.

Lemma main_exit_codes_witness :
  main (html_root_world []) [lit "webpage"] = Exited EXIT_NO_MARKDOWN msg_no_markdown
  /\ ((EXIT_NO_MARKDOWN = EXIT_NORMAL /\ msg_no_markdown = msg_help)
      \/ (EXIT_NO_MARKDOWN = EXIT_NO_MARKDOWN /\ msg_no_markdown = msg_no_markdown)
      \/ (EXIT_NO_MARKDOWN = EXIT_UNKNOWN_OPTION
          /\ exists c, msg_no_markdown = msg_unknown_option c)
      \/ (EXIT_NO_MARKDOWN = EXIT_ABS_PATH_REQUIRED /\ msg_no_markdown = msg_abs_path_required)
      \/ (EXIT_NO_MARKDOWN = EXIT_NO_CSS_FILE /\ exists root, msg_no_markdown = msg_no_css root)
      \/ (EXIT_NO_MARKDOWN = EXIT_INVOKED_OUTSIDE_HTML_ROOT
          /\ msg_no_markdown = msg_outside_root)).
Proof.
  split; [reflexivity|].
  apply (main_exit_codes (html_root_world []) [lit "webpage"]). reflexivity.
Defined.

Lemma findCssFile_returns_witness :
  let W := docs_world [lit "style.css"] in
  exists k entries name,
    k <= length (w_cwd W)
    /\ lit "./../style.css" = lit "./" ++ concat (repeat (lit "../") k) ++ name
    /\ w_readdir W (ancestor W k) = Some entries
    /\ find is_css_name entries = Some name
    /\ In name entries /\ strstr name (lit ".css") = true
    /\ forall j, j < k ->
         (exists es, w_readdir W (ancestor W j) = Some es /\ find is_css_name es = None)
         /\ render (ancestor W j) <> lit "/srv".
Proof.
  apply (findCssFile_returns (docs_world [lit "style.css"]) (lit "/srv")
           (lit "./../style.css")).
  reflexivity.
Defined.

Lemma findCssFile_finds_nothing_witness :
  let W := docs_world [] in
  exists k,
    k <= length (w_cwd W)
    /\ render (ancestor W k) = lit "/srv" /\ lit "/srv" <> lit "/"
    /\ forall j, j <= k ->
         exists es, w_readdir W (ancestor W j) = Some es /\ find is_css_name es = None.
Proof.
  apply (findCssFile_finds_nothing (docs_world []) (lit "/srv")). reflexivity.
Defined.

Lemma findCssFile_exits_witness :
  let W := docs_world [] in
  EXIT_INVOKED_OUTSIDE_HTML_ROOT = EXIT_INVOKED_OUTSIDE_HTML_ROOT
  /\ msg_outside_root = msg_outside_root
  /\ exists k,
       k <= length (w_cwd W)
       /\ render (ancestor W k) = lit "/"
       /\ (forall j, j <= k ->
             exists es, w_readdir W (ancestor W j) = Some es
                        /\ find is_css_name es = None)
       /\ forall j, j < k -> render (ancestor W j) <> lit "/home/mark/site_html".
Proof.
  apply (findCssFile_exits (docs_world []) (lit "/home/mark/site_html")). reflexivity.
Defined.

Lemma page_layout_witness :
  let W := html_root_world [meta_sidecar] in
  let G := index_globals (set_cssRoot (Some (lit "/srv/site_html")) g_Options) in
  exists page,
    makeWebpage W G = Done page
    /\ exists author datetime link sidecar mdFile html,
      (if includeAuthor (options G)
       then exists user, w_user W = Some user /\ author = author_comment user
       else author = [])
      /\ (if includeDatetime (options G)
          then w_strftime W <> [] /\ datetime = datetime_comment (w_strftime W)
          else datetime = [])
      /\ match cssRoot (options G) with
         | Some root => exists path, findCssFile W root = Done (Some path)
                                     /\ link = stylesheet_link path
         | None => link = []
         end
      /\ match w_fopen_r W (g_RootFilename G ++ lit ".txt") with
         | Some txtFile => sidecar = f_data txtFile
         | None => sidecar = []
         end
      /\ w_fopen_r W (g_MarkdownFilename G) = Some mdFile
      /\ w_cmark W (f_data mdFile) = Some html
      /\ page = omit (negb (includeDTD (options G))) g_Doctype
               ++ g_PageOpenTag
               ++ g_HeadOpenTag
               ++ omit (negb (includeTitle (options G))) (title_element (g_RootFilename G))
               ++ author ++ datetime ++ link ++ sidecar
               ++ g_HeadCloseTag
               ++ g_BodyOpenTag
               ++ html
               ++ match navEmbedCode (options G) with
                  | Some code => navigation_comment code
                  | None => []
                  end
               ++ g_BodyCloseTag
               ++ g_PageCloseTag.
Proof.
  eexists. split; [vm_compute; reflexivity|].
  apply (page_layout (html_root_world [meta_sidecar])
           (index_globals (set_cssRoot (Some (lit "/srv/site_html")) g_Options))).
  - intros txtFile H. vm_compute in H. injection H as <-. reflexivity.
  - vm_compute. reflexivity.
Defined.

Lemma page_is_made_witness :
  exists page,
    makeWebpage (html_root_world [meta_sidecar])
      (index_globals (set_cssRoot (Some (lit "/srv/site_html")) g_Options))
    = Done page.
Proof.
  apply (page_is_made (html_root_world [meta_sidecar])
           (index_globals (set_cssRoot (Some (lit "/srv/site_html")) g_Options))).
  - reflexivity.
  - intros _. discriminate.
  - intros _. discriminate.
  - intros root H. injection H as <-. eexists. vm_compute. reflexivity.
  - intros txtFile H. vm_compute in H. injection H as <-.
    split; [reflexivity|]. split; [discriminate|]. split; [reflexivity|].
    right. discriminate.
  - eexists. eexists. split; reflexivity.
Defined.

Lemma tidy_up_keeps_deployable_entries_witness :
  Script.lookup ([] ++ [lit "img"]) (Script.cleanup example_tree)
  = Some (Script.cleanup
            (Script.Dir [(lit "logo.png", Script.File (lit "PNG"));
                         (lit "logo.png.backup", Script.File (lit "PNG"))])).
Proof.
  apply (tidy_up_keeps_deployable_entries example_tree _ [] (lit "img")); reflexivity.
Defined.

Lemma script_always_passes_css_root_witness :
  exists v,
    Script.read_options (lit "site") [lit "-v"] = Some v
    /\ Script.css v = lit "false"
    /\ Script.expand (fun _ => [lit "index.md"; lit "style.css"])
         (Script.fields (Script.cssOption v (lit "/srv/site_html")))
       = [lit "-c"; lit "/srv/site_html"].
Proof.
  eexists. split; [reflexivity|]. split; [reflexivity|].
  apply (script_always_passes_css_root (lit "site") [lit "-v"]); reflexivity.
Defined.

Lemma script_flags_are_never_accepted_witness :
  exists v,
    Script.read_options (lit "site") [lit "-F"; lit "0x05"] = Some v
    /\ main (html_root_world [])
         (Script.webpage_argv v (lit "/srv/site_html") (lit "index.md"))
       = Exited EXIT_UNKNOWN_OPTION (msg_unknown_option "F").
Proof.
  eexists. split; [reflexivity|].
  apply (script_flags_are_never_accepted (html_root_world [])).
  discriminate.
Defined.

Lemma script_navigation_code_fails_witness :
  exists v,
    Script.read_options (lit "site") [lit "-n"; lit "NAV"] = Some v
    /\ main (html_root_world [])
         (Script.webpage_argv v (lit "/srv/site_html") (lit "index.md"))
       = Exited EXIT_ABS_PATH_REQUIRED msg_abs_path_required.
Proof.
  eexists. split; [reflexivity|].
  apply (script_navigation_code_fails (html_root_world []) (lit "site")
           [lit "-n"; lit "NAV"]).
  - reflexivity.
  - reflexivity.
  - discriminate.
  - reflexivity.
  - reflexivity.
Defined.

Lemma findCssFile_ends_as_witness :
  findCssFile (docs_world [lit "style.css"]) (lit "/srv")
  = Done (Some (searchDir_at 1 ++ lit "style.css")).
Proof.
  apply (findCssFile_ends_as (docs_world [lit "style.css"]) (lit "/srv") 1).
  - intros j Hj. assert (j = 0) by lia. subst j.
    split; [eexists; split; reflexivity|]. split; intro H; vm_compute in H; discriminate H.
  - apply (turn_found (docs_world [lit "style.css"]) (lit "/srv") 1
             [lit "."; lit ".."; lit "docs"; lit "style.css"] (lit "style.css")).
    + reflexivity.
    + reflexivity.
    + unfold SEARCH_DIR_SIZE. simpl. lia.
  - unfold SEARCH_DIR_SIZE. lia.
  - intro H. discriminate H.
Defined.

Lemma one_option_with_its_value_witness :
  (exists v : bool,
      getOptions [lit "webpage"; lit "-f"; lit "/srv/site_html"; lit "./index.md"]
      = Done {| options := apply_flags (strtol16 (lit "/srv/site_html"))
                             (if v then set_verbose true g_Options else g_Options);
                g_MarkdownFilename := lit "./index.md";
                g_RootFilename := strip_extension (lit "./index.md") |})
  /\ (exists v : bool,
      getOptions [lit "webpage"; lit "-n"; lit "/srv/site_html"; lit "./index.md"]
      = Done {| options := set_navEmbedCode (Some (lit "/srv/site_html"))
                             (if v then set_verbose true g_Options else g_Options);
                g_MarkdownFilename := lit "./index.md";
                g_RootFilename := strip_extension (lit "./index.md") |})
  /\ (has_prefix (lit "/") (lit "/srv/site_html") = true ->
      exists v : bool,
        getOptions [lit "webpage"; lit "-c"; lit "/srv/site_html"; lit "./index.md"]
        = Done {| options := set_cssRoot (Some (lit "/srv/site_html"))
                               (if v then set_verbose true g_Options else g_Options);
                  g_MarkdownFilename := lit "./index.md";
                  g_RootFilename := strip_extension (lit "./index.md") |}).
Proof.
  apply (one_option_with_its_value (lit "webpage") (lit "/srv/site_html") (lit "./index.md")).
  reflexivity.
Defined.

